(** * Loguru: a shallow embedding of [loguru.hpp] and its verified properties

    The development follows the implementation part of the single header
    [loguru.hpp] (version 0.6): the severity filter of the logging macros,
    the preamble, the callback registry and its dispatch loop, scopes, the
    fatal path and the check macros, file sinks, the stack-trace prettifier,
    the command line, start-up and the suggested log path.

    Conventions of the embedding.
    - A [const char*] / [std::string] is the [string] of characters that
      precede its terminating NUL; [p + n] on such a pointer is [advance n].
    - [int] values that are only compared ([Verbosity]) are [Z]; the [int]
      that is incremented ([s_indentation]) and the [int] that [atoi] yields
      wrap with [int_wrap].
    - A printf-style call receives its text already rendered: the variadic
      [format, ...] of the logging functions is the parameter [text].
    - The process state (the globals of the translation unit) is the record
      [State]; everything observable the process does (stream writes,
      callback invocations, libc calls) is appended to [events].
    - What the operating system answers (clock, thread name, [mkdir],
      [fopen], the frames of the unwinder) is read from the record [Env],
      which also holds the names the demangler gives the string types.
    - The loops that may not end, those of [prettify_stacktrace] over
      [REPLACE_LIST], are followed for [env_fuel] replacements each; a call
      that is still in one of them by then has the outcome [Looping]. *)

From Stdlib Require Import ZArith List String Ascii Bool Lia DecimalString DecimalPos.
Import ListNotations.

Local Open Scope list_scope.
Local Open Scope string_scope.
Local Open Scope Z_scope.

(* ------------------------------------------------------------------------ *)
(** ** C strings *)

(** The line feed character, written [\n] in the source. *)
Definition nl : string := String "010"%char EmptyString.

(** [advance n s] is the pointer [s + n]: the string without its first [n]
    characters. *)
Fixpoint advance (n : nat) (s : string) : string :=
  match n, s with
  | O, _ => s
  | S n', String _ t => advance n' t
  | S _, EmptyString => EmptyString
  end.

(** [take n s]: the first [n] characters of [s] (all of [s] when shorter). *)
Fixpoint take (n : nat) (s : string) : string :=
  match n, s with
  | O, _ => EmptyString
  | S n', String c t => String c (take n' t)
  | S _, EmptyString => EmptyString
  end.

(** [replicate n s]: [s] written [n] times. *)
Fixpoint replicate (n : nat) (s : string) : string :=
  match n with
  | O => EmptyString
  | S n' => s ++ replicate n' s
  end.

(** [strlen]. *)
Definition strlen (s : string) : nat := String.length s.

(** Every character of [s] satisfies [p]. *)
Fixpoint all_chars (p : ascii -> bool) (s : string) : bool :=
  match s with
  | EmptyString => true
  | String c t => p c && all_chars p t
  end.

(** The last character of [s], if any. *)
Fixpoint last_char (s : string) : option ascii :=
  match s with
  | EmptyString => None
  | String c EmptyString => Some c
  | String _ t => last_char t
  end.

(** [starts_with pat s]: [pat] is a prefix of [s]. *)
Fixpoint starts_with (pat s : string) : bool :=
  match pat, s with
  | EmptyString, _ => true
  | String _ _, EmptyString => false
  | String a pat', String b s' => Ascii.eqb a b && starts_with pat' s'
  end.

(** [std::string::find]: the position of the first occurrence of [pat] in
    [s]; [None] is [npos]. *)
Fixpoint find (pat s : string) : option nat :=
  if starts_with pat s then Some O
  else match s with
       | EmptyString => None
       | String _ t => option_map S (find pat t)
       end.

(** [strchr(s, c)]: offset of the first [c] in [s]; [None] is the null
    pointer. *)
Fixpoint strchr (s : string) (c : ascii) : option nat :=
  match s with
  | EmptyString => None
  | String b t => if Ascii.eqb b c then Some O else option_map S (strchr t c)
  end.

(* ------------------------------------------------------------------------ *)
(** ** printf conversions

    Only the conversions the implementation uses are modelled, each on the
    argument range of its type. Floating-point conversions are not modelled:
    their rendering is supplied by [Env]. *)

(** [%d] / [%u]. *)
Definition dec (z : Z) : string := NilZero.string_of_int (Z.to_int z).

(** Right-justify in a field of [w] characters, filling with [c]; a longer
    text is kept whole ([%<w>s], [%<w>d]). *)
Definition pad_left (w : nat) (c : ascii) (s : string) : string :=
  replicate (w - strlen s) (String c EmptyString) ++ s.

(** Left-justify in a field of [w] characters ([%-<w>s], [%-<w>u]). *)
Definition pad_right (w : nat) (s : string) : string :=
  s ++ replicate (w - strlen s) " ".

(** [%0<w>d]: zero-filled decimal, the sign first. *)
Definition fmt_d0 (w : nat) (z : Z) : string :=
  if z <? 0 then "-" ++ pad_left (w - 1) "0" (dec (- z))
  else pad_left w "0" (dec z).

(** [% <w>d]: a blank where the sign of a non-negative number would be,
    right-justified with blanks. *)
Definition fmt_space_d (w : nat) (z : Z) : string :=
  pad_left w " " (if z <? 0 then dec z else " " ++ dec z).

(** One upper-case hexadecimal digit. *)
Definition hex_digit (d : Z) : ascii :=
  if d <? 10 then ascii_of_nat (48 + Z.to_nat d) else ascii_of_nat (55 + Z.to_nat d).

(** The hexadecimal digits of [z >= 0], most significant first; [fuel]
    bounds the number of digits. *)
Fixpoint hex_digits (fuel : nat) (z : Z) (acc : string) : string :=
  match fuel with
  | O => acc
  | S fuel' =>
      let acc' := String (hex_digit (z mod 16)) acc in
      if z / 16 =? 0 then acc' else hex_digits fuel' (z / 16) acc'
  end.

(** [%<w>X] of an [unsigned]. *)
Definition fmt_X (w : nat) (z : Z) : string :=
  pad_left w " " (hex_digits 8 (z mod 2 ^ 32) EmptyString).

(** [snprintf(buff, size, ...)] keeps at most [size - 1] characters of the
    rendered text. *)
Definition snprintf (size : nat) (rendered : string) : string :=
  take (size - 1) rendered.

(* ------------------------------------------------------------------------ *)
(** ** Integer conversions *)

(** Value of an [int] after an arithmetic step (two's-complement wrap, as
    [std::atomic<int>] arithmetic is defined). *)
Definition int_wrap (z : Z) : Z := (z + 2 ^ 31) mod 2 ^ 32 - 2 ^ 31.

(** An [int] value. *)
Definition int_range (z : Z) : Prop := - 2 ^ 31 <= z < 2 ^ 31.

(** Conversion of an [int] to [unsigned]. *)
Definition to_unsigned (z : Z) : Z := z mod 2 ^ 32.

(* ------------------------------------------------------------------------ *)
(** ** [indentation] and [filename] *)

(** The static buffer of [indentation]: one hundred markers of four
    characters, written as in the source (ten literals of ten markers). *)
Definition indentation_buff : string :=
  ".   .   .   .   .   .   .   .   .   .   " ++ ".   .   .   .   .   .   .   .   .   .   " ++
  ".   .   .   .   .   .   .   .   .   .   " ++ ".   .   .   .   .   .   .   .   .   .   " ++
  ".   .   .   .   .   .   .   .   .   .   " ++ ".   .   .   .   .   .   .   .   .   .   " ++
  ".   .   .   .   .   .   .   .   .   .   " ++ ".   .   .   .   .   .   .   .   .   .   " ++
  ".   .   .   .   .   .   .   .   .   .   " ++ ".   .   .   .   .   .   .   .   .   .   ".

(** [const char* indentation(unsigned depth)]:
    [depth = min(depth, 100); return buff + 4 * (100 - depth);] *)
Definition indentation (depth : Z) : string :=
  let depth := Z.min depth 100 in
  advance (Z.to_nat (4 * (100 - depth))) indentation_buff.

(** The test [*ptr == '/' || *ptr == '\\'] of [filename]. *)
Definition is_path_separator (c : ascii) : bool :=
  Ascii.eqb c "/" || Ascii.eqb c "\".

(** The loop of [filename]: [ptr] walks to the terminating NUL and [path]
    is moved to [ptr + 1] at every separator. *)
Fixpoint filename_loop (path ptr : string) : string :=
  match ptr with
  | EmptyString => path
  | String c rest =>
      if is_path_separator c then filename_loop rest rest
      else filename_loop path rest
  end.

(** [inline const char* filename(const char* path)]. *)
Definition filename (path : string) : string := filename_loop path path.

(* ------------------------------------------------------------------------ *)
(** ** Stack-trace prettifier *)

(** The demangled names [type_name<T>()] yields on the platform, for the
    four string types of [REPLACE_LIST]. *)
Record Platform := {
  string_name : string;
  wstring_name : string;
  u16string_name : string;
  u32string_name : string
}.

(** [static const StringPairList REPLACE_LIST]. *)
Definition REPLACE_LIST (pf : Platform) : list (string * string) :=
  [ (string_name pf, "std::string");
    (wstring_name pf, "std::wstring");
    (u16string_name pf, "std::u16string");
    (u32string_name pf, "std::u32string");
    ("std::__1::", "std::");
    ("__thiscall ", "");
    ("__cdecl ", "") ].

(** [output.replace(it, n, second)]. *)
Definition replace (it n : nat) (second output : string) : string :=
  take it output ++ second ++ advance (it + n) output.

(** [while ((it = output.find(first)) != npos) output.replace(it,
    first.size(), second);] run for at most [fuel] replacements; [None]
    when the loop has not ended by then. *)
Fixpoint replace_loop (fuel : nat) (first second output : string) : option string :=
  match find first output with
  | None => Some output
  | Some it =>
      match fuel with
      | O => None
      | S fuel' => replace_loop fuel' first second (replace it (strlen first) second output)
      end
  end.

(** [for (auto&& p : REPLACE_LIST)]. *)
Fixpoint replace_list (fuel : nat) (l : list (string * string)) (output : string)
  : option string :=
  match l with
  | [] => Some output
  | p :: rest =>
      match replace_loop fuel (fst p) (snd p) output with
      | Some output' => replace_list fuel rest output'
      | None => None
      end
  end.

(** *** The fragment of ECMAScript regular expressions the prettifier uses

    A pattern is a sequence of atoms: a character class with a quantifier
    ([One], [*] or [+], both greedy), possibly inside the capture group. *)
Inductive quantifier := One | Star | Plus.

Record atom := {
  atom_class : ascii -> bool;
  atom_quant : quantifier;
  atom_group : bool
}.

Definition regex := list atom.

(** [\s]: the white-space characters of the C locale. *)
Definition is_space (c : ascii) : bool :=
  let n := nat_of_ascii c in
  ((9 <=? n) && (n <=? 13) || (n =? 32))%nat.

Definition lit (c : ascii) : atom :=
  {| atom_class := Ascii.eqb c; atom_quant := One; atom_group := false |}.

Fixpoint lits (s : string) : regex :=
  match s with
  | EmptyString => []
  | String c t => lit c :: lits t
  end.

(** Length of the longest prefix of [s] made of characters of the class. *)
Fixpoint run_length (p : ascii -> bool) (s : string) : nat :=
  match s with
  | EmptyString => O
  | String c t => if p c then S (run_length p t) else O
  end.

(** Backtracking over the number of repetitions of an atom: [k]
    repetitions first, then fewer, never fewer than [lo]. *)
Fixpoint try_counts (k lo : nat) (attempt : nat -> option (nat * string))
  : option (nat * string) :=
  if (k <? lo)%nat then None
  else
    match attempt k with
    | Some r => Some r
    | None =>
        match k with
        | O => None
        | S k' => try_counts k' lo attempt
        end
    end.

(** [match_here re s]: the match of [re] at the start of [s] that the
    backtracking matcher finds first, as the number of characters matched
    and the text of the capture group. *)
Fixpoint match_here (re : regex) (s : string) : option (nat * string) :=
  match re with
  | [] => Some (O, EmptyString)
  | a :: re' =>
      let run := run_length (atom_class a) s in
      let '(lo, hi) :=
        match atom_quant a with
        | One => (1, Nat.min 1 run)
        | Star => (0, run)
        | Plus => (1, run)
        end%nat in
      try_counts hi lo
        (fun k =>
           match match_here re' (advance k s) with
           | Some (n, cap) => Some ((k + n)%nat, if atom_group a then take k s else cap)
           | None => None
           end)
  end.

(** [std::regex_replace(s, re, fmt)]: every match, searched from left to
    right after the end of the previous one, is replaced by [fmt] of its
    capture; [skip] characters of the current match are still to be
    dropped. The patterns of the prettifier match no empty text. *)
Fixpoint regex_replace_from (re : regex) (fmt : string -> string) (skip : nat)
    (s : string) : string :=
  match s with
  | EmptyString => EmptyString
  | String c t =>
      match skip with
      | S k => regex_replace_from re fmt k t
      | O =>
          match match_here re s with
          | Some (S n, cap) => fmt cap ++ regex_replace_from re fmt n t
          | _ => String c (regex_replace_from re fmt O t)
          end
      end
  end.

Definition regex_replace (re : regex) (fmt : string -> string) (s : string) : string :=
  regex_replace_from re fmt O s.

(** [\s*]. *)
Definition space_star : atom :=
  {| atom_class := is_space; atom_quant := Star; atom_group := false |}.

(** The class [[^<>]]. *)
Definition not_angle (c : ascii) : bool :=
  negb (Ascii.eqb c "<" || Ascii.eqb c ">").

(** The class [[^<> ]]. *)
Definition not_angle_or_blank (c : ascii) : bool :=
  negb (Ascii.eqb c "<" || Ascii.eqb c ">" || Ascii.eqb c " ").

(** [([^<> ]+)]. *)
Definition template_arg : atom :=
  {| atom_class := not_angle_or_blank; atom_quant := Plus; atom_group := true |}.

(** [R"(,\s*std::allocator<[^<>]+>)"]. *)
Definition std_allocator_re : regex :=
  ([lit ","; space_star] ++ lits "std::allocator<"
   ++ [{| atom_class := not_angle; atom_quant := Plus; atom_group := false |};
       lit ">"])%list.

(** [R"(<\s*([^<> ]+)\s*>)"]. *)
Definition template_spaces_re : regex :=
  [lit "<"; space_star; template_arg; space_star; lit ">"].

(** The replacement format ["<$1>"] of the second pattern. *)
Definition angle_group (g : string) : string := "<" ++ g ++ ">".

(** [std::string prettify_stacktrace(const std::string& input)]; [fuel]
    bounds the replacements of each loop over [REPLACE_LIST]. *)
Definition prettify_stacktrace (fuel : nat) (pf : Platform) (input : string)
  : option string :=
  match replace_list fuel (REPLACE_LIST pf) input with
  | None => None
  | Some output =>
      let output := regex_replace std_allocator_re (fun _ => EmptyString) output in
      let output := regex_replace template_spaces_re angle_group output in
      Some output
  end.

(* ------------------------------------------------------------------------ *)
(** ** Data model *)

(** [using Verbosity = int;] *)
Definition Verbosity := Z.

(** [enum NamedVerbosity : Verbosity]. *)
Definition FATAL : Verbosity := -3.
Definition ERROR : Verbosity := -2.
Definition WARNING : Verbosity := -1.
Definition INFO : Verbosity := 0.
Definition MAX : Verbosity := 9.

(** A [void*] or [FILE*] value: an address, [0] for [nullptr]. *)
Definition ptr := Z.
Definition nullptr : ptr := 0.

Module Message.
(** [struct Message]. *)
Record t := make {
  verbosity : Verbosity;
  filename : string;
  line : Z;
  preamble : string;
  indentation : string;
  prefix : string;
  message : string
}.
End Message.

(** A [log_handler_t] value: the address of [file_log], or of a function of
    the application. *)
Inductive log_handler_t := FileLog | UserLog (fn : positive).

(** A non-null [close_handler_t] value. *)
Inductive close_handler_t := FileClose | UserClose (fn : positive).

(** A non-null [fatal_handler_t] value: [::abort] or a function of the
    application. *)
Inductive fatal_handler_t := LibcAbort | UserFatal (fn : positive).

Module Callback.
(** [struct Callback]; a null [close] is [None]. *)
Record t := make {
  id : string;
  callback : log_handler_t;
  user_data : ptr;
  verbosity : Verbosity;
  close : option close_handler_t
}.
End Callback.

(** [using CallbackVec = std::vector<Callback>;] *)
Definition CallbackVec := list Callback.t.

(** [enum FileMode { Truncate, Append };] *)
Inductive FileMode := Truncate | Append.

(** The values of [errno] the implementation tests, and the others. *)
Inductive errno_t :=
| EACCES | ENAMETOOLONG | ENOENT | ENOTDIR | ELOOP | EEXIST | EOTHER (code : Z).

Definition errno_eqb (a b : errno_t) : bool :=
  match a, b with
  | EACCES, EACCES | ENAMETOOLONG, ENAMETOOLONG | ENOENT, ENOENT
  | ENOTDIR, ENOTDIR | ELOOP, ELOOP | EEXIST, EEXIST => true
  | EOTHER x, EOTHER y => x =? y
  | _, _ => false
  end.

(** A [FILE*] the process writes to: [s_out] ([stdout]), [s_err] ([stderr])
    or the stream at an address. *)
Inductive Stream := Stdout | Stderr | FileStream (file : ptr).

(** What the process does that can be observed from outside, in order. *)
Inductive Event :=
| EvFprintf (out : Stream) (text : string)
| EvFflush (out : Stream)
| EvCallback (h : log_handler_t) (user_data : ptr) (m : Message.t)
| EvClose (h : close_handler_t) (user_data : ptr)
| EvFclose (file : ptr)
| EvMkdir (path : string) (result : Z)
| EvFopen (path mode : string) (result : ptr)
| EvFatalHandler (h : fatal_handler_t)
| EvAbort.

(** [struct tm] as filled by [localtime_r] (the fields that are printed). *)
Record tm := {
  tm_year : Z; tm_mon : Z; tm_mday : Z; tm_hour : Z; tm_min : Z; tm_sec : Z
}.

(** The answers of the operating system and of libc's floating-point
    conversions. *)
Record Env := {
  (** [localtime_r] of [system_clock::now()] and its milliseconds *)
  env_time_info : tm;
  env_ms_since_epoch : Z;
  (** [uptime_sec] as rendered by [%8.3f] *)
  env_uptime_text : string;
  (** the buffer filled by [pthread_getname_np], and [pthread_self()] *)
  env_thread_name : string;
  env_thread_id : Z;
  (** [now_ns()] *)
  env_now_ns : Z;
  (** [%.*f] of a duration: precision, then the nanoseconds that were
      divided by [1e9] *)
  env_fmt_seconds : Z -> Z -> string;
  (** the text [result] that [stacktrace_as_stdstring(skip)] builds from the
      frames of the call stack, before it is handed to
      [prettify_stacktrace] *)
  env_stacktrace : Z -> string;
  (** the names of the string types on the platform *)
  env_platform : Platform;
  (** the number of replacements a loop of [prettify_stacktrace] is followed
      for *)
  env_fuel : nat;
  (** [mkdir] of a path that does not exist: the error, or [None] when the
      directory is created *)
  env_mkdir_error : string -> option errno_t;
  (** [fopen(path, mode)] *)
  env_fopen : string -> string -> ptr
}.

(** The globals of the implementation, the part of the file system it
    changes, and the events so far. *)
Record State := {
  g_verbosity : Verbosity;
  s_file_arguments : string;
  s_callbacks : CallbackVec;
  s_fatal_handler : option fatal_handler_t;
  s_strip_file_path : bool;
  s_indentation : Z;
  errno : errno_t;
  fs_dirs : list string;
  env : Env;
  events : list Event
}.

Definition emit (e : Event) (st : State) : State :=
  {| g_verbosity := g_verbosity st; s_file_arguments := s_file_arguments st;
     s_callbacks := s_callbacks st; s_fatal_handler := s_fatal_handler st;
     s_strip_file_path := s_strip_file_path st; s_indentation := s_indentation st;
     errno := errno st; fs_dirs := fs_dirs st; env := env st;
     events := (events st ++ [e])%list |}.

Definition with_callbacks (cbs : CallbackVec) (st : State) : State :=
  {| g_verbosity := g_verbosity st; s_file_arguments := s_file_arguments st;
     s_callbacks := cbs; s_fatal_handler := s_fatal_handler st;
     s_strip_file_path := s_strip_file_path st; s_indentation := s_indentation st;
     errno := errno st; fs_dirs := fs_dirs st; env := env st;
     events := events st |}.

Definition with_indentation (d : Z) (st : State) : State :=
  {| g_verbosity := g_verbosity st; s_file_arguments := s_file_arguments st;
     s_callbacks := s_callbacks st; s_fatal_handler := s_fatal_handler st;
     s_strip_file_path := s_strip_file_path st; s_indentation := d;
     errno := errno st; fs_dirs := fs_dirs st; env := env st;
     events := events st |}.

Definition with_errno (e : errno_t) (st : State) : State :=
  {| g_verbosity := g_verbosity st; s_file_arguments := s_file_arguments st;
     s_callbacks := s_callbacks st; s_fatal_handler := s_fatal_handler st;
     s_strip_file_path := s_strip_file_path st; s_indentation := s_indentation st;
     errno := e; fs_dirs := fs_dirs st; env := env st;
     events := events st |}.

Definition with_dirs (dirs : list string) (st : State) : State :=
  {| g_verbosity := g_verbosity st; s_file_arguments := s_file_arguments st;
     s_callbacks := s_callbacks st; s_fatal_handler := s_fatal_handler st;
     s_strip_file_path := s_strip_file_path st; s_indentation := s_indentation st;
     errno := errno st; fs_dirs := dirs; env := env st;
     events := events st |}.

(** The outcome of a call that may end the process: it returns a value and
    a state, or the process terminated in a state, or the call is in a loop
    of [prettify_stacktrace] that has not ended after [env_fuel]
    replacements. *)
Inductive Outcome (A : Type) : Type :=
| Returns (a : A) (st : State)
| Terminated (st : State)
| Looping (st : State).
Arguments Returns {A} a st.
Arguments Terminated {A} st.
Arguments Looping {A} st.

(** A call of a [LOGURU_NORETURN] function in a context of type [A]. *)
Definition noreturn {A : Type} (o : Outcome Empty_set) : Outcome A :=
  match o with
  | Returns e _ => match e with end
  | Terminated st => Terminated st
  | Looping st => Looping st
  end.

(** [__FILE__] inside the implementation. *)
Definition __FILE__ : string := "loguru.hpp".

Definition SCOPE_TIME_PRECISION : Z := 3.
Definition THREAD_NAME_WIDTH : nat := 16.
Definition PREAMBLE_EXPLAIN : string :=
  "date       time         ( uptime  ) [ thread name/id ]                   file:line     v| ".

(* ------------------------------------------------------------------------ *)
(** ** libc *)

Definition fprintf (out : Stream) (text : string) (st : State) : State :=
  emit (EvFprintf out text) st.

Definition fflush (out : Stream) (st : State) : State :=
  emit (EvFflush out) st.

Definition fclose (file : ptr) (st : State) : State :=
  emit (EvFclose file) st.

(** [fopen]: the stream the environment hands out, null on failure. *)
Definition fopen (path mode : string) (st : State) : ptr * State :=
  let file := env_fopen (env st) path mode in
  (file, emit (EvFopen path mode file) st).

(** [mkdir(path, 0755)]: fails with [EEXIST] on an existing directory, with
    the environment's error where it refuses, and creates the directory
    otherwise. Returns [0] or [-1] and sets [errno] on failure. *)
Definition mkdir (path : string) (st : State) : Z * State :=
  if existsb (String.eqb path) (fs_dirs st) then
    (-1, emit (EvMkdir path (-1)) (with_errno EEXIST st))
  else
    match env_mkdir_error (env st) path with
    | Some e => (-1, emit (EvMkdir path (-1)) (with_errno e st))
    | None => (0, emit (EvMkdir path 0) (with_dirs (fs_dirs st ++ [path])%list st))
    end.

(** [abort()]. *)
Definition abort {A : Type} (st : State) : Outcome A :=
  Terminated (emit EvAbort st).

(** [now_ns()]. *)
Definition now_ns (st : State) : Z := env_now_ns (env st).

(* ------------------------------------------------------------------------ *)
(** ** Preamble *)

(** The thread column of [print_preamble]: the name of the thread, or its
    id as [%16X] when the thread has no name. *)
Definition thread_name (e : Env) : string :=
  if (strlen (env_thread_name e) =? 0)%nat then
    snprintf (THREAD_NAME_WIDTH + 1) (fmt_X 16 (env_thread_id e))
  else env_thread_name e.

(** The block of [print_preamble] that fills [char level_buff[6]]. *)
Definition level_buff (verbosity : Verbosity) : string :=
  if verbosity <=? FATAL then "FATL"
  else if verbosity =? ERROR then "ERR"
  else if verbosity =? WARNING then "WARN"
  else snprintf (6 - 1) (fmt_space_d 4 verbosity).

(** The [file] argument of the final [snprintf] of [print_preamble]:
    [if (s_strip_file_path) { file = filename(file); }] *)
Definition preamble_file (st : State) (file : string) : string :=
  if s_strip_file_path st then filename file else file.

(** The text the final [snprintf] of [print_preamble] renders, before it is
    cut to the size of the buffer. *)
Definition preamble_text (st : State) (verbosity : Verbosity) (file : string) (line : Z)
  : string :=
  let time_info := env_time_info (env st) in
  let ms_since_epoch := env_ms_since_epoch (env st) in
  fmt_d0 4 (1900 + tm_year time_info) ++ "-" ++ fmt_d0 2 (1 + tm_mon time_info) ++ "-"
  ++ fmt_d0 2 (tm_mday time_info) ++ " "
  ++ fmt_d0 2 (tm_hour time_info) ++ ":" ++ fmt_d0 2 (tm_min time_info) ++ ":"
  ++ fmt_d0 2 (tm_sec time_info) ++ "." ++ fmt_d0 3 (Z.rem ms_since_epoch 1000)
  ++ " (" ++ env_uptime_text (env st) ++ "s) ["
  ++ pad_right THREAD_NAME_WIDTH (thread_name (env st)) ++ "]"
  ++ pad_left 23 " " (preamble_file st file) ++ ":" ++ pad_right 5 (dec line)
  ++ " " ++ pad_left 4 " " (level_buff verbosity) ++ "| ".

(** [static void print_preamble(char* out_buff, size_t out_buff_size,
    Verbosity verbosity, const char* file, unsigned line)]: the content of
    [out_buff] afterwards. *)
Definition print_preamble (out_buff_size : nat) (st : State)
    (verbosity : Verbosity) (file : string) (line : Z) : string :=
  snprintf out_buff_size (preamble_text st verbosity file line).

(* ------------------------------------------------------------------------ *)
(** ** Dispatch *)

(** The line a message is printed as: [fprintf(_, "%s%s%s%s\n", ...)]. *)
Definition message_line (m : Message.t) : string :=
  Message.preamble m ++ Message.indentation m ++ Message.prefix m
  ++ Message.message m ++ nl.

(** [void file_log(void* user_data, const Message& message)]. *)
Definition file_log (user_data : ptr) (m : Message.t) (st : State) : State :=
  let file := FileStream user_data in
  fflush file (fprintf file (message_line m) st).

(** [void file_close(void* user_data)]. *)
Definition file_close (user_data : ptr) (st : State) : State :=
  fclose user_data st.

(** The call [p.callback(p.user_data, message)]: the invocation is recorded;
    [file_log] runs its body, a function of the application is opaque. *)
Definition call_log_handler (h : log_handler_t) (user_data : ptr) (m : Message.t)
    (st : State) : State :=
  let st := emit (EvCallback h user_data m) st in
  match h with
  | FileLog => file_log user_data m st
  | UserLog _ => st
  end.

(** The call [it->close(it->user_data)]. *)
Definition call_close_handler (h : close_handler_t) (user_data : ptr) (st : State)
  : State :=
  let st := emit (EvClose h user_data) st in
  match h with
  | FileClose => file_close user_data st
  | UserClose _ => st
  end.

(** The loop [for (auto& p : s_callbacks)] of [log_message]. *)
Fixpoint log_message_loop (verbosity : Verbosity) (m : Message.t)
    (callbacks : CallbackVec) (st : State) : State :=
  match callbacks with
  | [] => st
  | p :: rest =>
      let st :=
        if verbosity <=? Callback.verbosity p
        then call_log_handler (Callback.callback p) (Callback.user_data p) m st
        else st in
      log_message_loop verbosity m rest st
  end.

(** [static void log_message(const Message& message)]. *)
Definition log_message (m : Message.t) (st : State) : State :=
  let verbosity := Message.verbosity m in
  let out := if verbosity <=? WARNING then Stderr else Stdout in
  let st := fprintf out (message_line m) st in
  let st := fflush out st in
  log_message_loop verbosity m (s_callbacks st) st.

(** The [Message] built by [log_to_everywhere]; [preamble_buff] has 128
    bytes. *)
Definition make_message (st : State) (verbosity : Verbosity) (file : string)
    (line : Z) (prefix buff : string) : Message.t :=
  Message.make verbosity file line (print_preamble 128 st verbosity file line)
    (indentation (to_unsigned (s_indentation st))) prefix buff.

(** [void log_to_everywhere(Verbosity verbosity, const char* file,
    unsigned line, const char* prefix, const char* buff)]. *)
Definition log_to_everywhere (verbosity : Verbosity) (file : string) (line : Z)
    (prefix buff : string) (st : State) : State :=
  log_message (make_message st verbosity file line prefix buff) st.

(** [log_to_everywhere_v]: [text] is [format] rendered with [vlist]. *)
Definition log_to_everywhere_v (verbosity : Verbosity) (file : string) (line : Z)
    (prefix text : string) (st : State) : State :=
  log_to_everywhere verbosity file line prefix text st.

(** [void log(Verbosity verbosity, const char* file, unsigned line,
    const char* format, ...)]. *)
Definition log (verbosity : Verbosity) (file : string) (line : Z) (text : string)
    (st : State) : State :=
  log_to_everywhere_v verbosity file line "" text st.

(** [void raw_log(...)]: no preamble, no indentation. *)
Definition raw_log (verbosity : Verbosity) (file : string) (line : Z) (text : string)
    (st : State) : State :=
  log_message (Message.make verbosity file line "" "" "" text) st.

(* ------------------------------------------------------------------------ *)
(** ** Logging macros *)

(** [#define VLOG_F(verbosity, ...)
      (verbosity > loguru::g_verbosity) ? (void)0
        : loguru::log(verbosity, __FILE__, __LINE__, __VA_ARGS__)] *)
Definition VLOG_F (verbosity : Verbosity) (file : string) (line : Z) (text : string)
    (st : State) : State :=
  if verbosity >? g_verbosity st then st
  else log verbosity file line text st.

(** [#define LOG_F(verbosity_name, ...)
      VLOG_F(loguru::NamedVerbosity::verbosity_name, __VA_ARGS__)] *)
Definition LOG_F (verbosity_name : Verbosity) (file : string) (line : Z)
    (text : string) (st : State) : State :=
  VLOG_F verbosity_name file line text st.

(** [#define VLOG_IF_F(verbosity, cond, ...)
      (verbosity > loguru::g_verbosity || (cond) == false) ? (void)0
        : loguru::log(verbosity, __FILE__, __LINE__, __VA_ARGS__)] *)
Definition VLOG_IF_F (verbosity : Verbosity) (cond : bool) (file : string) (line : Z)
    (text : string) (st : State) : State :=
  if (verbosity >? g_verbosity st) || negb cond then st
  else log verbosity file line text st.

(** [#define LOG_IF_F(verbosity_name, cond, ...)
      VLOG_IF_F(loguru::NamedVerbosity::verbosity_name > loguru::g_verbosity,
                cond, __VA_ARGS__)]

    The first argument handed to [VLOG_IF_F] is the comparison itself, so
    the verbosity of the call is its truth value ([0] or [1]). *)
Definition LOG_IF_F (verbosity_name : Verbosity) (cond : bool) (file : string)
    (line : Z) (text : string) (st : State) : State :=
  VLOG_IF_F (if verbosity_name >? g_verbosity st then 1 else 0) cond file line text st.

(** The severity test of the macros, [!(verbosity > g_verbosity)]. *)
Definition is_enabled (st : State) (verbosity : Verbosity) : bool :=
  negb (verbosity >? g_verbosity st).

(* ------------------------------------------------------------------------ *)
(** ** Callback registry *)

(** [void set_fatal_handler(fatal_handler_t handler)]. *)
Definition set_fatal_handler (handler : option fatal_handler_t) (st : State) : State :=
  {| g_verbosity := g_verbosity st; s_file_arguments := s_file_arguments st;
     s_callbacks := s_callbacks st; s_fatal_handler := handler;
     s_strip_file_path := s_strip_file_path st; s_indentation := s_indentation st;
     errno := errno st; fs_dirs := fs_dirs st; env := env st;
     events := events st |}.

(** [void add_callback(const char* id, log_handler_t callback,
    void* user_data, Verbosity verbosity, close_handler_t on_close)]:
    [s_callbacks.push_back(Callback{...})]. *)
Definition add_callback (id : string) (callback : log_handler_t) (user_data : ptr)
    (verbosity : Verbosity) (on_close : option close_handler_t) (st : State) : State :=
  with_callbacks
    (s_callbacks st ++ [Callback.make id callback user_data verbosity on_close])%list st.

(** [std::find_if(begin(v), end(v), pred)] as an index; [length v] is
    [end(v)]. *)
Fixpoint find_if {A : Type} (pred : A -> bool) (v : list A) : nat :=
  match v with
  | [] => O
  | x :: rest => if pred x then O else S (find_if pred rest)
  end.

(** [v.erase(it)] for the iterator at index [it]. *)
Definition erase {A : Type} (it : nat) (v : list A) : list A :=
  (firstn it v ++ skipn (S it) v)%list.

(** [void remove_callback(const char* id)]. *)
Definition remove_callback (id : string) (st : State) : State :=
  let it := find_if (fun c => String.eqb (Callback.id c) id) (s_callbacks st) in
  match nth_error (s_callbacks st) it with
  | Some c =>
      let st :=
        match Callback.close c with
        | Some h => call_close_handler h (Callback.user_data c) st
        | None => st
        end in
      with_callbacks (erase it (s_callbacks st)) st
  | None =>
      LOG_F ERROR __FILE__ 941 ("Failed to locate callback with id '" ++ id ++ "'") st
  end.

(* ------------------------------------------------------------------------ *)
(** ** Fatal path *)

(** [std::string stacktrace_as_stdstring(int skip)], the branch for
    [__GNUG__]: the frames above [skip], rendered by the environment, go
    through [prettify_stacktrace]; [None] when a loop of the prettifier has
    not ended within the bound. *)
Definition stacktrace_as_stdstring (st : State) (skip : Z) : option string :=
  let result := env_stacktrace (env st) skip in
  prettify_stacktrace (env_fuel (env st)) (env_platform (env st)) result.

(** [char* stacktrace(int skip)]. *)
Definition stacktrace (st : State) (skip : Z) : option string :=
  stacktrace_as_stdstring st (skip + 1).

(** The call [s_fatal_handler()]: [::abort] ends the process, a function of
    the application is opaque and returns. *)
Definition call_fatal_handler (h : fatal_handler_t) (st : State) : Outcome unit :=
  let st := emit (EvFatalHandler h) st in
  match h with
  | LibcAbort => abort st
  | UserFatal _ => Returns tt st
  end.

(** [void log_and_abort(int stack_trace_skip, const char* expr,
    const char* file, unsigned line, const char* format, ...)]. *)
Definition log_and_abort (stack_trace_skip : Z) (expr file : string) (line : Z)
    (text : string) (st : State) : Outcome Empty_set :=
  match stacktrace st (stack_trace_skip + 2) with
  | None => Looping st
  | Some trace =>
      let st :=
        if negb (strlen trace =? 0)%nat
        then LOG_F ERROR __FILE__ 1207 ("Stack trace:" ++ nl ++ trace) st
        else st in
      let st := log_to_everywhere_v FATAL file line expr text st in
      match s_fatal_handler st with
      | Some h =>
          match call_fatal_handler h st with
          | Returns _ st => abort st
          | Terminated st => Terminated st
          | Looping st => Looping st
          end
      | None => abort st
      end
  end.

(** [void log_and_abort(int stack_trace_skip, const char* expr,
    const char* file, unsigned line)]. *)
Definition log_and_abort_no_message (stack_trace_skip : Z) (expr file : string)
    (line : Z) (st : State) : Outcome Empty_set :=
  log_and_abort (stack_trace_skip + 1) expr file line " " st.

(* ------------------------------------------------------------------------ *)
(** ** File sinks *)

(** The messages of [mkpath] when a directory cannot be created. *)
Definition mkpath_report (file_path : string) (st : State) : State :=
  let st := LOG_F ERROR __FILE__ 879 ("Failed to create directory '" ++ file_path ++ "'") st in
  let st := LOG_IF_F ERROR (errno_eqb (errno st) EACCES) __FILE__ 880 "EACCES" st in
  let st := LOG_IF_F ERROR (errno_eqb (errno st) ENAMETOOLONG) __FILE__ 881 "ENAMETOOLONG" st in
  let st := LOG_IF_F ERROR (errno_eqb (errno st) ENOENT) __FILE__ 882 "ENOENT" st in
  let st := LOG_IF_F ERROR (errno_eqb (errno st) ENOTDIR) __FILE__ 883 "ENOTDIR" st in
  LOG_IF_F ERROR (errno_eqb (errno st) ELOOP) __FILE__ 884 "ELOOP" st.

(** The loop of [mkpath],
    [for (char* p = strchr(file_path + 1, '/'); p; p = strchr(p + 1, '/'))]:
    [rest] is the text at offset [off] of [file_path] that [strchr] still
    has to scan. At every ['/'] the path is cut there ([*p = '\0']) and
    handed to [mkdir]. *)
Fixpoint mkpath_loop (file_path : string) (off : nat) (rest : string) (st : State)
  : bool * State :=
  match rest with
  | EmptyString => (true, st)
  | String c rest' =>
      if Ascii.eqb c "/" then
        let cut := take off file_path in
        let (r, st) := mkdir cut st in
        if (r =? -1) && negb (errno_eqb (errno st) EEXIST)
        then (false, mkpath_report cut st)
        else mkpath_loop file_path (S off) rest' st
      else mkpath_loop file_path (S off) rest' st
  end.

(** [bool mkpath(const char* file_path_const)]; the [CHECK_F] on the first
    line does not return on an empty path. *)
Definition mkpath (file_path_const : string) (st : State) : Outcome bool :=
  if (strlen file_path_const =? 0)%nat then
    noreturn (log_and_abort_no_message 0
                "CHECK FAILED:  file_path_const && *file_path_const  " __FILE__ 868 st)
  else
    let (r, st) := mkpath_loop file_path_const 1 (advance 1 file_path_const) st in
    Returns r st.

(** [mode == FileMode::Truncate ? "w" : "a"]. *)
Definition mode_str (mode : FileMode) : string :=
  match mode with Truncate => "w" | Append => "a" end.

(** The part of [add_file] after [mkpath] returned [created]. *)
Definition add_file_open (created : bool) (path : string) (mode : FileMode)
    (verbosity : Verbosity) (st : State) : bool * State :=
  let st :=
    if created then st
    else LOG_F ERROR __FILE__ 900 ("Failed to create directories to '" ++ path ++ "'") st in
  let (file, st) := fopen path (mode_str mode) st in
  if file =? nullptr then
    (false, LOG_F ERROR __FILE__ 906 ("Failed to open '" ++ path ++ "'") st)
  else
    let st := add_callback path FileLog file verbosity (Some FileClose) st in
    let st := fprintf (FileStream file)
                ("arguments:       " ++ s_file_arguments st ++ nl) st in
    let st := fprintf (FileStream file)
                ("Verbosity level: " ++ dec (Z.max (g_verbosity st) verbosity) ++ nl) st in
    let st := fprintf (FileStream file) (PREAMBLE_EXPLAIN ++ nl) st in
    let st := fflush (FileStream file) st in
    (true, LOG_F INFO __FILE__ 916
             ("Logging to '" ++ path ++ "', mode: '" ++ mode_str mode
              ++ "', verbosity: " ++ dec verbosity) st).

(** [bool add_file(const char* path, FileMode mode, Verbosity verbosity)]. *)
Definition add_file (path : string) (mode : FileMode) (verbosity : Verbosity)
    (st : State) : Outcome bool :=
  match mkpath path st with
  | Terminated st => Terminated st
  | Looping st => Looping st
  | Returns created st =>
      let (r, st) := add_file_open created path mode verbosity st in
      Returns r st
  end.

(* ------------------------------------------------------------------------ *)
(** ** Scopes *)

Module LogScopeRAII.
(** The data members of [class LogScopeRAII]; a null [_file] is [None]. *)
Record t := make {
  _verbosity : Verbosity;
  _file : option string;
  _line : Z;
  _start_time_ns : Z;
  _name : string
}.

(** [LogScopeRAII::LogScopeRAII(Verbosity verbosity, const char* file,
    unsigned line, const char* format, ...)]; [_name] has 128 bytes and is
    left unwritten (here: empty) when the scope is disabled. *)
Definition ctor (verbosity : Verbosity) (file : string) (line : Z) (text : string)
    (st : State) : t * State :=
  let start_time_ns := now_ns st in
  if verbosity <=? g_verbosity st then
    let name := snprintf 128 text in
    let st := log_to_everywhere verbosity file line "{ " name st in
    let st := with_indentation (int_wrap (s_indentation st + 1)) st in
    (make verbosity (Some file) line start_time_ns name, st)
  else
    (make verbosity None line start_time_ns EmptyString, st).

(** [LogScopeRAII::~LogScopeRAII()]. *)
Definition dtor (this : t) (st : State) : State :=
  match _file this with
  | Some file =>
      let st := with_indentation (int_wrap (s_indentation st - 1)) st in
      let duration := now_ns st - _start_time_ns this in
      log (_verbosity this) file (_line this)
        ("} " ++ env_fmt_seconds (env st) SCOPE_TIME_PRECISION duration
         ++ " s: " ++ _name this) st
  | None => st
  end.
End LogScopeRAII.

(** A block of statements: calls of [VLOG_F] and nested blocks that open
    with [VLOG_SCOPE_F], whose object lives until the end of its block. *)
Inductive block :=
| BEnd
| BLog (verbosity : Verbosity) (file : string) (line : Z) (text : string)
       (rest : block)
| BScope (verbosity : Verbosity) (file : string) (line : Z) (text : string)
         (body rest : block).

(** Execution of a block: the scope object is constructed where the block
    opens and destroyed where it ends. *)
Fixpoint exec (b : block) (st : State) : State :=
  match b with
  | BEnd => st
  | BLog verbosity file line text rest =>
      exec rest (VLOG_F verbosity file line text st)
  | BScope verbosity file line text body rest =>
      let (scope, st) := LogScopeRAII.ctor verbosity file line text st in
      let st := exec body st in
      exec rest (LogScopeRAII.dtor scope st)
  end.

(* ------------------------------------------------------------------------ *)
(** ** Sample platform, environment and states

    Concrete values on which the definitions above are evaluated. *)

(** The names libc++ gives the four string types. *)
Definition libcxx : Platform := {|
  string_name :=
    "std::__1::basic_string<char, std::__1::char_traits<char>, std::__1::allocator<char> >";
  wstring_name :=
    "std::__1::basic_string<wchar_t, std::__1::char_traits<wchar_t>, std::__1::allocator<wchar_t> >";
  u16string_name :=
    "std::__1::basic_string<char16_t, std::__1::char_traits<char16_t>, std::__1::allocator<char16_t> >";
  u32string_name :=
    "std::__1::basic_string<char32_t, std::__1::char_traits<char32_t>, std::__1::allocator<char32_t> >"
|}.

(** A platform whose demangler prints [std::string] under its alias. *)
Definition alias_platform : Platform := {|
  string_name := "std::string";
  wstring_name :=
    "std::basic_string<wchar_t, std::char_traits<wchar_t>, std::allocator<wchar_t> >";
  u16string_name :=
    "std::basic_string<char16_t, std::char_traits<char16_t>, std::allocator<char16_t> >";
  u32string_name :=
    "std::basic_string<char32_t, std::char_traits<char32_t>, std::allocator<char32_t> >"
|}.

(** 2015-10-24 12:34:56.789, 1.234 s after start, on the main thread; the
    frames of the call stack are rendered as [trace] on a platform with the
    names of libc++, every [mkdir] is granted unless [refused] names
    the path, and [fopen] yields the stream [file]. *)
Definition sample_env (trace : string) (refused : string -> option errno_t) (file : ptr)
  : Env := {|
  env_time_info := {| tm_year := 115; tm_mon := 9; tm_mday := 24;
                      tm_hour := 12; tm_min := 34; tm_sec := 56 |};
  env_ms_since_epoch := 1445690096789;
  env_uptime_text := "   1.234";
  env_thread_name := "main thread";
  env_thread_id := 1;
  env_now_ns := 5000000000;
  env_fmt_seconds := fun _ ns => dec (ns / 1000000000) ++ "." ++ fmt_d0 3 (ns / 1000000 mod 1000);
  env_stacktrace := fun _ => trace;
  env_platform := libcxx;
  env_fuel := 1024;
  env_mkdir_error := refused;
  env_fopen := fun _ _ => file
|}.

(** The globals as their initialisers leave them, with the threshold set to
    [v] (as [-v] on the command line does) and the registry to [callbacks]. *)
Definition initial_state (e : Env) (v : Verbosity) (callbacks : CallbackVec) : State := {|
  g_verbosity := v;
  s_file_arguments := "./app";
  s_callbacks := callbacks;
  s_fatal_handler := Some LibcAbort;
  s_strip_file_path := true;
  s_indentation := 0;
  errno := EOTHER 0;
  fs_dirs := [];
  env := e;
  events := []
|}.

(** Two callbacks of the application: [screen] takes everything up to
    [MAX], [alerts] only warnings and worse. *)
Definition screen_sink : Callback.t :=
  Callback.make "screen" (UserLog 1) 100 MAX None.
Definition alerts_sink : Callback.t :=
  Callback.make "alerts" (UserLog 2) 200 WARNING (Some (UserClose 3)).

Definition quiet_env : Env := sample_env EmptyString (fun _ => None) 7.

(** [e] on the platform [pf], with the bound [fuel]. *)
Definition on_platform (pf : Platform) (fuel : nat) (e : Env) : Env :=
  {| env_time_info := env_time_info e; env_ms_since_epoch := env_ms_since_epoch e;
     env_uptime_text := env_uptime_text e; env_thread_name := env_thread_name e;
     env_thread_id := env_thread_id e; env_now_ns := env_now_ns e;
     env_fmt_seconds := env_fmt_seconds e; env_stacktrace := env_stacktrace e;
     env_platform := pf; env_fuel := fuel;
     env_mkdir_error := env_mkdir_error e; env_fopen := env_fopen e |}.

(* ------------------------------------------------------------------------ *)
(** ** Predicates used in the statements *)

(** [s] holds neither ['/'] nor ['\\']. *)
Definition no_separator (s : string) : bool :=
  all_chars (fun c => negb (is_path_separator c)) s.

(** The test of the dispatch loop, [verbosity <= p.verbosity]. *)
Definition eligible (m : Message.t) (p : Callback.t) : bool :=
  Message.verbosity m <=? Callback.verbosity p.

(** [st] after the events [new]. *)
Definition append_events (new : list Event) (st : State) : State :=
  {| g_verbosity := g_verbosity st; s_file_arguments := s_file_arguments st;
     s_callbacks := s_callbacks st; s_fatal_handler := s_fatal_handler st;
     s_strip_file_path := s_strip_file_path st; s_indentation := s_indentation st;
     errno := errno st; fs_dirs := fs_dirs st; env := env st;
     events := (events st ++ new)%list |}.

(** The events of one invocation of a callback with [m]. *)
Definition invocation_events (h : log_handler_t) (user_data : ptr) (m : Message.t)
  : list Event :=
  EvCallback h user_data m ::
  match h with
  | FileLog => [EvFprintf (FileStream user_data) (message_line m);
                EvFflush (FileStream user_data)]
  | UserLog _ => []
  end.

(** The events of dispatching [m] to the registry [callbacks]. *)
Definition dispatch_events (m : Message.t) (callbacks : CallbackVec) : list Event :=
  flat_map (fun p => invocation_events (Callback.callback p) (Callback.user_data p) m)
           (filter (eligible m) callbacks).

(** The stream [log_message] writes a message to. *)
Definition message_stream (m : Message.t) : Stream :=
  if Message.verbosity m <=? WARNING then Stderr else Stdout.

(** The events of one accepted message: the line on its stream, the flush,
    and the dispatch to the registry. *)
Definition message_events (m : Message.t) (callbacks : CallbackVec) : list Event :=
  (EvFprintf (message_stream m) (message_line m) :: EvFflush (message_stream m)
   :: dispatch_events m callbacks)%list.

(** The callback invocations recorded in a trace, in order. *)
Fixpoint invocations (evs : list Event) : list (log_handler_t * ptr * Message.t) :=
  match evs with
  | [] => []
  | EvCallback h user_data m :: rest => (h, user_data, m) :: invocations rest
  | _ :: rest => invocations rest
  end.

(** The close hooks recorded in a trace, in order. *)
Fixpoint closings (evs : list Event) : list (close_handler_t * ptr) :=
  match evs with
  | [] => []
  | EvClose h user_data :: rest => (h, user_data) :: closings rest
  | _ :: rest => closings rest
  end.

(** The events of the call of a close hook. *)
Definition close_events (h : close_handler_t) (user_data : ptr) : list Event :=
  EvClose h user_data ::
  match h with
  | FileClose => [EvFclose user_data]
  | UserClose _ => []
  end.

(** [st'] has the globals of [st] that configure logging: only [errno],
    the file system and the trace may differ. *)
Definition same_config (st st' : State) : Prop :=
  g_verbosity st' = g_verbosity st
  /\ s_file_arguments st' = s_file_arguments st
  /\ s_callbacks st' = s_callbacks st
  /\ s_fatal_handler st' = s_fatal_handler st
  /\ s_strip_file_path st' = s_strip_file_path st
  /\ s_indentation st' = s_indentation st
  /\ env st' = env st.

(** The paths the loop of [mkpath] hands to [mkdir]: [file_path] cut before
    each ['/'] of [rest], the text at offset [off]. *)
Fixpoint intermediate_dirs_from (file_path : string) (off : nat) (rest : string)
  : list string :=
  match rest with
  | EmptyString => []
  | String c rest' =>
      if Ascii.eqb c "/"
      then take off file_path :: intermediate_dirs_from file_path (S off) rest'
      else intermediate_dirs_from file_path (S off) rest'
  end.

(** The intermediate directories of [path]: its prefixes that end before a
    ['/'] at offset 1 or later. *)
Definition intermediate_dirs (path : string) : list string :=
  intermediate_dirs_from path 1 (advance 1 path).

(** The paths handed to [mkdir] in a trace, in order. *)
Fixpoint mkdir_calls (evs : list Event) : list string :=
  match evs with
  | [] => []
  | EvMkdir path _ :: rest => path :: mkdir_calls rest
  | _ :: rest => mkdir_calls rest
  end.

(** [mkdir] of [d] does not fail, or fails because [d] exists. *)
Definition mkdir_granted (st : State) (d : string) : Prop :=
  env_mkdir_error (env st) d = None \/ env_mkdir_error (env st) d = Some EEXIST.

(** The header [add_file] writes to the stream [file]. *)
Definition file_header (st : State) (file : ptr) (verbosity : Verbosity) : list Event :=
  [ EvFprintf (FileStream file) ("arguments:       " ++ s_file_arguments st ++ nl);
    EvFprintf (FileStream file)
      ("Verbosity level: " ++ dec (Z.max (g_verbosity st) verbosity) ++ nl);
    EvFprintf (FileStream file) (PREAMBLE_EXPLAIN ++ nl);
    EvFflush (FileStream file) ].

(** [std::regex_search(s, re)]: [re] matches somewhere in [s]. *)
Fixpoint regex_search (re : regex) (s : string) : bool :=
  match match_here re s with
  | Some _ => true
  | None =>
      match s with
      | EmptyString => false
      | String _ t => regex_search re t
      end
  end.

(** No first component of [REPLACE_LIST] occurs in [s]. *)
Definition no_replace_key (pf : Platform) (s : string) : bool :=
  forallb (fun p => match find (fst p) s with None => true | Some _ => false end)
          (REPLACE_LIST pf).

(** The first character of [s] is [c]. *)
Definition head_is (c : ascii) (s : string) : bool :=
  match s with
  | EmptyString => false
  | String b _ => Ascii.eqb c b
  end.

(** ['<'] or ['>']. *)
Definition is_angle (c : ascii) : bool := Ascii.eqb c "<" || Ascii.eqb c ">".

(** Every replacement of [REPLACE_LIST] is shorter than what it replaces. *)
Definition shrinking (pf : Platform) : bool :=
  forallb (fun p => (strlen (snd p) <? strlen (fst p))%nat) (REPLACE_LIST pf).

(* ------------------------------------------------------------------------ *)
(** ** Command line *)

Definition with_verbosity (v : Verbosity) (st : State) : State :=
  {| g_verbosity := v; s_file_arguments := s_file_arguments st;
     s_callbacks := s_callbacks st; s_fatal_handler := s_fatal_handler st;
     s_strip_file_path := s_strip_file_path st; s_indentation := s_indentation st;
     errno := errno st; fs_dirs := fs_dirs st; env := env st;
     events := events st |}.

(** [std::isalpha] in the C locale. *)
Definition is_alpha (c : ascii) : bool :=
  let n := nat_of_ascii c in
  ((65 <=? n) && (n <=? 90) || (97 <=? n) && (n <=? 122))%nat.

(** The decimal digits at the start of [s], read after [acc]. *)
Fixpoint atoi_digits (s : string) (acc : Z) : Z :=
  match s with
  | EmptyString => acc
  | String c t =>
      let n := nat_of_ascii c in
      if ((48 <=? n) && (n <=? 57))%nat
      then atoi_digits t (10 * acc + Z.of_nat (n - 48))
      else acc
  end.

(** The number written at the start of [s]: white space, an optional
    sign, then digits. *)
Definition decimal_value (s : string) : Z :=
  match advance (run_length is_space s) s with
  | String "-" t => - atoi_digits t 0
  | String "+" t => atoi_digits t 0
  | t => atoi_digits t 0
  end.

Definition LONG_MAX : Z := 2 ^ 63 - 1.
Definition LONG_MIN : Z := - 2 ^ 63.

(** [strtol(s, NULL, 10)] with a [long] of 64 bits: a number out of range
    is read as [LONG_MAX] or [LONG_MIN]. *)
Definition strtol (s : string) : Z :=
  Z.max LONG_MIN (Z.min LONG_MAX (decimal_value s)).

(** [atoi(s)], which glibc defines as [(int) strtol(s, NULL, 10)]: the
    conversion to [int] keeps the low 32 bits. *)
Definition atoi (s : string) : Z := int_wrap (strtol s).

(** The text [CHECK_OP_F] hands to [log_and_abort] as [expr]:
    ["CHECK FAILED:  %s %s %s  (%s %s %s)  "]. *)
Definition check_op_info (expr_left op expr_right : string) (val_left val_right : Z)
  : string :=
  "CHECK FAILED:  " ++ expr_left ++ " " ++ op ++ " " ++ expr_right
  ++ "  (" ++ dec val_left ++ " " ++ op ++ " " ++ dec val_right ++ ")  ".

(** The loop of [parse_args] over [argv[arg_it]], ..., [argv[argc - 1]]
    ([args]); [kept] holds, last first, the arguments moved to
    [argv[1 .. arg_dest - 1]]. The result is [argv[1 .. argc - 1]] after
    the call. *)
Fixpoint parse_args_loop (argc arg_it : Z) (args kept : list string) (st : State)
  : Outcome (list string) :=
  match args with
  | [] => Returns (rev kept) st
  | cmd :: rest =>
      if starts_with "-v" cmd
         && negb (match String.get 2 cmd with Some c => is_alpha c | None => false end)
      then
        let value_str := advance 2 cmd in
        let tell (value_str : string) (st : State) : State :=
          let value_str := if head_is "=" value_str then advance 1 value_str
                           else value_str in
          with_verbosity (atoi value_str) st in
        if (strlen value_str =? 0)%nat then
          match rest with
          | [] =>
              noreturn (log_and_abort 0
                          (check_op_info "arg_it" "<" "argc" (arg_it + 1) argc)
                          __FILE__ 743 "Missing verbosiy level after -v" st)
          | value :: rest' =>
              parse_args_loop argc (arg_it + 2) rest' kept (tell value st)
          end
        else parse_args_loop argc (arg_it + 1) rest kept (tell value_str st)
      else parse_args_loop argc (arg_it + 1) rest (cmd :: kept) st
  end.

(** [static void parse_args(int& argc, char* argv[])]: the arguments left
    in [argv] afterwards. *)
Definition parse_args (argv : list string) (st : State) : Outcome (list string) :=
  let argc := Z.of_nat (List.length argv) in
  match argv with
  | [] =>
      noreturn (log_and_abort 0 (check_op_info "argc" ">" "0" argc 0)
                  __FILE__ 729 "Expected proper argc/argv" st)
  | argv0 :: args =>
      match parse_args_loop argc 1 args [] st with
      | Returns rest st => Returns (argv0 :: rest) st
      | Terminated st => Terminated st
      | Looping st => Looping st
      end
  end.

(* ------------------------------------------------------------------------ *)
(** ** Raw logging and check macros *)

(** [#define RAW_VLOG_F(verbosity, ...)
      (verbosity > loguru::g_verbosity) ? (void)0
        : loguru::raw_log(verbosity, __FILE__, __LINE__, __VA_ARGS__)] *)
Definition RAW_VLOG_F (verbosity : Verbosity) (file : string) (line : Z) (text : string)
    (st : State) : State :=
  if verbosity >? g_verbosity st then st
  else raw_log verbosity file line text st.

(** [#define RAW_LOG_F(verbosity_name, ...)
      RAW_VLOG_F(loguru::NamedVerbosity::verbosity_name, __VA_ARGS__)] *)
Definition RAW_LOG_F (verbosity_name : Verbosity) (file : string) (line : Z)
    (text : string) (st : State) : State :=
  RAW_VLOG_F verbosity_name file line text st.

(** [#define ABORT_F(...)
      loguru::log_and_abort(0, "ABORT: ", __FILE__, __LINE__, __VA_ARGS__)] *)
Definition ABORT_F (file : string) (line : Z) (text : string) (st : State)
  : Outcome Empty_set :=
  log_and_abort 0 "ABORT: " file line text st.

(** [#define CHECK_WITH_INFO_F(test, info, ...)
      LOGURU_PREDICT_TRUE((test) == true) ? (void)0
        : loguru::log_and_abort(0, "CHECK FAILED:  " info "  ", __FILE__,
                                __LINE__, ##__VA_ARGS__)]

    The message is optional: without one the call is the overload of
    [log_and_abort] that has no format. *)
Definition CHECK_WITH_INFO_F (test : bool) (info file : string) (line : Z)
    (text : option string) (st : State) : Outcome unit :=
  if test then Returns tt st
  else
    noreturn
      match text with
      | Some text => log_and_abort 0 ("CHECK FAILED:  " ++ info ++ "  ") file line text st
      | None => log_and_abort_no_message 0 ("CHECK FAILED:  " ++ info ++ "  ") file line st
      end.

(** [#define CHECK_F(test, ...) CHECK_WITH_INFO_F(test, #test, ##__VA_ARGS__)];
    [test_str] is [#test]. *)
Definition CHECK_F (test : bool) (test_str file : string) (line : Z)
    (text : option string) (st : State) : Outcome unit :=
  CHECK_WITH_INFO_F test test_str file line text st.

(** The comparison operators of [CHECK_EQ_F], [CHECK_NE_F], [CHECK_LT_F],
    [CHECK_GT_F], [CHECK_LE_F] and [CHECK_GE_F]. *)
Inductive check_op := OpEQ | OpNE | OpLT | OpGT | OpLE | OpGE.

(** [#op]. *)
Definition op_str (op : check_op) : string :=
  match op with
  | OpEQ => "==" | OpNE => "!=" | OpLT => "<" | OpGT => ">" | OpLE => "<=" | OpGE => ">="
  end.

(** [val_left op val_right] on [int] operands. *)
Definition op_holds (op : check_op) (val_left val_right : Z) : bool :=
  match op with
  | OpEQ => val_left =? val_right
  | OpNE => negb (val_left =? val_right)
  | OpLT => val_left <? val_right
  | OpGT => val_left >? val_right
  | OpLE => val_left <=? val_right
  | OpGE => val_left >=? val_right
  end.

(** [#define CHECK_OP_F(expr_left, expr_right, op, ...)] on [int] operands
    ([format_value] renders them with [%d]); [expr_left] and [expr_right]
    are the operands as written, [val_left] and [val_right] their values.
    Without a message [user_msg] is the empty string of [strprintf()]. *)
Definition CHECK_OP_F (expr_left expr_right : string) (op : check_op)
    (val_left val_right : Z) (file : string) (line : Z) (text : option string)
    (st : State) : Outcome unit :=
  if op_holds op val_left val_right then Returns tt st
  else
    let fail_info := check_op_info expr_left (op_str op) expr_right val_left val_right in
    let user_msg := match text with Some text => text | None => EmptyString end in
    noreturn (log_and_abort 0 fail_info file line user_msg st).

(* ------------------------------------------------------------------------ *)
(** ** Start-up *)

(** The functions handed to [atexit]: the address of [on_atexit]. *)
Inductive atexit_fn := OnAtexit.

(** The process beyond [State]: the global [s_argv0_filename], the
    functions registered with [atexit] (in the order of registration) and
    the environment variables [getenv] reads. *)
Record Process := {
  globals : State;
  s_argv0_filename : string;
  atexit_functions : list atexit_fn;
  environ : string -> option string
}.

Definition with_globals (st : State) (p : Process) : Process :=
  {| globals := st; s_argv0_filename := s_argv0_filename p;
     atexit_functions := atexit_functions p; environ := environ p |}.

Definition with_argv0_filename (name : string) (p : Process) : Process :=
  {| globals := globals p; s_argv0_filename := name;
     atexit_functions := atexit_functions p; environ := environ p |}.

(** [atexit(f)]. *)
Definition atexit (f : atexit_fn) (p : Process) : Process :=
  {| globals := globals p; s_argv0_filename := s_argv0_filename p;
     atexit_functions := (atexit_functions p ++ [f])%list; environ := environ p |}.

(** The outcome of a call that reads or writes the whole process: as
    [Outcome], with the process in the place of the state. *)
Inductive ProcessOutcome (A : Type) : Type :=
| Returned (a : A) (p : Process)
| Exited (p : Process)
| Stuck (p : Process).
Arguments Returned {A} a p.
Arguments Exited {A} p.
Arguments Stuck {A} p.

(** A [LOGURU_NORETURN] call inside a function of the process. *)
Definition exits {A : Type} (p : Process) (o : Outcome Empty_set) : ProcessOutcome A :=
  match o with
  | Returns e _ => match e with end
  | Terminated st => Exited (with_globals st p)
  | Looping st => Stuck (with_globals st p)
  end.

Definition with_file_arguments (arguments : string) (st : State) : State :=
  {| g_verbosity := g_verbosity st; s_file_arguments := arguments;
     s_callbacks := s_callbacks st; s_fatal_handler := s_fatal_handler st;
     s_strip_file_path := s_strip_file_path st; s_indentation := s_indentation st;
     errno := errno st; fs_dirs := fs_dirs st; env := env st;
     events := events st |}.

Definition with_env (e : Env) (st : State) : State :=
  {| g_verbosity := g_verbosity st; s_file_arguments := s_file_arguments st;
     s_callbacks := s_callbacks st; s_fatal_handler := s_fatal_handler st;
     s_strip_file_path := s_strip_file_path st; s_indentation := s_indentation st;
     errno := errno st; fs_dirs := fs_dirs st; env := e;
     events := events st |}.

Definition with_thread_name (name : string) (e : Env) : Env :=
  {| env_time_info := env_time_info e; env_ms_since_epoch := env_ms_since_epoch e;
     env_uptime_text := env_uptime_text e; env_thread_name := name;
     env_thread_id := env_thread_id e; env_now_ns := env_now_ns e;
     env_fmt_seconds := env_fmt_seconds e; env_stacktrace := env_stacktrace e;
     env_platform := env_platform e; env_fuel := env_fuel e;
     env_mkdir_error := env_mkdir_error e; env_fopen := env_fopen e |}.

(** [pthread_setname_np(pthread_self(), name)]: a name of at most 15
    characters becomes the name of the thread; a longer one is refused
    ([ERANGE]) and the name is kept. *)
Definition pthread_setname_np (name : string) (st : State) : State :=
  if (strlen name <=? 15)%nat then with_env (with_thread_name name (env st)) st
  else st.

(** [void set_thread_name(const char* name)]. *)
Definition set_thread_name (name : string) (st : State) : State :=
  pthread_setname_np name st.

(** [static void on_atexit()]. *)
Definition on_atexit (st : State) : State :=
  LOG_F INFO __FILE__ 777 "atexit" st.

(** The loop of [init] that fills [s_file_arguments],
    [for (int i = 0; i < argc; ++i)], over [argv[i]], ..., [argv[argc - 1]]
    ([args]). *)
Fixpoint init_arguments (argc i : Z) (args : list string) (s_file_arguments : string)
  : string :=
  match args with
  | [] => s_file_arguments
  | arg :: rest =>
      let s_file_arguments := s_file_arguments ++ arg in
      let s_file_arguments :=
        if i + 1 <? argc then s_file_arguments ++ " " else s_file_arguments in
      init_arguments argc (i + 1) rest s_file_arguments
  end.

(** [void init(int& argc, char* argv[])] for [argc >= 1] (the first
    statement reads [argv[0]]); the result is [argv] afterwards. *)
Definition init (argv0 : string) (args : list string) (p : Process)
  : ProcessOutcome (list string) :=
  let argv := argv0 :: args in
  let argc := Z.of_nat (List.length argv) in
  let p := with_argv0_filename (filename argv0) p in
  let st := with_file_arguments (init_arguments argc 0 argv EmptyString) (globals p) in
  match parse_args argv st with
  | Terminated st => Exited (with_globals st p)
  | Looping st => Stuck (with_globals st p)
  | Returns argv st =>
      let old_thread_name := env_thread_name (env st) in
      let st :=
        if (strlen old_thread_name =? 0)%nat then pthread_setname_np "main thread" st
        else st in
      let st := fflush Stdout (fprintf Stdout (PREAMBLE_EXPLAIN ++ nl) st) in
      let st := LOG_F INFO __FILE__ 809 ("arguments:       " ++ s_file_arguments st) st in
      let st := LOG_F INFO __FILE__ 810 ("Verbosity level: " ++ dec (g_verbosity st)) st in
      let st := LOG_F INFO __FILE__ 811 "-----------------------------------" st in
      Returned argv (atexit OnAtexit (with_globals st p))
  end.

(* ------------------------------------------------------------------------ *)
(** ** Suggested log path *)

(** [strncat(dest, src, n)]: at most [n] characters of [src] are appended. *)
Definition strncat (dest src : string) (n : nat) : string :=
  dest ++ take n src.

(** The text [write_date_time] renders,
    ["%04d%02d%02d_%02d%02d%02d.%03ld"]. *)
Definition date_time_text (st : State) : string :=
  let time_info := env_time_info (env st) in
  let ms_since_epoch := env_ms_since_epoch (env st) in
  fmt_d0 4 (1900 + tm_year time_info) ++ fmt_d0 2 (1 + tm_mon time_info)
  ++ fmt_d0 2 (tm_mday time_info) ++ "_"
  ++ fmt_d0 2 (tm_hour time_info) ++ fmt_d0 2 (tm_min time_info)
  ++ fmt_d0 2 (tm_sec time_info) ++ "." ++ fmt_d0 3 (Z.rem ms_since_epoch 1000).

(** [static void write_date_time(char* buff, unsigned buff_size)]: the
    content of [buff] afterwards. *)
Definition write_date_time (buff_size : nat) (st : State) : string :=
  snprintf buff_size (date_time_text st).

(** [const char* home_dir()], the branch for systems other than Windows. *)
Definition home_dir (p : Process) : ProcessOutcome string :=
  match environ p "HOME" with
  | Some home => Returned home p
  | None =>
      exits p (log_and_abort 0 "CHECK FAILED:  home != nullptr  " __FILE__ 836
                 "Missing HOME" (globals p))
  end.

(** [buff[n - 1] != '/'] for [n = strlen(buff)], [n != 0]. *)
Definition ends_in_slash (buff : string) : bool :=
  match last_char buff with
  | Some c => Ascii.eqb c "/"
  | None => false
  end.

(** [void suggest_log_path(const char* prefix, char* buff,
    unsigned buff_size)] for [buff_size >= 2]: the content of [buff]
    afterwards. Sizes are natural numbers; with [buff_size >= 2] none of
    the subtractions of the source goes below zero. *)
Definition suggest_log_path (prefix : string) (buff_size : nat) (p : Process)
  : ProcessOutcome string :=
  let expanded :=
    if head_is "~" prefix then
      match home_dir p with
      | Returned home p => Returned (snprintf (buff_size - 1) (home ++ advance 1 prefix)) p
      | Exited p => Exited p
      | Stuck p => Stuck p
      end
    else Returned (snprintf (buff_size - 1) prefix) p in
  match expanded with
  | Exited p => Exited p
  | Stuck p => Stuck p
  | Returned buff p =>
      let n := strlen buff in
      let terminated :=
        if negb (n =? 0)%nat && negb (ends_in_slash buff) then
          if (n + 2 <? buff_size)%nat then Returned (buff ++ "/") p
          else
            exits p (log_and_abort 0 "CHECK FAILED:  n + 2 < buff_size  " __FILE__ 853
                       "Filename buffer too small" (globals p))
        else Returned buff p in
      match terminated with
      | Exited p => Exited p
      | Stuck p => Stuck p
      | Returned buff p =>
          let buff := strncat buff (s_argv0_filename p) (buff_size - strlen buff - 1) in
          let buff := strncat buff "/" (buff_size - strlen buff - 1) in
          let buff := buff ++ write_date_time (buff_size - strlen buff) (globals p) in
          let buff := strncat buff ".log" (buff_size - strlen buff - 1) in
          Returned buff p
      end
  end.

(* ------------------------------------------------------------------------ *)
(** ** Predicates on command lines *)

(** The test of [parse_args] on an argument:
    [strncmp(cmd, "-v", 2) == 0 && !std::isalpha(cmd[2])]. *)
Definition is_verbosity_option (cmd : string) : bool :=
  starts_with "-v" cmd
  && negb (match String.get 2 cmd with Some c => is_alpha c | None => false end).

(** [l] is [l'] with some of its elements left out. *)
Inductive subsequence {A : Type} : list A -> list A -> Prop :=
| subsequence_nil : subsequence [] []
| subsequence_keep (x : A) (l l' : list A) :
    subsequence l l' -> subsequence (x :: l) (x :: l')
| subsequence_drop (x : A) (l l' : list A) :
    subsequence l l' -> subsequence l (x :: l').

(** [st'] is [st] but for the threshold [g_verbosity]. *)
Definition same_but_verbosity (st st' : State) : Prop :=
  st' = with_verbosity (g_verbosity st') st.

(** The events of a call [log_and_abort(skip, expr, file, line, ...)] in
    [st] once [stacktrace] has returned [trace]: the stack trace as one
    ERROR message when its text is not empty and [ERROR] passes the test of
    [LOG_F], the FATAL message, the call of the fatal handler when one is
    set, and [abort]. *)
Definition abort_events (st : State) (trace expr file : string) (line : Z)
    (text : string) : list Event :=
  ((if (strlen trace =? 0)%nat || (g_verbosity st <? ERROR)
    then []
    else message_events
           (make_message st ERROR __FILE__ 1207 "" ("Stack trace:" ++ nl ++ trace))
           (s_callbacks st))
   ++ message_events (make_message st FATAL file line expr text) (s_callbacks st)
   ++ match s_fatal_handler st with
      | Some h => [EvFatalHandler h]
      | None => []
      end
   ++ [EvAbort])%list.

(** The outcome of a call [log_and_abort(skip, expr, file, line, ...)] in
    [st], in a context of type [A]: the process terminates after the events
    of the fatal path when [stacktrace] returns a text, and is still in the
    prettifier, with nothing printed, otherwise. *)
Definition fatal_outcome {A : Type} (st : State) (skip : Z) (expr file : string)
    (line : Z) (text : string) : Outcome A :=
  match stacktrace st (skip + 2) with
  | Some trace => Terminated (append_events (abort_events st trace expr file line text) st)
  | None => Looping st
  end.

(** The directory [suggest_log_path] starts from: [prefix], with a
    leading ['~'] replaced by the value of [HOME]; [None] when [HOME] is
    needed and not set. *)
Definition expanded_prefix (p : Process) (prefix : string) : option string :=
  if head_is "~" prefix then
    match environ p "HOME" with
    | Some home => Some (home ++ advance 1 prefix)
    | None => None
    end
  else Some prefix.

(** [dir] with a ['/'] after it, unless it is empty or ends in one. *)
Definition with_slash (dir : string) : string :=
  if (strlen dir =? 0)%nat || ends_in_slash dir then dir else dir ++ "/".


(* ======================================================================== *)
(** * Properties *)

(** ** Strings *)

Lemma append_nil_r (s : string) : s ++ "" = s.
Proof. induction s as [|c s IH]; simpl; [reflexivity | now rewrite IH]. Qed.

Lemma append_assoc (a b c : string) : (a ++ b) ++ c = a ++ (b ++ c).
Proof. induction a as [|x a IH]; simpl; [reflexivity | now rewrite IH]. Qed.

Lemma strlen_append (a b : string) : strlen (a ++ b) = (strlen a + strlen b)%nat.
Proof. unfold strlen. induction a as [|x a IH]; simpl; [reflexivity | now rewrite IH]. Qed.

Lemma advance_append (a b : string) : advance (strlen a) (a ++ b) = b.
Proof. induction a as [|x a IH]; simpl; [reflexivity | exact IH]. Qed.

Lemma take_append (a b : string) : take (strlen a) (a ++ b) = a.
Proof. induction a as [|x a IH]; simpl; [reflexivity | now rewrite IH]. Qed.

Lemma take_advance (n : nat) (s : string) : take n s ++ advance n s = s.
Proof.
  revert s; induction n as [|n IH]; intros s; simpl; [reflexivity|].
  destruct s as [|c s]; simpl; [reflexivity | now rewrite IH].
Qed.

Lemma take_all (n : nat) (s : string) : (strlen s <= n)%nat -> take n s = s.
Proof.
  revert n; induction s as [|c s IH]; intros n H; [now destruct n|].
  destruct n as [|n]; [simpl in H; lia|]. simpl. rewrite IH; [reflexivity|].
  unfold strlen in *. simpl in H. lia.
Qed.

Lemma advance_add (n m : nat) (s : string) : advance (n + m) s = advance m (advance n s).
Proof.
  revert s; induction n as [|n IH]; intros s; simpl; [reflexivity|].
  destruct s as [|c s]; [now destruct m | apply IH].
Qed.

Lemma all_chars_append (p : ascii -> bool) (a b : string) :
  all_chars p (a ++ b) = all_chars p a && all_chars p b.
Proof. induction a as [|x a IH]; simpl; [reflexivity | now rewrite IH, andb_assoc]. Qed.

Lemma last_char_append_one (a : string) (c : ascii) :
  last_char (a ++ String c "") = Some c.
Proof.
  induction a as [|x a IH]; simpl; [reflexivity|].
  rewrite IH. destruct (a ++ String c ""); [discriminate IH | reflexivity].
Qed.

(** ** [filename] *)

(** What the walk of [filename] keeps invariant: the text before [path]
    is empty or ends in a separator, and no separator lies between [path]
    and [ptr]. *)
Lemma filename_loop_spec (ptr before mid : string) :
  no_separator mid = true ->
  (before = "" \/ exists c, last_char before = Some c /\ is_path_separator c = true) ->
  exists before',
    before ++ mid ++ ptr = before' ++ filename_loop (mid ++ ptr) ptr
    /\ no_separator (filename_loop (mid ++ ptr) ptr) = true
    /\ (before' = "" \/ exists c, last_char before' = Some c /\ is_path_separator c = true).
Proof.
  revert before mid; induction ptr as [|c rest IH]; intros before mid Hmid Hbefore; simpl.
  - exists before. rewrite append_nil_r. auto.
  - destruct (is_path_separator c) eqn:Hc.
    + destruct (IH ((before ++ mid) ++ String c "") "") as (b' & E & N & L).
      * reflexivity.
      * right. exists c. split; [apply last_char_append_one | exact Hc].
      * exists b'. simpl in E, N. repeat split; auto.
        rewrite <- E. rewrite !append_assoc. reflexivity.
    + destruct (IH before (mid ++ String c "")) as (b' & E & N & L).
      * unfold no_separator in *. rewrite all_chars_append, Hmid. simpl. now rewrite Hc.
      * exact Hbefore.
      * rewrite !append_assoc in E, N. simpl in E, N.
        exists b'. repeat split; auto.
Qed.

Lemma filename_loop_no_separator (path ptr : string) :
  no_separator ptr = true -> filename_loop path ptr = path.
Proof.
  revert path; induction ptr as [|c rest IH]; intros path H; simpl; [reflexivity|].
  unfold no_separator in H; simpl in H. apply andb_prop in H as [Hc Hr].
  apply negb_true_iff in Hc. rewrite Hc. now apply IH.
Qed.

Lemma filename_loop_ends_in_separator (ptr path : string) (c : ascii) :
  last_char ptr = Some c -> is_path_separator c = true -> filename_loop path ptr = "".
Proof.
  revert path; induction ptr as [|x rest IH]; intros path Hl Hc; [discriminate|].
  simpl. destruct rest as [|y rest'].
  - simpl in Hl. injection Hl as ->. now rewrite Hc.
  - assert (Hl' : last_char (String y rest') = Some c) by exact Hl.
    destruct (is_path_separator x); now apply IH.
Qed.

(** C10. [filename(path)] is the suffix of [path] that starts right after
    its last ['/'] or ['\\']: [path] splits into [before ++ filename path]
    where [before] is empty or ends in a separator and the result holds no
    separator; the result is therefore a pointer into [path] (never null);
    a path without separator is returned whole, and a path that ends in a
    separator yields the empty string. *)
Theorem filename_suffix_after_last_separator (path : string) :
  (exists before,
      path = before ++ filename path
      /\ filename path = advance (strlen before) path
      /\ no_separator (filename path) = true
      /\ (before = "" \/ exists c, last_char before = Some c /\ is_path_separator c = true))
  /\ (no_separator path = true -> filename path = path)
  /\ (forall c, last_char path = Some c -> is_path_separator c = true ->
                filename path = "").
Proof.
  split; [|split].
  - destruct (filename_loop_spec path "" "") as (b & E & N & L); auto.
    simpl in E, N. exists b. fold (filename path) in E, N.
    repeat split; auto.
    rewrite E at 2. now rewrite advance_append.
  - intros H. now apply filename_loop_no_separator.
  - intros c Hl Hc. unfold filename. eapply filename_loop_ends_in_separator; eauto.
Qed.

(** ** [indentation] *)

Lemma indentation_buff_markers : indentation_buff = replicate 100 ".   ".
Proof. reflexivity. Qed.

Lemma advance_markers (k m : nat) :
  advance (4 * k) (replicate (k + m) ".   ") = replicate m ".   ".
Proof.
  induction k as [|k IH]; [reflexivity|].
  replace (4 * S k)%nat with (4 + 4 * k)%nat by lia.
  rewrite advance_add. simpl (replicate _ _). simpl (advance 4 _). exact IH.
Qed.

(** C9. For every depth [d >= 0], [indentation d] is the marker [".   "]
    written [min d 100] times; every depth from 100 on is rendered as
    depth 100. *)
Theorem indentation_capped_markers (d : Z) :
  0 <= d ->
  indentation d = replicate (Z.to_nat (Z.min d 100)) ".   "
  /\ strlen (indentation d) = (4 * Z.to_nat (Z.min d 100))%nat
  /\ (100 <= d -> indentation d = indentation 100).
Proof.
  intros Hd.
  assert (E : indentation d = replicate (Z.to_nat (Z.min d 100)) ".   ").
  { unfold indentation. rewrite indentation_buff_markers.
    set (n := Z.to_nat (Z.min d 100)).
    assert (Hn : (n <= 100)%nat) by (unfold n; lia).
    replace (Z.to_nat (4 * (100 - Z.min d 100))) with (4 * (100 - n))%nat by (unfold n; lia).
    replace 100%nat with ((100 - n) + n)%nat at 2 by lia.
    apply advance_markers. }
  split; [exact E|]. split.
  - rewrite E. generalize (Z.to_nat (Z.min d 100)). intros n.
    induction n as [|n IH]; [reflexivity|].
    change (replicate (S n) ".   ") with (".   " ++ replicate n ".   ").
    rewrite strlen_append, IH. simpl strlen. lia.
  - intros H. rewrite E. replace (Z.min d 100) with 100 by lia. reflexivity.
Qed.

Lemma indentation_capped_markers_witness :
  indentation 2 = ".   .   " /\ indentation 250 = indentation 100.
Proof.
  split.
  - exact (proj1 (indentation_capped_markers 2 ltac:(lia))).
  - apply (proj2 (proj2 (indentation_capped_markers 250 ltac:(lia)))). lia.
Defined.

(** ** States and traces *)

Lemma append_events_nil (st : State) : append_events [] st = st.
Proof. destruct st; unfold append_events; simpl. now rewrite app_nil_r. Qed.

Lemma append_events_app (l1 l2 : list Event) (st : State) :
  append_events l2 (append_events l1 st) = append_events (l1 ++ l2) st.
Proof. unfold append_events; simpl. now rewrite app_assoc. Qed.

Lemma emit_append_events (e : Event) (st : State) : emit e st = append_events [e] st.
Proof. reflexivity. Qed.

Lemma invocations_app (l1 l2 : list Event) :
  invocations (l1 ++ l2) = (invocations l1 ++ invocations l2)%list.
Proof.
  induction l1 as [|e l1 IH]; [reflexivity|].
  destruct e; simpl; rewrite ?IH; reflexivity.
Qed.

Lemma closings_app (l1 l2 : list Event) :
  closings (l1 ++ l2) = (closings l1 ++ closings l2)%list.
Proof.
  induction l1 as [|e l1 IH]; [reflexivity|].
  destruct e; simpl; rewrite ?IH; reflexivity.
Qed.

(** ** Dispatch *)

Lemma call_log_handler_events (h : log_handler_t) (user_data : ptr) (m : Message.t)
    (st : State) :
  call_log_handler h user_data m st = append_events (invocation_events h user_data m) st.
Proof.
  unfold call_log_handler, invocation_events, file_log, fflush, fprintf.
  destruct h; rewrite !emit_append_events, ?append_events_app; reflexivity.
Qed.

Lemma call_close_handler_events (h : close_handler_t) (user_data : ptr) (st : State) :
  call_close_handler h user_data st = append_events (close_events h user_data) st.
Proof.
  unfold call_close_handler, close_events, file_close, fclose.
  destruct h; rewrite !emit_append_events, ?append_events_app; reflexivity.
Qed.

Lemma log_message_loop_events (m : Message.t) (callbacks : CallbackVec) (st : State) :
  log_message_loop (Message.verbosity m) m callbacks st
  = append_events (dispatch_events m callbacks) st.
Proof.
  revert st; induction callbacks as [|p rest IH]; intros st.
  - simpl. now rewrite append_events_nil.
  - simpl. unfold dispatch_events. simpl. unfold eligible at 1.
    destruct (Message.verbosity m <=? Callback.verbosity p).
    + rewrite IH, call_log_handler_events, append_events_app. reflexivity.
    + apply IH.
Qed.

Lemma log_message_events (m : Message.t) (st : State) :
  log_message m st = append_events (message_events m (s_callbacks st)) st.
Proof.
  unfold log_message, message_events, fflush, fprintf.
  rewrite log_message_loop_events, !emit_append_events, !append_events_app.
  reflexivity.
Qed.

Lemma invocations_dispatch (m : Message.t) (callbacks : CallbackVec) :
  invocations (dispatch_events m callbacks)
  = map (fun p => (Callback.callback p, Callback.user_data p, m))
        (filter (eligible m) callbacks).
Proof.
  unfold dispatch_events.
  induction (filter (eligible m) callbacks) as [|p l IH]; [reflexivity|].
  cbn [flat_map map]. rewrite invocations_app, IH.
  unfold invocation_events. destruct (Callback.callback p); reflexivity.
Qed.

(** C3. For every message handed to [log_message] (every accepted message
    goes there: [log] builds it and calls [log_message]) and every state
    of the registry, the callback invocations the call adds to the trace
    are exactly one per registered sink whose cutoff [p.verbosity]
    satisfies [verbosity <= p.verbosity], each with that sink's callback,
    its own [user_data] and the message, in the order of the registry;
    sinks with a lower cutoff are not invoked and the registry is left as
    it was. [add_callback] appends the new sink at the end. *)
Theorem log_message_invokes_eligible_sinks_in_order (m : Message.t) (st : State) :
  (exists new,
      events (log_message m st) = (events st ++ new)%list
      /\ invocations new
         = map (fun p => (Callback.callback p, Callback.user_data p, m))
               (filter (fun p => Message.verbosity m <=? Callback.verbosity p)
                       (s_callbacks st)))
  /\ s_callbacks (log_message m st) = s_callbacks st
  /\ (forall verbosity file line text,
         log verbosity file line text st
         = log_message (make_message st verbosity file line "" text) st)
  /\ (forall id callback user_data verbosity on_close,
         s_callbacks (add_callback id callback user_data verbosity on_close st)
         = (s_callbacks st ++ [Callback.make id callback user_data verbosity on_close])%list).
Proof.
  rewrite log_message_events. repeat split.
  exists (message_events m (s_callbacks st)). split; [reflexivity|].
  unfold message_events. simpl invocations. apply invocations_dispatch.
Qed.

(** ** The severity filter *)

Lemma VLOG_F_accepted (s : Verbosity) (file : string) (line : Z) (text : string)
    (st : State) :
  s <= g_verbosity st -> VLOG_F s file line text st = log s file line text st.
Proof.
  intros H. unfold VLOG_F. destruct (Z.gtb_spec s (g_verbosity st)); [lia | reflexivity].
Qed.

Lemma VLOG_F_rejected (s : Verbosity) (file : string) (line : Z) (text : string)
    (st : State) :
  g_verbosity st < s -> VLOG_F s file line text st = st.
Proof.
  intros H. unfold VLOG_F. destruct (Z.gtb_spec s (g_verbosity st)); [reflexivity | lia].
Qed.

(** X1. The test of the logging macros lets a severity pass exactly when it
    is at most [g_verbosity]; a call that passes is [log], which prints the
    message and dispatches it to the registry; a call that does not leaves
    the state, trace included, untouched. In particular the negative
    severities pass whenever the threshold is at least [WARNING]. *)
Theorem VLOG_F_threshold (st : State) (s : Verbosity) (file : string) (line : Z)
    (text : string) :
  is_enabled st s = (s <=? g_verbosity st)
  /\ (s <= g_verbosity st ->
      VLOG_F s file line text st
      = append_events
          (message_events (make_message st s file line "" text) (s_callbacks st)) st)
  /\ (g_verbosity st < s -> VLOG_F s file line text st = st)
  /\ (s < 0 -> WARNING <= g_verbosity st ->
      VLOG_F s file line text st = log s file line text st).
Proof.
  split; [|split; [|split]].
  - unfold is_enabled.
    destruct (Z.gtb_spec s (g_verbosity st)); destruct (Z.leb_spec s (g_verbosity st));
      try reflexivity; lia.
  - intros H. rewrite VLOG_F_accepted by exact H.
    unfold log, log_to_everywhere_v, log_to_everywhere. apply log_message_events.
  - apply VLOG_F_rejected.
  - intros H1 H2. apply VLOG_F_accepted. unfold WARNING in H2. lia.
Qed.

Lemma VLOG_F_threshold_witness :
  let st := initial_state quiet_env 1 [screen_sink] in
  events (VLOG_F 1 "main.cpp" 7 "verbose detail" st)
  = message_events (make_message st 1 "main.cpp" 7 "" "verbose detail") [screen_sink]
  /\ VLOG_F 2 "main.cpp" 8 "more detail" st = st.
Proof.
  intros st. split.
  - rewrite (proj1 (proj2 (VLOG_F_threshold st 1 "main.cpp" 7 "verbose detail"))).
    + reflexivity.
    + vm_compute. discriminate.
  - apply (VLOG_F_threshold st 2 "main.cpp" 8 "more detail"). reflexivity.
Defined.

(** The command line [app -v -2] leaves the threshold at [-2] (and [-v=-3]
    at [-3]): [parse_args] stores what [atoi] reads, whatever its sign. *)
Lemma command_line_sets_negative_threshold (st : State) :
  parse_args ["./app"; "-v"; "-2"; "input.txt"] st
  = Returns ["./app"; "input.txt"] (with_verbosity (-2) st)
  /\ parse_args ["./app"; "-v=-3"] st = Returns ["./app"] (with_verbosity (-3) st).
Proof. split; reflexivity. Qed.

(** C1 (the code at the failing input). With the threshold at [-2], as
    [-v -2] on the command line sets it, a [LOG_F(WARNING, ...)] call is not
    enabled and changes nothing: no line is printed and the registered sink
    is not invoked, although [WARNING] is negative. *)
Theorem VLOG_F_drops_WARNING_below_threshold :
  let st := initial_state quiet_env (-2) [screen_sink] in
  is_enabled st WARNING = false
  /\ VLOG_F WARNING "main.cpp" 7 "disk almost full" st = st
  /\ events (VLOG_F WARNING "main.cpp" 7 "disk almost full" st) = [].
Proof. repeat split. Qed.

Lemma log_events (verbosity : Verbosity) (file : string) (line : Z) (text : string)
    (st : State) :
  log verbosity file line text st
  = append_events
      (message_events (make_message st verbosity file line "" text) (s_callbacks st)) st.
Proof. unfold log, log_to_everywhere_v, log_to_everywhere. apply log_message_events. Qed.

Lemma log_to_everywhere_events (verbosity : Verbosity) (file : string) (line : Z)
    (prefix text : string) (st : State) :
  log_to_everywhere verbosity file line prefix text st
  = append_events
      (message_events (make_message st verbosity file line prefix text) (s_callbacks st)) st.
Proof. unfold log_to_everywhere. apply log_message_events. Qed.

Lemma LOG_F_accepted (s : Verbosity) (file : string) (line : Z) (text : string)
    (st : State) :
  s <= g_verbosity st ->
  LOG_F s file line text st
  = append_events (message_events (make_message st s file line "" text) (s_callbacks st)) st.
Proof.
  intros H. unfold LOG_F. rewrite VLOG_F_accepted by exact H.
  apply log_events.
Qed.

Lemma LOG_F_rejected (s : Verbosity) (file : string) (line : Z) (text : string)
    (st : State) :
  g_verbosity st < s -> LOG_F s file line text st = st.
Proof. intros H. unfold LOG_F. now apply VLOG_F_rejected. Qed.

(** ** Removal from the registry *)

Lemma find_if_first {A : Type} (pred : A -> bool) (before after : list A) (c : A) :
  (forall p, In p before -> pred p = false) -> pred c = true ->
  find_if pred (before ++ c :: after)%list = List.length before.
Proof.
  intros Hb Hc. induction before as [|x before IH]; simpl.
  - now rewrite Hc.
  - rewrite (Hb x (or_introl eq_refl)). f_equal. apply IH.
    intros p Hp. apply Hb. now right.
Qed.

Lemma find_if_end {A : Type} (pred : A -> bool) (v : list A) :
  (forall p, In p v -> pred p = false) -> find_if pred v = List.length v.
Proof.
  intros H. induction v as [|x v IH]; simpl; [reflexivity|].
  rewrite (H x (or_introl eq_refl)). f_equal. apply IH.
  intros p Hp. apply H. now right.
Qed.

(** A vector either has a first element satisfying [pred] or none at all. *)
Lemma first_match {A : Type} (pred : A -> bool) (v : list A) :
  (exists before c after,
      v = (before ++ c :: after)%list /\ pred c = true
      /\ forall p, In p before -> pred p = false)
  \/ (forall p, In p v -> pred p = false).
Proof.
  induction v as [|x v IH].
  - right. intros p [].
  - destruct (pred x) eqn:Hx.
    + left. exists [], x, v. repeat split; auto. intros p [].
    + destruct IH as [(b & c & a & E & Hc & Hb) | Hn].
      * left. exists (x :: b), c, a. subst v. repeat split; auto.
        intros p [<- | Hp]; auto.
      * right. intros p [<- | Hp]; auto.
Qed.

Lemma erase_middle {A : Type} (before after : list A) (c : A) :
  erase (List.length before) (before ++ c :: after)%list = (before ++ after)%list.
Proof.
  induction before as [|x before IH]; [reflexivity|].
  unfold erase in *. simpl. f_equal. exact IH.
Qed.

(** X2. [remove_callback(id)] on every registry: when an entry has the id, the
    first such entry is the one erased, its close hook (if it has one) is
    called with its [user_data], and nothing else changes; when none has,
    the registry is kept and the call is [LOG_F(ERROR, "Failed to locate
    callback with id '%s'", id)], a dispatched ERROR message whenever
    [ERROR <= g_verbosity]. *)
Theorem remove_callback_first_match (id : string) (st : State) :
  (exists before c after,
      s_callbacks st = (before ++ c :: after)%list
      /\ Callback.id c = id
      /\ (forall p, In p before -> Callback.id p <> id)
      /\ remove_callback id st
         = with_callbacks (before ++ after)%list
             (append_events
                match Callback.close c with
                | Some h => close_events h (Callback.user_data c)
                | None => []
                end st))
  \/ ((forall p, In p (s_callbacks st) -> Callback.id p <> id)
      /\ s_callbacks (remove_callback id st) = s_callbacks st
      /\ closings (events (remove_callback id st)) = closings (events st)
      /\ remove_callback id st
         = LOG_F ERROR __FILE__ 941 ("Failed to locate callback with id '" ++ id ++ "'") st
      /\ (ERROR <= g_verbosity st ->
          remove_callback id st
          = append_events
              (message_events
                 (make_message st ERROR __FILE__ 941 ""
                    ("Failed to locate callback with id '" ++ id ++ "'"))
                 (s_callbacks st)) st)).
Proof.
  destruct (first_match (fun c => String.eqb (Callback.id c) id) (s_callbacks st))
    as [(b & c & a & E & Hc & Hb) | Hn].
  - left. exists b, c, a. apply String.eqb_eq in Hc.
    repeat split; auto.
    + intros p Hp. apply String.eqb_neq. now apply Hb.
    + unfold remove_callback. rewrite E.
      rewrite find_if_first; [| exact Hb | now apply String.eqb_eq].
      rewrite nth_error_app2, Nat.sub_diag by lia. cbn [nth_error].
      destruct (Callback.close c) as [h|].
      * rewrite call_close_handler_events. cbn [s_callbacks append_events].
        rewrite E, erase_middle. reflexivity.
      * rewrite E, erase_middle, append_events_nil. reflexivity.
  - right.
    assert (R : remove_callback id st
                = LOG_F ERROR __FILE__ 941
                    ("Failed to locate callback with id '" ++ id ++ "'") st).
    { unfold remove_callback. rewrite find_if_end by exact Hn.
      now rewrite (proj2 (nth_error_None _ _) (Nat.le_refl _)). }
    split; [intros p Hp; apply String.eqb_neq; now apply Hn|].
    rewrite R.
    destruct (Z_le_gt_dec ERROR (g_verbosity st)) as [Hv|Hv].
    + rewrite LOG_F_accepted by exact Hv. simpl. repeat split; auto.
      rewrite closings_app. unfold message_events. simpl closings.
      unfold dispatch_events.
      induction (filter _ (s_callbacks st)) as [|p l IH]; simpl; [now rewrite app_nil_r|].
      rewrite closings_app. unfold invocation_events at 1.
      destruct (Callback.callback p); simpl; exact IH.
    + rewrite LOG_F_rejected by lia. repeat split; auto. intros; lia.
Qed.

(** C4 (the code at the failing input). With the threshold at [-3] the
    removal of an id that was never registered does nothing at all: the
    registry is kept, but no ERROR message is printed or dispatched. *)
Theorem remove_callback_unknown_id_silent_below_ERROR :
  let st := initial_state quiet_env (-3) [screen_sink] in
  remove_callback "nope" st = st
  /\ events (remove_callback "nope" st) = [].
Proof. split; reflexivity. Qed.

(** ** Fatal path *)

(** [log_and_abort] once [stacktrace] has returned [trace], at any
    threshold: the stack trace is one ERROR message when its text is not
    empty and [ERROR] passes the test of [LOG_F]; the FATAL message, the call
    of the fatal handler and [abort] follow whatever the threshold. *)
Lemma log_and_abort_trace (skip : Z) (expr file : string) (line : Z) (text : string)
    (st : State) (trace : string) :
  stacktrace st (skip + 2) = Some trace ->
  log_and_abort skip expr file line text st
  = Terminated (append_events (abort_events st trace expr file line text) st).
Proof.
  intros Ht. unfold log_and_abort, abort_events. rewrite Ht.
  set (trace_events :=
         if (strlen trace =? 0)%nat || (g_verbosity st <? ERROR) then []
         else message_events
                (make_message st ERROR __FILE__ 1207 "" ("Stack trace:" ++ nl ++ trace))
                (s_callbacks st)).
  assert (E : (if negb (strlen trace =? 0)%nat
               then LOG_F ERROR __FILE__ 1207 ("Stack trace:" ++ nl ++ trace) st
               else st) = append_events trace_events st).
  { unfold trace_events. destruct (strlen trace =? 0)%nat; cbn [negb orb].
    - now rewrite append_events_nil.
    - destruct (Z.ltb_spec (g_verbosity st) ERROR) as [Hv|Hv].
      + rewrite LOG_F_rejected by exact Hv. now rewrite append_events_nil.
      + now apply LOG_F_accepted. }
  rewrite E. unfold log_to_everywhere_v. rewrite log_to_everywhere_events.
  rewrite append_events_app.
  change (make_message (append_events trace_events st)) with (make_message st).
  change (s_callbacks (append_events trace_events st)) with (s_callbacks st).
  change (s_fatal_handler (append_events (trace_events ++ _)%list st))
    with (s_fatal_handler st).
  destruct (s_fatal_handler st) as [[|fn]|]; unfold call_fatal_handler, abort;
    rewrite !emit_append_events, !append_events_app, <- ?app_assoc; reflexivity.
Qed.

(** [log_and_abort] seen from its caller. *)
Lemma log_and_abort_outcome (skip : Z) (expr file : string) (line : Z) (text : string)
    (st : State) :
  log_and_abort skip expr file line text st = fatal_outcome st skip expr file line text.
Proof.
  unfold fatal_outcome. destruct (stacktrace st (skip + 2)) as [trace|] eqn:E.
  - now apply log_and_abort_trace.
  - unfold log_and_abort. now rewrite E.
Qed.

(** C2 (the code at the failing input). With the threshold at [-3] and a
    non-empty stack trace, [log_and_abort] prints and dispatches the FATAL
    message only: the stack trace is not dispatched at ERROR severity. *)
Theorem log_and_abort_drops_trace_below_ERROR :
  let st := initial_state (sample_env "0   0x1 main + 12" (fun _ => None) 7) (-3)
              [screen_sink] in
  let fatal := make_message st FATAL "main.cpp" 12 "CHECK FAILED:  x != nullptr  "
                 "x was null" in
  stacktrace st 2 = Some "0   0x1 main + 12"
  /\ log_and_abort 0 "CHECK FAILED:  x != nullptr  " "main.cpp" 12 "x was null" st
     = Terminated
         (append_events
            [EvFprintf Stderr (message_line fatal); EvFflush Stderr;
             EvCallback (UserLog 1) 100 fatal; EvFatalHandler LibcAbort; EvAbort] st).
Proof. split; reflexivity. Qed.

(** ** Scopes *)

Lemma int_wrap_range (z : Z) : int_range (int_wrap z).
Proof.
  unfold int_range, int_wrap. change (2 ^ 31) with 2147483648.
  change (2 ^ 32) with 4294967296.
  pose proof (Z.mod_pos_bound (z + 2147483648) 4294967296 eq_refl). lia.
Qed.

Lemma int_wrap_id (z : Z) : int_range z -> int_wrap z = z.
Proof.
  unfold int_range, int_wrap. change (2 ^ 31) with 2147483648.
  change (2 ^ 32) with 4294967296. intros H.
  rewrite Z.mod_small by lia. lia.
Qed.

Lemma int_wrap_succ_pred (z : Z) : int_range z -> int_wrap (int_wrap (z + 1) - 1) = z.
Proof.
  unfold int_range, int_wrap. change (2 ^ 31) with 2147483648.
  change (2 ^ 32) with 4294967296. intros H.
  destruct (Z.eq_dec z 2147483647) as [->|Hz]; [reflexivity|].
  rewrite (Z.mod_small (z + 1 + 2147483648)) by lia.
  rewrite Z.mod_small by lia. lia.
Qed.

Lemma snprintf_take (size : nat) (s : string) : snprintf size s = take (size - 1) s.
Proof. reflexivity. Qed.

(** Construction keeps the depth an [int]; destruction from a state of the
    depth that construction left restores the depth found at entry. *)
Lemma scope_depth_restored (verbosity : Verbosity) (file : string) (line : Z)
    (text : string) (st : State) :
  int_range (s_indentation st) ->
  int_range (s_indentation (snd (LogScopeRAII.ctor verbosity file line text st)))
  /\ forall st2,
      s_indentation st2
      = s_indentation (snd (LogScopeRAII.ctor verbosity file line text st)) ->
      s_indentation
        (LogScopeRAII.dtor (fst (LogScopeRAII.ctor verbosity file line text st)) st2)
      = s_indentation st.
Proof.
  intros Hr. unfold LogScopeRAII.ctor.
  destruct (verbosity <=? g_verbosity st); cbn [fst snd].
  - rewrite log_to_everywhere_events. cbn [s_indentation with_indentation append_events].
    split; [apply int_wrap_range|].
    intros st2 Hd. unfold LogScopeRAII.dtor.
    cbn [LogScopeRAII._file LogScopeRAII._verbosity LogScopeRAII._line
         LogScopeRAII._name LogScopeRAII._start_time_ns].
    rewrite log_events. cbn [s_indentation with_indentation append_events].
    rewrite Hd. now apply int_wrap_succ_pred.
  - split; [exact Hr|]. intros st2 Hd. exact Hd.
Qed.

(** C7 (counterexample). A label of 128 characters: the scope keeps and
    logs only its first 127, so the entry message does not carry the label
    and the exit message does not contain it. *)
Lemma scope_label_cut_at_127 :
  let label := replicate 128 "a" in
  let st := initial_state quiet_env 0 [] in
  let scope := fst (LogScopeRAII.ctor INFO "main.cpp" 10 label st) in
  let st1 := snd (LogScopeRAII.ctor INFO "main.cpp" 10 label st) in
  let exit := make_message st INFO "main.cpp" 10 ""
                ("} 0.000 s: " ++ replicate 127 "a") in
  events st1
  = message_events (make_message st INFO "main.cpp" 10 "{ " (replicate 127 "a")) []
  /\ events (LogScopeRAII.dtor scope st1) = (events st1 ++ message_events exit [])%list
  /\ find label (Message.message exit) = None
  /\ replicate 127 "a" <> label.
Proof. repeat split. discriminate. Qed.

(** C7 (amended). A scope whose severity is above the threshold at entry
    records a null [_file], logs nothing, leaves the state (depth included)
    as it is, and its destructor does nothing. An enabled scope logs one
    message with prefix ["{ "] whose body is the label cut to its first 127
    characters, then increments the depth (as an [int]); its destructor
    decrements the depth and then logs one message whose body is ["} "],
    the elapsed seconds rendered with precision 3, [" s: "] and the same
    cut label. Destruction right after construction, or from any state of
    the same depth, restores the depth found at entry. *)
Theorem scope_enter_exit (verbosity : Verbosity) (file : string) (line : Z)
    (text : string) (st : State) :
  int_range (s_indentation st) ->
  let scope := fst (LogScopeRAII.ctor verbosity file line text st) in
  let st1 := snd (LogScopeRAII.ctor verbosity file line text st) in
  (g_verbosity st < verbosity ->
     LogScopeRAII._file scope = None
     /\ st1 = st
     /\ forall st2, LogScopeRAII.dtor scope st2 = st2)
  /\ (verbosity <= g_verbosity st ->
      LogScopeRAII._file scope = Some file
      /\ LogScopeRAII._name scope = take 127 text
      /\ st1 = with_indentation (int_wrap (s_indentation st + 1))
                 (append_events
                    (message_events
                       (make_message st verbosity file line "{ " (take 127 text))
                       (s_callbacks st)) st)
      /\ (s_indentation st < 2 ^ 31 - 1 -> s_indentation st1 = s_indentation st + 1)
      /\ forall st2,
          let st3 := with_indentation (int_wrap (s_indentation st2 - 1)) st2 in
          LogScopeRAII.dtor scope st2
          = append_events
              (message_events
                 (make_message st3 verbosity file line ""
                    ("} " ++ env_fmt_seconds (env st2) 3 (now_ns st2 - now_ns st)
                     ++ " s: " ++ take 127 text))
                 (s_callbacks st2)) st3)
  /\ (forall st2, s_indentation st2 = s_indentation st1 ->
                  s_indentation (LogScopeRAII.dtor scope st2) = s_indentation st).
Proof.
  intros Hr scope st1. subst scope st1. unfold LogScopeRAII.ctor.
  destruct (Z.leb_spec verbosity (g_verbosity st)) as [Hv|Hv]; cbn [fst snd].
  - rewrite log_to_everywhere_events, snprintf_take.
    change (128 - 1)%nat with 127%nat.
    split; [intros; lia|]. split.
    + intros _. repeat split.
      * intros Hd. cbn [s_indentation with_indentation append_events].
        apply int_wrap_id. unfold int_range in *. lia.
      * intros st2. unfold LogScopeRAII.dtor. cbn [LogScopeRAII._file
          LogScopeRAII._verbosity LogScopeRAII._line LogScopeRAII._name
          LogScopeRAII._start_time_ns].
        rewrite log_events. reflexivity.
    + intros st2 Hd. unfold LogScopeRAII.dtor. cbn [LogScopeRAII._file
        LogScopeRAII._verbosity LogScopeRAII._line LogScopeRAII._name
        LogScopeRAII._start_time_ns].
      rewrite log_events. cbn [s_indentation with_indentation append_events] in *.
      rewrite Hd. now apply int_wrap_succ_pred.
  - split; [|split; [intros; lia|]].
    + intros _. repeat split.
    + intros st2 Hd. exact Hd.
Qed.

Lemma scope_enter_exit_witness :
  let st := initial_state quiet_env 0 [screen_sink] in
  s_indentation
    (LogScopeRAII.dtor (fst (LogScopeRAII.ctor INFO "main.cpp" 10 "load" st))
       (snd (LogScopeRAII.ctor INFO "main.cpp" 10 "load" st)))
  = s_indentation st.
Proof.
  intros st.
  apply (proj2 (proj2 (scope_enter_exit INFO "main.cpp" 10 "load" st
                         ltac:(unfold int_range; simpl; lia)))).
  reflexivity.
Defined.

(** X4. Every block of log calls and nested scopes leaves the shared
    indentation depth as it found it, whatever the threshold. *)
Theorem exec_preserves_indentation (b : block) (st : State) :
  int_range (s_indentation st) -> s_indentation (exec b st) = s_indentation st.
Proof.
  revert st; induction b as [|v file line text rest IH
                             |v file line text body IHbody rest IHrest]; intros st Hr.
  - reflexivity.
  - cbn [exec].
    assert (E : s_indentation (VLOG_F v file line text st) = s_indentation st).
    { unfold VLOG_F. destruct (v >? g_verbosity st); [reflexivity|].
      now rewrite log_events. }
    rewrite IH; rewrite E; auto.
  - cbn [exec].
    pose proof (scope_depth_restored v file line text st Hr) as (R1 & Hbal).
    destruct (LogScopeRAII.ctor v file line text st) as [scope st1].
    cbn [fst snd] in *.
    specialize (IHbody st1 R1).
    specialize (Hbal (exec body st1) IHbody).
    rewrite IHrest; rewrite Hbal; auto.
Qed.

Lemma exec_preserves_indentation_witness :
  s_indentation
    (exec (BScope INFO "main.cpp" 3 "outer"
             (BLog INFO "main.cpp" 4 "working"
                (BScope 2 "main.cpp" 5 "inner" BEnd BEnd))
             (BLog WARNING "main.cpp" 9 "done" BEnd))
          (initial_state quiet_env 0 [screen_sink]))
  = 0.
Proof.
  apply (exec_preserves_indentation
           (BScope INFO "main.cpp" 3 "outer"
              (BLog INFO "main.cpp" 4 "working"
                 (BScope 2 "main.cpp" 5 "inner" BEnd BEnd))
              (BLog WARNING "main.cpp" 9 "done" BEnd))
           (initial_state quiet_env 0 [screen_sink])).
  unfold int_range; simpl; lia.
Defined.

(** ** Preamble *)

(** A property checked on every integer from [0] to [n - 1] holds on each
    of them. *)
Lemma checked_below (f : Z -> bool) (n : nat) :
  forallb f (map Z.of_nat (seq 0 n)) = true ->
  forall z, 0 <= z < Z.of_nat n -> f z = true.
Proof.
  intros H z Hz. rewrite forallb_forall in H. apply H.
  apply in_map_iff. exists (Z.to_nat z). split; [lia|].
  apply in_seq. lia.
Qed.

Lemma level_buff_decimal (v : Z) :
  0 <= v <= 999 ->
  level_buff v = pad_left 4 " " (dec v) /\ strlen (level_buff v) = 4%nat.
Proof.
  intros Hv.
  pose proof (checked_below
                (fun z => String.eqb (level_buff z) (pad_left 4 " " (dec z))
                          && (strlen (level_buff z) =? 4)%nat) 1000) as H.
  specialize (H ltac:(vm_compute; reflexivity) v ltac:(lia)).
  apply andb_prop in H as [H1 H2].
  split; [now apply String.eqb_eq | now apply Nat.eqb_eq].
Qed.

(** C8 (counterexample). A file name of 70 characters, at severity
    [WARNING]: the rendered text has 137 characters and the preamble is its
    first 127, which end with the line number. The preamble has no level
    field: the text ["WARN"] occurs nowhere in it. *)
Lemma long_file_name_cuts_level_field :
  let st := initial_state quiet_env 0 [] in
  let file := "src/" ++ replicate 70 "n" in
  strlen (preamble_text st WARNING file 42) = 137%nat
  /\ print_preamble 128 st WARNING file 42
     = "2015-10-24 12:34:56.789 (   1.234s) [main thread     ]"
       ++ replicate 70 "n" ++ ":42"
  /\ level_buff WARNING = "WARN"
  /\ find "WARN" (print_preamble 128 st WARNING file 42) = None.
Proof. repeat split; vm_compute; reflexivity. Qed.

(** C8 (amended). The rendered text of the preamble ends in the file column
    (right-justified in 23 characters), [":"], the line, and the level text
    right-justified in 4 characters before ["| "]. The level text is
    ["FATL"] for every severity up to [FATAL], ["ERR"] for [ERROR], ["WARN"]
    for [WARNING], and for [0 <= v <= 999] the decimal number
    right-justified in exactly four characters. The file column is
    [filename file] whenever [s_strip_file_path] is set. The preamble is the
    rendered text cut to 127 characters: it is the whole text, level field
    included, whenever the text has at most 127 characters. *)
Theorem preamble_level_and_file (st : State) (verbosity : Verbosity) (file : string)
    (line : Z) :
  print_preamble 128 st verbosity file line
  = take 127 (preamble_text st verbosity file line)
  /\ ((strlen (preamble_text st verbosity file line) <= 127)%nat ->
      print_preamble 128 st verbosity file line = preamble_text st verbosity file line)
  /\ (exists head,
         preamble_text st verbosity file line
         = head ++ pad_left 23 " " (preamble_file st file) ++ ":"
           ++ pad_right 5 (dec line) ++ " "
           ++ pad_left 4 " " (level_buff verbosity) ++ "| ")
  /\ (verbosity <= FATAL -> level_buff verbosity = "FATL")
  /\ (verbosity = ERROR -> level_buff verbosity = "ERR")
  /\ (verbosity = WARNING -> level_buff verbosity = "WARN")
  /\ (0 <= verbosity <= 999 ->
      level_buff verbosity = pad_left 4 " " (dec verbosity)
      /\ strlen (level_buff verbosity) = 4%nat)
  /\ (s_strip_file_path st = true -> preamble_file st file = filename file)
  /\ (s_strip_file_path st = false -> preamble_file st file = file).
Proof.
  split; [reflexivity|]. split.
  { intros H. unfold print_preamble, snprintf. cbn [Nat.sub].
    apply take_all. exact H. }
  split.
  { unfold preamble_text.
    repeat match goal with
           | |- exists head, ?a ++ ?b = head ++ ?c =>
               first [ exists a; reflexivity
                     | rewrite <- (append_assoc a) ]
           end. }
  unfold level_buff, preamble_file, FATAL, ERROR, WARNING.
  repeat split.
  - intros H. destruct (Z.leb_spec verbosity (-3)); [reflexivity | lia].
  - intros ->. reflexivity.
  - intros ->. reflexivity.
  - apply (level_buff_decimal verbosity H).
  - apply (level_buff_decimal verbosity H).
  - intros ->. reflexivity.
  - intros ->. reflexivity.
Qed.

(** ** File sinks *)

Lemma same_config_refl (st : State) : same_config st st.
Proof. unfold same_config; repeat split. Qed.

Lemma same_config_trans (a b c : State) :
  same_config a b -> same_config b c -> same_config a c.
Proof.
  unfold same_config. intros (A1 & A2 & A3 & A4 & A5 & A6 & A7) (B1 & B2 & B3 & B4 & B5 & B6 & B7).
  repeat split; congruence.
Qed.

Lemma same_config_append_events (new : list Event) (st : State) :
  same_config st (append_events new st).
Proof. unfold same_config; repeat split. Qed.

Lemma make_message_same_config (st st' : State) (verbosity : Verbosity) (file : string)
    (line : Z) (prefix buff : string) :
  same_config st st' ->
  make_message st' verbosity file line prefix buff
  = make_message st verbosity file line prefix buff.
Proof.
  intros (_ & _ & _ & _ & E5 & E6 & E7).
  unfold make_message, print_preamble, preamble_text, preamble_file.
  now rewrite E5, E6, E7.
Qed.

(** A logging macro only extends the trace. *)
Lemma VLOG_F_trace (s : Verbosity) (file : string) (line : Z) (text : string) (st : State) :
  exists new, VLOG_F s file line text st = append_events new st.
Proof.
  unfold VLOG_F. destruct (s >? g_verbosity st).
  - exists []. now rewrite append_events_nil.
  - eexists. apply log_events.
Qed.

Lemma LOG_IF_F_trace (s : Verbosity) (cond : bool) (file : string) (line : Z)
    (text : string) (st : State) :
  exists new, LOG_IF_F s cond file line text st = append_events new st.
Proof.
  unfold LOG_IF_F, VLOG_IF_F.
  destruct (_ || _).
  - exists []. now rewrite append_events_nil.
  - eexists. apply log_events.
Qed.

Lemma mkpath_report_trace (cut : string) (st : State) :
  exists new, mkpath_report cut st = append_events new st.
Proof.
  unfold mkpath_report, LOG_F.
  destruct (VLOG_F_trace ERROR __FILE__ 879 ("Failed to create directory '" ++ cut ++ "'") st)
    as [l0 ->].
  repeat match goal with
         | |- context [LOG_IF_F ?s ?c ?f ?l ?t (append_events ?n st)] =>
             let l' := fresh "l" in
             destruct (LOG_IF_F_trace s c f l t (append_events n st)) as [l' ->];
             rewrite append_events_app
         end.
  eexists. reflexivity.
Qed.

Lemma mkdir_spec (d : string) (st : State) :
  same_config st (snd (mkdir d st))
  /\ incl (fs_dirs st) (fs_dirs (snd (mkdir d st)))
  /\ (exists new, events (snd (mkdir d st)) = (events st ++ new)%list)
  /\ (fst (mkdir d st) = -1 -> errno (snd (mkdir d st)) = EEXIST ->
      In d (fs_dirs (snd (mkdir d st))) \/ env_mkdir_error (env st) d = Some EEXIST)
  /\ (fst (mkdir d st) <> -1 -> In d (fs_dirs (snd (mkdir d st))))
  /\ (mkdir_granted st d ->
      fst (mkdir d st) <> -1 \/ errno (snd (mkdir d st)) = EEXIST).
Proof.
  unfold mkdir, mkdir_granted.
  destruct (existsb (String.eqb d) (fs_dirs st)) eqn:Hex.
  - cbn. repeat split; try (unfold same_config; repeat split; fail).
    + apply incl_refl.
    + eexists; reflexivity.
    + intros _ _. left. apply existsb_exists in Hex as (x & Hx & Ex).
      apply String.eqb_eq in Ex. now subst.
    + intros H; now contradiction H.
    + intros _. now right.
  - destruct (env_mkdir_error (env st) d) as [e|] eqn:He; cbn.
    + repeat split; try (unfold same_config; repeat split; fail).
      * apply incl_refl.
      * eexists; reflexivity.
      * intros _ ->. now right.
      * intros H; now contradiction H.
      * intros [H|H]; [discriminate | injection H as ->; now right].
    + repeat split; try (unfold same_config; repeat split; fail).
      * apply incl_appl, incl_refl.
      * eexists; reflexivity.
      * intros H; discriminate H.
      * intros _. apply in_or_app. right. now left.
      * intros _. left. discriminate.
Qed.

(** The loop of [mkpath]: it keeps the configuration, only adds
    directories and events; when it returns [true] every path it cut exists
    afterwards (created, or reported as existing); and it returns [true]
    whenever no [mkdir] is refused. *)
Lemma mkpath_loop_spec (file_path : string) (rest : string) (off : nat) (st : State) :
  same_config st (snd (mkpath_loop file_path off rest st))
  /\ incl (fs_dirs st) (fs_dirs (snd (mkpath_loop file_path off rest st)))
  /\ (exists new, events (snd (mkpath_loop file_path off rest st)) = (events st ++ new)%list)
  /\ (fst (mkpath_loop file_path off rest st) = true ->
      forall d, In d (intermediate_dirs_from file_path off rest) ->
                In d (fs_dirs (snd (mkpath_loop file_path off rest st)))
                \/ env_mkdir_error (env st) d = Some EEXIST)
  /\ ((forall d, In d (intermediate_dirs_from file_path off rest) -> mkdir_granted st d) ->
      fst (mkpath_loop file_path off rest st) = true).
Proof.
  revert off st; induction rest as [|c rest IH]; intros off st.
  - cbn. repeat split; auto using same_config_refl, incl_refl.
    + exists []. now rewrite app_nil_r.
    + intros _ d [].
  - cbn [mkpath_loop intermediate_dirs_from].
    destruct (Ascii.eqb c "/"); [|apply IH].
    pose proof (mkdir_spec (take off file_path) st) as (C & I & (l & E) & X & Y & G).
    destruct (mkdir (take off file_path) st) as [r st1]. cbn [fst snd] in *.
    destruct ((r =? -1) && negb (errno_eqb (errno st1) EEXIST)) eqn:Hfail.
    + cbn [fst snd].
      destruct (mkpath_report_trace (take off file_path) st1) as [l' ->].
      apply andb_prop in Hfail as [Hr He]. apply Z.eqb_eq in Hr.
      apply negb_true_iff in He.
      split; [eapply same_config_trans; [exact C | apply same_config_append_events]|].
      split; [exact I|].
      split; [exists (l ++ l')%list; cbn; now rewrite E, app_assoc|].
      split; [intros H; discriminate H|].
      intros Hg. destruct (G (Hg _ (or_introl eq_refl))) as [H|H]; [lia|].
      rewrite H in He. discriminate He.
    + specialize (IH (S off) st1) as (C' & I' & (l' & E') & X' & G').
      assert (Eenv : env st1 = env st) by (destruct C as (?&?&?&?&?&?&?); assumption).
      split; [eapply same_config_trans; eauto|].
      split; [eapply incl_tran; eauto|].
      split; [exists (l ++ l')%list; now rewrite E', E, app_assoc|].
      split.
      * intros Ht d [<- | Hd].
        -- apply andb_false_iff in Hfail as [Hr | He].
           ++ left. apply I'. apply Y. intros H. rewrite H in Hr. discriminate Hr.
           ++ apply negb_false_iff in He.
              assert (He' : errno st1 = EEXIST) by (destruct (errno st1); try discriminate; reflexivity).
              destruct (Z.eq_dec r (-1)) as [Hr|Hr].
              ** destruct (X Hr He') as [H|H]; [left; now apply I' | now right].
              ** left. apply I'. now apply Y.
        -- rewrite <- Eenv. now apply X'.
      * intros Hg. apply G'. intros d Hd. unfold mkdir_granted. rewrite Eenv.
        apply Hg. now right.
Qed.

Lemma message_events_no_mkdir (m : Message.t) (callbacks : CallbackVec) (d : string)
    (result : Z) :
  ~ In (EvMkdir d result) (message_events m callbacks).
Proof.
  unfold message_events, dispatch_events. intros [H|[H|H]]; try discriminate H.
  induction (filter (eligible m) callbacks) as [|p l IH]; [exact H|].
  cbn [flat_map] in H. apply in_app_or in H as [H|H]; [|exact (IH H)].
  unfold invocation_events in H. destruct (Callback.callback p);
    repeat (destruct H as [H|H]; [discriminate H|]); exact H.
Qed.

Lemma log_no_mkdir (s : Verbosity) (file : string) (line : Z) (text : string) (st : State) :
  exists new, log s file line text st = append_events new st
              /\ forall d result, ~ In (EvMkdir d result) new.
Proof.
  eexists. split; [apply log_events|]. intros d result. apply message_events_no_mkdir.
Qed.

Lemma VLOG_F_no_mkdir (s : Verbosity) (file : string) (line : Z) (text : string)
    (st : State) :
  exists new, VLOG_F s file line text st = append_events new st
              /\ forall d result, ~ In (EvMkdir d result) new.
Proof.
  unfold VLOG_F. destruct (s >? g_verbosity st); [|apply log_no_mkdir].
  exists []. split; [now rewrite append_events_nil | intros d result []].
Qed.

Lemma LOG_IF_F_no_mkdir (s : Verbosity) (cond : bool) (file : string) (line : Z)
    (text : string) (st : State) :
  exists new, LOG_IF_F s cond file line text st = append_events new st
              /\ forall d result, ~ In (EvMkdir d result) new.
Proof.
  unfold LOG_IF_F, VLOG_IF_F. destruct (_ || _); [|apply log_no_mkdir].
  exists []. split; [now rewrite append_events_nil | intros d result []].
Qed.

Lemma mkpath_report_no_mkdir (cut : string) (st : State) :
  exists new, mkpath_report cut st = append_events new st
              /\ forall d result, ~ In (EvMkdir d result) new.
Proof.
  unfold mkpath_report, LOG_F.
  destruct (VLOG_F_no_mkdir ERROR __FILE__ 879 ("Failed to create directory '" ++ cut ++ "'") st)
    as (l0 & -> & N0).
  repeat match goal with
         | |- context [LOG_IF_F ?s ?c ?f ?l ?t (append_events ?n st)] =>
             let l' := fresh "l" in
             let N := fresh "N" in
             destruct (LOG_IF_F_no_mkdir s c f l t (append_events n st)) as (l' & -> & N);
             rewrite append_events_app
         end.
  eexists. split; [reflexivity|].
  intros d result H. repeat (apply in_app_or in H as [H|H]);
    match goal with
    | N : forall d result, ~ In _ ?l, H : In _ ?l |- _ => exact (N _ _ H)
    end.
Qed.

Lemma mkdir_events (d : string) (st : State) :
  exists result, events (snd (mkdir d st)) = (events st ++ [EvMkdir d result])%list.
Proof.
  unfold mkdir. destruct (existsb _ _); [now exists (-1)|].
  destruct (env_mkdir_error (env st) d); [now exists (-1) | now exists 0].
Qed.

Lemma mkdir_calls_app (l l' : list Event) :
  mkdir_calls (l ++ l') = (mkdir_calls l ++ mkdir_calls l')%list.
Proof.
  induction l as [|e l IH]; [reflexivity|].
  destruct e; cbn [app mkdir_calls]; rewrite IH; reflexivity.
Qed.

Lemma mkdir_calls_none (l : list Event) :
  (forall d result, ~ In (EvMkdir d result) l) -> mkdir_calls l = [].
Proof.
  induction l as [|e l IH]; intros H; [reflexivity|].
  destruct e; cbn [mkdir_calls];
    try (apply IH; intros d r Hd; apply (H d r); now right).
  exfalso. apply (H path result). now left.
Qed.

(** The loop of [mkpath] hands its paths to [mkdir] in order and stops
    after the first one that [mkdir] refuses: a path the process has not
    created, for which the environment answers an error other than
    [EEXIST]. The paths before it were created or reported as existing. *)
Lemma mkpath_loop_calls (file_path rest : string) :
  forall (off : nat) (st : State),
    exists new,
      events (snd (mkpath_loop file_path off rest st)) = (events st ++ new)%list
      /\ (fst (mkpath_loop file_path off rest st) = true ->
          mkdir_calls new = intermediate_dirs_from file_path off rest)
      /\ (fst (mkpath_loop file_path off rest st) = false ->
          exists before d after e,
            intermediate_dirs_from file_path off rest = (before ++ d :: after)%list
            /\ mkdir_calls new = (before ++ [d])%list
            /\ ~ In d (fs_dirs (snd (mkpath_loop file_path off rest st)))
            /\ env_mkdir_error (env st) d = Some e /\ e <> EEXIST
            /\ forall b, In b before ->
                         In b (fs_dirs (snd (mkpath_loop file_path off rest st)))
                         \/ env_mkdir_error (env st) b = Some EEXIST).
Proof.
  induction rest as [|c rest IH]; intros off st.
  - exists []. cbn. rewrite app_nil_r. repeat split; auto. intros H; discriminate H.
  - cbn [mkpath_loop intermediate_dirs_from].
    destruct (Ascii.eqb c "/"); [|apply IH].
    set (d := take off file_path).
    pose proof (mkdir_spec d st) as (C & _ & _ & X & Y & _).
    assert (R : fst (mkdir d st) = -1 -> errno (snd (mkdir d st)) <> EEXIST ->
                ~ In d (fs_dirs (snd (mkdir d st)))
                /\ exists e, env_mkdir_error (env st) d = Some e /\ e <> EEXIST).
    { unfold mkdir. destruct (existsb (String.eqb d) (fs_dirs st)) eqn:Hex.
      - cbn. intros _ H. now contradiction H.
      - assert (Hn : ~ In d (fs_dirs st)).
        { intros Hin. apply Bool.not_true_iff_false in Hex. apply Hex.
          apply existsb_exists. exists d. split; [exact Hin | apply String.eqb_refl]. }
        destruct (env_mkdir_error (env st) d) as [e|]; cbn.
        + intros _ He. split; [exact Hn|]. now exists e.
        + intros H; discriminate H. }
    destruct (mkdir_events d st) as [result E].
    destruct (mkdir d st) as [r st1]. cbn [fst snd] in *.
    destruct ((r =? -1) && negb (errno_eqb (errno st1) EEXIST)) eqn:Hfail.
    + cbn [fst snd]. destruct (mkpath_report_no_mkdir d st1) as (l & -> & N).
      exists ([EvMkdir d result] ++ l)%list.
      cbn [events fs_dirs append_events]. rewrite E, <- app_assoc.
      split; [reflexivity|]. split; [intros H; discriminate H|]. intros _.
      apply andb_prop in Hfail as [Hr He]. apply Z.eqb_eq in Hr.
      apply negb_true_iff in He.
      destruct R as (Hn & e & Ee & Hne);
        [exact Hr | intros H; rewrite H in He; discriminate He|].
      exists [], d, (intermediate_dirs_from file_path (S off) rest), e.
      rewrite mkdir_calls_app, (mkdir_calls_none l N). repeat split; auto.
      intros b [].
    + destruct (IH (S off) st1) as (new & En & Ht & Hf).
      pose proof (mkpath_loop_spec file_path rest (S off) st1) as (_ & I' & _).
      assert (Eenv : env st1 = env st) by (destruct C as (?&?&?&?&?&?&?); assumption).
      exists ([EvMkdir d result] ++ new)%list.
      rewrite En, E, <- app_assoc. split; [reflexivity|]. split.
      * intros H. cbn [app mkdir_calls]. now rewrite (Ht H).
      * intros H.
        destruct (Hf H) as (before & d' & after & e & Ed & Ec & Hn & Ee & Hne & Hb).
        exists (d :: before), d', after, e. cbn [app mkdir_calls].
        rewrite Ed, Ec. rewrite Eenv in Ee. repeat split; auto.
        intros b [<-|Hin].
        -- apply andb_false_iff in Hfail as [Hr | He].
           ++ left. apply I'. apply Y. intros Hr'. rewrite Hr' in Hr. discriminate Hr.
           ++ apply negb_false_iff in He.
              assert (He' : errno st1 = EEXIST)
                by (destruct (errno st1); try discriminate; reflexivity).
              destruct (Z.eq_dec r (-1)) as [Hr|Hr].
              ** destruct (X Hr He') as [Hx|Hx]; [left; now apply I' | now right].
              ** left. apply I'. now apply Y.
        -- rewrite <- Eenv. now apply Hb.
Qed.

Lemma strlen_zero (s : string) : (strlen s =? 0)%nat = true <-> s = "".
Proof.
  destruct s; simpl; split; intros H; try reflexivity; discriminate H.
Qed.

(** C6 (counterexample). For the path [//tmp/app.log] the first directory
    [mkpath] asks for is [/]; [mkdir] refuses it with an error other than
    [EEXIST] (here [EISDIR], 21), so [mkpath] returns [false], while [fopen]
    succeeds. [add_file] logs the failure and goes on: it returns [true] and
    the file sink is registered. *)
Lemma add_file_registers_sink_after_mkdir_failure :
  let refused := fun d => if String.eqb d "/" then Some (EOTHER 21) else None in
  let st := initial_state (sample_env EmptyString refused 7) 0 [] in
  match mkpath "//tmp/app.log" st with
  | Returns created _ => created = false
  | _ => False
  end
  /\ match add_file "//tmp/app.log" Truncate MAX st with
     | Returns r st' =>
         r = true
         /\ s_callbacks st'
            = [Callback.make "//tmp/app.log" FileLog 7 MAX (Some FileClose)]
         /\ In (EvMkdir "/" (-1)) (events st')
     | _ => False
     end.
Proof.
  split; [vm_compute; reflexivity|].
  vm_compute. repeat split. now left.
Qed.

(** C6 (amended). For a non-empty path and a threshold that lets ERROR
    messages pass, [add_file] returns (the process goes on) and:
    - [mkpath] calls [mkdir] for the intermediate directories of the path
      in order and stops after the first one that is refused (it is not
      among the directories the process has created, and [mkdir] fails on it
      with an error other than [EEXIST]); the directories before that one
      were created or reported by [mkdir] as existing;
    - when [mkpath] returns [true], [mkdir] was called for each of them and
      each is among the directories the process has created or was
      reported by [mkdir] as existing; [mkpath] returns [true] whenever the
      environment refuses none of them;
    - when [mkpath] returned [false], an ERROR message "Failed to create
      directories to" is dispatched and [add_file] still opens the file;
    - the file is opened with mode ["w"] for [Truncate] and ["a"] for
      [Append]; the result of [add_file] is [false] exactly when [fopen]
      returned null;
    - when [fopen] returned null, an ERROR message "Failed to open" is
      dispatched and the registry is unchanged;
    - otherwise the sink [(path, file_log, file, verbosity, file_close)] is
      appended to the registry, the three header lines are written to the
      file and flushed, and the INFO message "Logging to" is logged. *)
Theorem add_file_outcome (path : string) (mode : FileMode) (verbosity : Verbosity)
    (st : State) :
  path <> "" ->
  ERROR <= g_verbosity st ->
  let file := env_fopen (env st) path (mode_str mode) in
  let sink := Callback.make path FileLog file verbosity (Some FileClose) in
  exists created st1 st',
    mkpath path st = Returns created st1
    /\ add_file path mode verbosity st = Returns (negb (file =? nullptr)) st'
    /\ same_config st st1
    /\ (exists new,
           events st1 = (events st ++ new)%list
           /\ (created = true -> mkdir_calls new = intermediate_dirs path)
           /\ (created = false ->
               exists before d after e,
                 intermediate_dirs path = (before ++ d :: after)%list
                 /\ mkdir_calls new = (before ++ [d])%list
                 /\ ~ In d (fs_dirs st1)
                 /\ env_mkdir_error (env st) d = Some e /\ e <> EEXIST
                 /\ forall b, In b before ->
                              In b (fs_dirs st1)
                              \/ env_mkdir_error (env st) b = Some EEXIST))
    /\ (created = true ->
        forall d, In d (intermediate_dirs path) ->
                  In d (fs_dirs st') \/ env_mkdir_error (env st) d = Some EEXIST)
    /\ ((forall d, In d (intermediate_dirs path) -> mkdir_granted st d) -> created = true)
    /\ s_callbacks st'
       = (if file =? nullptr then s_callbacks st else (s_callbacks st ++ [sink])%list)
    /\ (mode_str Truncate = "w" /\ mode_str Append = "a")
    /\ let report :=
         if created then []
         else message_events
                (make_message st ERROR __FILE__ 900 ""
                   ("Failed to create directories to '" ++ path ++ "'"))
                (s_callbacks st) in
       (file = nullptr ->
        st' = append_events
                (report ++ EvFopen path (mode_str mode) file
                 :: message_events
                      (make_message st ERROR __FILE__ 906 ""
                         ("Failed to open '" ++ path ++ "'"))
                      (s_callbacks st))%list st1)
       /\ (file <> nullptr ->
           st' = LOG_F INFO __FILE__ 916
                   ("Logging to '" ++ path ++ "', mode: '" ++ mode_str mode
                    ++ "', verbosity: " ++ dec verbosity)
                   (append_events (file_header st file verbosity)
                      (with_callbacks (s_callbacks st ++ [sink])%list
                         (append_events
                            (report ++ [EvFopen path (mode_str mode) file])%list st1)))).
Proof.
  intros Hpath Hv file sink.
  unfold add_file, mkpath.
  destruct (strlen path =? 0)%nat eqn:Hlen;
    [apply strlen_zero in Hlen; contradiction|].
  pose proof (mkpath_loop_spec path (advance 1 path) 1 st) as (C & I & _ & D & G).
  pose proof (mkpath_loop_calls path (advance 1 path) 1 st) as K.
  fold (intermediate_dirs path) in D, G, K.
  destruct (mkpath_loop path 1 (advance 1 path) st) as [created st1].
  cbn [fst snd] in *.
  pose proof C as (Cg & Ca & Cc & _ & _ & _ & Ce).
  set (report := if created then []
                 else message_events
                        (make_message st ERROR __FILE__ 900 ""
                           ("Failed to create directories to '" ++ path ++ "'"))
                        (s_callbacks st)).
  assert (R : (if created then st1
               else LOG_F ERROR __FILE__ 900
                      ("Failed to create directories to '" ++ path ++ "'") st1)
              = append_events report st1).
  { unfold report. destruct created; [now rewrite append_events_nil|].
    rewrite LOG_F_accepted by (rewrite Cg; exact Hv).
    now rewrite (make_message_same_config st st1), Cc. }
  unfold add_file_open, fopen. rewrite R.
  change (env (append_events report st1)) with (env st1). rewrite Ce. fold file.
  destruct (Z.eqb_spec file nullptr) as [Hf|Hf].
  - exists created, st1.
    eexists. split; [reflexivity|]. split; [reflexivity|]. split; [exact C|].
    split; [exact K|].
    rewrite emit_append_events, append_events_app.
    rewrite LOG_F_accepted by (cbn; rewrite Cg; exact Hv).
    rewrite append_events_app.
    rewrite (make_message_same_config st)
      by (eapply same_config_trans; [exact C | apply same_config_append_events]).
    cbn [s_callbacks append_events]. rewrite Cc.
    split; [exact D|]. split; [exact G|]. split; [reflexivity|].
    split; [split; reflexivity|].
    split; [|intros H; contradiction].
    intros _. rewrite <- app_assoc. reflexivity.
  - exists created, st1.
    eexists. split; [reflexivity|]. split; [reflexivity|]. split; [exact C|].
    split; [exact K|].
    unfold add_callback, fprintf, fflush.
    rewrite !emit_append_events.
    cbn [s_callbacks s_file_arguments g_verbosity append_events with_callbacks].
    rewrite Cc, Ca, Cg.
    split.
    { intros Hc d Hd. destruct (D Hc d Hd) as [H|H]; [left | now right].
      match goal with
      | |- context [LOG_F ?s ?f ?l ?t ?x] =>
          destruct (VLOG_F_trace s f l t x) as [l0 E0]; unfold LOG_F; rewrite E0
      end.
      exact H. }
    split; [exact G|].
    split.
    { match goal with
      | |- context [LOG_F ?s ?f ?l ?t ?x] =>
          destruct (VLOG_F_trace s f l t x) as [l0 E0]; unfold LOG_F; rewrite E0
      end.
      reflexivity. }
    split; [split; reflexivity|].
    split; [intros H; contradiction|].
    intros _. unfold file_header.
    rewrite !append_events_app. reflexivity.
Qed.

Lemma add_file_outcome_witness :
  exists st',
    add_file "a/b/c.log" Append MAX (initial_state quiet_env 0 []) = Returns true st'
    /\ s_callbacks st' = [Callback.make "a/b/c.log" FileLog 7 MAX (Some FileClose)].
Proof.
  destruct (add_file_outcome "a/b/c.log" Append MAX (initial_state quiet_env 0 [])
              ltac:(discriminate) ltac:(unfold ERROR; simpl; lia))
    as (created & st1 & st' & _ & E & _ & _ & _ & _ & S & _).
  exists st'. split; [exact E | exact S].
Defined.

(** On an empty path the [CHECK_F] of [mkpath] fails: [add_file] does not
    return, the process is on the fatal path. *)
Lemma add_file_empty_path_fatal (mode : FileMode) (verbosity : Verbosity) (st : State) :
  add_file "" mode verbosity st
  = fatal_outcome st 1 "CHECK FAILED:  file_path_const && *file_path_const  "
      __FILE__ 868 " ".
Proof.
  unfold add_file, mkpath. cbn [strlen String.length Nat.eqb].
  unfold log_and_abort_no_message. change (0 + 1) with 1.
  rewrite log_and_abort_outcome.
  unfold fatal_outcome, noreturn. now destruct (stacktrace st (1 + 2)).
Qed.

(** ** The backtracking matcher *)

Section TryCounts.
Variable attempt : nat -> option (nat * string).

Lemma try_counts_eq (k lo : nat) :
  try_counts k lo attempt
  = if (k <? lo)%nat then None
    else match attempt k with
         | Some r => Some r
         | None => match k with
                   | O => None
                   | S k' => try_counts k' lo attempt
                   end
         end.
Proof. destruct k; reflexivity. Qed.

Lemma try_counts_top (k lo : nat) (r : nat * string) :
  (lo <= k)%nat -> attempt k = Some r -> try_counts k lo attempt = Some r.
Proof.
  intros Hk Hr. rewrite try_counts_eq, Hr.
  destruct (Nat.ltb_spec k lo); [lia | reflexivity].
Qed.

Lemma try_counts_none (k lo : nat) :
  (forall j, (lo <= j <= k)%nat -> attempt j = None) -> try_counts k lo attempt = None.
Proof.
  induction k as [|k IH]; intros H; rewrite try_counts_eq.
  - destruct (Nat.ltb_spec 0 lo) as [Hl|Hl]; [reflexivity|].
    now rewrite (H 0%nat (conj Hl (Nat.le_refl _))).
  - destruct (Nat.ltb_spec (S k) lo) as [Hl|Hl]; [reflexivity|].
    rewrite (H (S k) (conj Hl (Nat.le_refl _))).
    apply IH. intros j Hj. apply H. lia.
Qed.

Lemma try_counts_some (k lo : nat) (r : nat * string) :
  try_counts k lo attempt = Some r ->
  exists j, (lo <= j <= k)%nat /\ attempt j = Some r
            /\ forall i, (j < i <= k)%nat -> attempt i = None.
Proof.
  induction k as [|k IH]; intros H; rewrite try_counts_eq in H.
  - destruct (Nat.ltb_spec 0 lo) as [Hl|Hl]; [discriminate|].
    destruct (attempt 0%nat) eqn:E; [|discriminate]. injection H as <-.
    exists 0%nat. split; [lia|]. split; [exact E|]. intros i Hi. lia.
  - destruct (Nat.ltb_spec (S k) lo) as [Hl|Hl]; [discriminate|].
    destruct (attempt (S k)) as [r'|] eqn:E.
    + injection H as <-. exists (S k). split; [lia|]. split; [exact E|]. intros i Hi. lia.
    + destruct (IH H) as (j & Hj & Ej & Hn).
      exists j. split; [lia|]. split; [exact Ej|].
      intros i Hi. destruct (Nat.eq_dec i (S k)) as [->|]; [exact E | apply Hn; lia].
Qed.

End TryCounts.

Lemma try_counts_ext (f g : nat -> option (nat * string)) (k lo : nat) :
  (forall j, (j <= k)%nat -> f j = g j) -> try_counts k lo f = try_counts k lo g.
Proof.
  induction k as [|k IH]; intros H; rewrite (try_counts_eq f), (try_counts_eq g).
  - now rewrite (H 0%nat) by lia.
  - rewrite (H (S k)) by lia. rewrite IH; [reflexivity|]. intros j Hj. apply H. lia.
Qed.

(** *** Runs of a character class *)

Lemma run_length_le (p : ascii -> bool) (s : string) : (run_length p s <= strlen s)%nat.
Proof.
  induction s as [|c s IH]; simpl; [lia|]. destruct (p c); simpl; unfold strlen in *; lia.
Qed.

(** Inside the run every character is of the class. *)
Lemma advance_in_run (p : ascii -> bool) (s : string) (j : nat) :
  (j < run_length p s)%nat ->
  exists c rest, advance j s = String c rest /\ p c = true.
Proof.
  revert j; induction s as [|c s IH]; intros j Hj; simpl in Hj; [lia|].
  destruct (p c) eqn:Hc; [|lia].
  destruct j as [|j]; simpl.
  - now exists c, s.
  - apply IH. lia.
Qed.

(** After the run comes the end or a character outside the class. *)
Lemma advance_after_run (p : ascii -> bool) (s : string) :
  advance (run_length p s) s = ""
  \/ exists c rest, advance (run_length p s) s = String c rest /\ p c = false.
Proof.
  induction s as [|c s IH]; simpl; [now left|].
  destruct (p c) eqn:Hc; simpl; [exact IH|]. right. now exists c, s.
Qed.

Lemma run_length_advance (p : ascii -> bool) (s : string) (j : nat) :
  (j <= run_length p s)%nat ->
  run_length p (advance j s) = (run_length p s - j)%nat.
Proof.
  revert j; induction s as [|c s IH]; intros j Hj; simpl in *.
  - now destruct j.
  - destruct (p c) eqn:Hc.
    + destruct j as [|j]; simpl; [now rewrite Hc|]. apply IH. lia.
    + replace j with 0%nat by lia. simpl. now rewrite Hc.
Qed.

Lemma all_chars_take_run (p : ascii -> bool) (s : string) :
  all_chars p (take (run_length p s) s) = true.
Proof.
  induction s as [|c s IH]; simpl; [reflexivity|].
  destruct (p c) eqn:Hc; simpl; [now rewrite Hc|reflexivity].
Qed.

Lemma strlen_take_run (p : ascii -> bool) (s : string) :
  strlen (take (run_length p s) s) = run_length p s.
Proof.
  induction s as [|c s IH]; simpl; [reflexivity|].
  destruct (p c); simpl; unfold strlen in *; simpl; [now rewrite IH|reflexivity].
Qed.

(** A run does not see past a character outside the class. *)
Lemma run_length_stop (p : ascii -> bool) (u t : string) (b : ascii) :
  p b = false -> run_length p (u ++ String b t) = run_length p u.
Proof.
  intros Hb. induction u as [|c u IH]; simpl; [now rewrite Hb|].
  destruct (p c); [now rewrite IH | reflexivity].
Qed.

Lemma advance_append_le (j : nat) (u t : string) :
  (j <= strlen u)%nat -> advance j (u ++ t) = advance j u ++ t.
Proof.
  revert j; induction u as [|c u IH]; intros j Hj; simpl in *.
  - now replace j with 0%nat by lia.
  - destruct j as [|j]; simpl; [reflexivity|]. apply IH. unfold strlen in *. lia.
Qed.

Lemma take_append_le (j : nat) (u t : string) :
  (j <= strlen u)%nat -> take j (u ++ t) = take j u.
Proof.
  revert j; induction u as [|c u IH]; intros j Hj; simpl in *.
  - now replace j with 0%nat by lia.
  - destruct j as [|j]; simpl; [reflexivity|]. rewrite IH; [reflexivity|].
    unfold strlen in *. lia.
Qed.

Lemma run_length_all (p : ascii -> bool) (u t : string) :
  all_chars p u = true -> run_length p (u ++ t) = (strlen u + run_length p t)%nat.
Proof.
  intros H. induction u as [|c u IH]; simpl in *; [reflexivity|].
  apply andb_prop in H as [Hc Hu]. rewrite Hc. unfold strlen in *. simpl. now rewrite IH.
Qed.

(** *** The pattern [<\s*([^<> ]+)\s*>], from its last atom to its first *)

Lemma match_gt (r : string) :
  match_here [lit ">"] r = if head_is ">" r then Some (1%nat, "") else None.
Proof.
  destruct r as [|c r]; [reflexivity|].
  change (match_here [lit ">"] (String c r))
    with (try_counts (Nat.min 1 (run_length (Ascii.eqb ">") (String c r))) 1
            (fun k => match match_here [] (advance k (String c r)) with
                      | Some (n, cap) => Some ((k + n)%nat, cap)
                      | None => None
                      end)).
  cbn [run_length head_is]. destruct (Ascii.eqb ">" c); reflexivity.
Qed.

Lemma is_space_not_gt (c : ascii) : is_space c = true -> Ascii.eqb ">" c = false.
Proof.
  destruct (Ascii.eqb_spec ">" c) as [<-|]; [discriminate | reflexivity].
Qed.

Lemma arg_not_gt (c : ascii) : not_angle_or_blank c = true -> Ascii.eqb ">" c = false.
Proof.
  destruct (Ascii.eqb_spec ">" c) as [<-|]; [discriminate | reflexivity].
Qed.

Lemma match_spaces_gt (r : string) :
  match_here [space_star; lit ">"] r
  = if head_is ">" (advance (run_length is_space r) r)
    then Some (S (run_length is_space r), "") else None.
Proof.
  change (match_here [space_star; lit ">"] r)
    with (try_counts (run_length is_space r) 0
            (fun k => match match_here [lit ">"] (advance k r) with
                      | Some (n, cap) => Some ((k + n)%nat, cap)
                      | None => None
                      end)).
  destruct (head_is ">" (advance (run_length is_space r) r)) eqn:H.
  - apply try_counts_top; [lia|]. rewrite match_gt, H. f_equal. f_equal. lia.
  - apply try_counts_none. intros j Hj. rewrite match_gt.
    destruct (Nat.eq_dec j (run_length is_space r)) as [->|Hne]; [now rewrite H|].
    destruct (advance_in_run is_space r j ltac:(lia)) as (c & rest & -> & Hc).
    cbn [head_is]. now rewrite (is_space_not_gt c Hc).
Qed.

(** After fewer repetitions of [[^<> ]] than the run allows, [\s*>] does
    not match where it failed after the whole run. *)
Lemma match_spaces_gt_inside_run (r : string) (j : nat) :
  (j < run_length not_angle_or_blank r)%nat ->
  match_here [space_star; lit ">"] (advance (run_length not_angle_or_blank r) r) = None ->
  match_here [space_star; lit ">"] (advance j r) = None.
Proof.
  revert j; induction r as [|c r IH]; intros j Hj Hn; cbn [run_length] in Hj; [lia|].
  destruct (not_angle_or_blank c) eqn:Hc; [|lia].
  cbn [run_length] in Hn. rewrite Hc in Hn. cbn [advance] in Hn.
  destruct j as [|j]; [|cbn [advance]; apply IH; [lia | exact Hn]].
  cbn [advance]. rewrite match_spaces_gt. cbn [run_length].
  destruct (is_space c) eqn:Hs.
  - cbn [advance].
    destruct (Nat.eq_dec (run_length not_angle_or_blank r) 0) as [E0|E0].
    + rewrite E0 in Hn. cbn [advance] in Hn. rewrite match_spaces_gt in Hn.
      destruct (head_is ">" (advance (run_length is_space r) r)); [discriminate|reflexivity].
    + specialize (IH 0%nat ltac:(lia) Hn). cbn [advance] in IH.
      rewrite match_spaces_gt in IH.
      destruct (head_is ">" (advance (run_length is_space r) r)); [discriminate|reflexivity].
  - cbn [advance head_is]. now rewrite (arg_not_gt c Hc).
Qed.

Lemma match_arg_spaces_gt (r : string) :
  match_here [template_arg; space_star; lit ">"] r
  = let k := run_length not_angle_or_blank r in
    if (k =? 0)%nat then None
    else match match_here [space_star; lit ">"] (advance k r) with
         | Some (n, _) => Some ((k + n)%nat, take k r)
         | None => None
         end.
Proof.
  change (match_here [template_arg; space_star; lit ">"] r)
    with (try_counts (run_length not_angle_or_blank r) 1
            (fun k => match match_here [space_star; lit ">"] (advance k r) with
                      | Some (n, cap) => Some ((k + n)%nat, take k r)
                      | None => None
                      end)).
  cbv zeta. destruct (Nat.eqb_spec (run_length not_angle_or_blank r) 0) as [E|E].
  - rewrite E. reflexivity.
  - destruct (match_here [space_star; lit ">"] (advance (run_length not_angle_or_blank r) r))
      as [[n cap]|] eqn:H.
    + apply try_counts_top; [lia|]. now rewrite H.
    + apply try_counts_none. intros j Hj.
      destruct (Nat.eq_dec j (run_length not_angle_or_blank r)) as [->|Hne]; [now rewrite H|].
      rewrite match_spaces_gt_inside_run; [reflexivity | lia | exact H].
Qed.

Lemma match_template_spaces (s : string) :
  match_here template_spaces_re s
  = match s with
    | EmptyString => None
    | String c r =>
        if Ascii.eqb "<" c then
          match match_here [space_star; template_arg; space_star; lit ">"] r with
          | Some (n, cap) => Some (S n, cap)
          | None => None
          end
        else None
    end.
Proof.
  destruct s as [|c r]; [reflexivity|].
  unfold template_spaces_re.
  change (match_here (lit "<" :: [space_star; template_arg; space_star; lit ">"])
            (String c r))
    with (let run := run_length (Ascii.eqb "<") (String c r) in
          try_counts (Nat.min 1 run) 1
            (fun k => match match_here [space_star; template_arg; space_star; lit ">"]
                              (advance k (String c r)) with
                      | Some (n, cap) => Some ((k + n)%nat, cap)
                      | None => None
                      end)).
  cbn [run_length]. cbv zeta. destruct (Ascii.eqb "<" c); [|reflexivity].
  cbn [Nat.min]. rewrite try_counts_eq. cbn [Nat.ltb Nat.leb advance].
  destruct (match_here _ r) as [[n cap]|]; reflexivity.
Qed.

Lemma match_spaces_arg_spaces_gt (r : string) :
  match_here [space_star; template_arg; space_star; lit ">"] r
  = try_counts (run_length is_space r) 0
      (fun k => match match_here [template_arg; space_star; lit ">"] (advance k r) with
                | Some (n, cap) => Some ((k + n)%nat, cap)
                | None => None
                end).
Proof. reflexivity. Qed.

(** *** What the capture group can hold *)

Lemma strlen_advance_le (n : nat) (s : string) : (strlen (advance n s) <= strlen s)%nat.
Proof.
  revert s; induction n as [|n IH]; intros s; [simpl; lia|].
  destruct s as [|c s]; simpl; [lia|]. specialize (IH s). unfold strlen in *. simpl. lia.
Qed.

Lemma take_nonempty (k : nat) (s : string) :
  (1 <= k <= strlen s)%nat -> take k s <> "".
Proof. destruct k, s; simpl; intros H; try lia; discriminate. Qed.

(** A capture of the pattern is a non-empty text of [[^<> ]] that starts
    with a character outside [\s], unless it is a single character. *)
Lemma capture_shape (r : string) (n : nat) (g : string) :
  match_here [space_star; template_arg; space_star; lit ">"] r = Some (n, g) ->
  all_chars not_angle_or_blank g = true
  /\ g <> ""
  /\ (strlen g = 1%nat \/ exists c rest, g = String c rest /\ is_space c = false).
Proof.
  rewrite match_spaces_arg_spaces_gt. intros H.
  apply try_counts_some in H as (k1 & Hk1 & H & Hnone).
  rewrite match_arg_spaces_gt in H. cbv zeta in H.
  set (r1 := advance k1 r) in *.
  destruct (Nat.eqb_spec (run_length not_angle_or_blank r1) 0) as [E|E]; [discriminate|].
  destruct (match_here [space_star; lit ">"] (advance (run_length not_angle_or_blank r1) r1))
    as [[n' cap']|] eqn:H3; [|discriminate].
  injection H as _ <-.
  split; [apply all_chars_take_run|].
  split; [apply take_nonempty; pose proof (run_length_le not_angle_or_blank r1); lia|].
  destruct (Nat.eq_dec k1 (run_length is_space r)) as [Ek|Ek].
  - (* the white space was taken whole: the capture starts outside [\s] *)
    right. destruct (advance_after_run is_space r) as [E0 | (c & rest & E0 & Hc)].
    + exfalso. apply E. unfold r1. rewrite Ek, E0. reflexivity.
    + unfold r1. rewrite Ek, E0. cbn [run_length].
      destruct (not_angle_or_blank c) eqn:Hn.
      * cbn [take]. now exists c, (take (run_length not_angle_or_blank rest) rest).
      * exfalso. apply E. unfold r1. rewrite Ek, E0. cbn [run_length]. now rewrite Hn.
  - (* backtracked into the white space: one repetition more would have matched
       if the capture had two characters *)
    left. rewrite strlen_take_run.
    destruct (Nat.eq_dec (run_length not_angle_or_blank r1) 1) as [E1|E1]; [exact E1|].
    exfalso.
    assert (Hk : (k1 < run_length is_space r)%nat) by lia.
    specialize (Hnone (S k1) ltac:(lia)).
    rewrite match_arg_spaces_gt in Hnone. cbv zeta in Hnone.
    assert (Er : advance (S k1) r = advance 1 r1).
    { unfold r1. rewrite <- advance_add. f_equal. lia. }
    rewrite Er in Hnone.
    rewrite run_length_advance in Hnone by lia.
    rewrite <- advance_add in Hnone.
    replace (1 + (run_length not_angle_or_blank r1 - 1))%nat
      with (run_length not_angle_or_blank r1) in Hnone by lia.
    rewrite H3 in Hnone.
    destruct (Nat.eqb_spec (run_length not_angle_or_blank r1 - 1) 0); [lia | discriminate].
Qed.

Lemma match_arg_canonical (g tail : string) :
  all_chars not_angle_or_blank g = true -> g <> "" ->
  match_here [template_arg; space_star; lit ">"] (g ++ String ">" tail)
  = Some (S (strlen g), g).
Proof.
  intros Hg Hne. rewrite match_arg_spaces_gt. cbv zeta.
  rewrite run_length_stop by reflexivity.
  assert (Erun : run_length not_angle_or_blank g = strlen g).
  { pose proof (run_length_all not_angle_or_blank g "" Hg) as E.
    rewrite append_nil_r in E. cbn [run_length] in E. lia. }
  rewrite Erun.
  destruct (Nat.eqb_spec (strlen g) 0) as [E|E].
  - destruct g; [contradiction | discriminate].
  - rewrite advance_append, take_append, match_spaces_gt.
    cbn [run_length advance head_is]. change (is_space ">") with false. cbv iota.
    cbn [advance head_is]. rewrite Ascii.eqb_refl. f_equal. f_equal. lia.
Qed.

(** A pair of angle brackets around a capture is matched again, with the
    same capture. *)
Lemma match_canonical (g tail : string) :
  all_chars not_angle_or_blank g = true -> g <> "" ->
  (strlen g = 1%nat \/ exists c rest, g = String c rest /\ is_space c = false) ->
  match_here template_spaces_re (String "<" (g ++ String ">" tail))
  = Some (S (S (strlen g)), g).
Proof.
  intros Hg Hne Hshape. rewrite match_template_spaces. rewrite Ascii.eqb_refl.
  rewrite match_spaces_arg_spaces_gt.
  assert (Hrun : run_length is_space (g ++ String ">" tail) = 0%nat
                 \/ (run_length is_space (g ++ String ">" tail) = 1%nat
                     /\ strlen g = 1%nat)).
  { destruct g as [|c g']; [contradiction|]. cbn [append run_length].
    destruct (is_space c) eqn:Hs; [|now left].
    destruct Hshape as [H1 | (c' & rest & E & Hc')].
    - right. destruct g'; [|discriminate]. cbn [append run_length].
      split; reflexivity.
    - injection E as -> ->. congruence. }
  destruct Hrun as [-> | [-> H1]].
  - rewrite try_counts_eq. cbn [Nat.ltb Nat.leb advance].
    rewrite match_arg_canonical by assumption. reflexivity.
  - rewrite try_counts_eq. cbn [Nat.ltb Nat.leb].
    destruct g as [|c [|c' g']]; try discriminate.
    cbn [append advance].
    rewrite match_arg_spaces_gt. cbn [run_length].
    change (not_angle_or_blank ">") with false. cbv iota zeta. cbn [Nat.eqb].
    rewrite try_counts_eq. cbn [Nat.ltb Nat.leb advance].
    change (String c (String ">" tail)) with (String c "" ++ String ">" tail).
    rewrite match_arg_canonical by assumption. reflexivity.
Qed.

(** *** The matcher does not look past an angle bracket *)

Lemma angle_not_space (b : ascii) : is_angle b = true -> is_space b = false.
Proof.
  unfold is_angle. intros H. apply orb_prop in H as [H|H];
    apply Ascii.eqb_eq in H; subst; reflexivity.
Qed.

Lemma angle_not_arg (b : ascii) : is_angle b = true -> not_angle_or_blank b = false.
Proof.
  unfold is_angle. intros H. apply orb_prop in H as [H|H];
    apply Ascii.eqb_eq in H; subst; reflexivity.
Qed.

Lemma head_is_local (c b : ascii) (u t t' : string) :
  head_is c (u ++ String b t) = head_is c (u ++ String b t').
Proof. destruct u; reflexivity. Qed.

Lemma match_spaces_gt_local (b : ascii) (u t t' : string) :
  is_angle b = true ->
  match_here [space_star; lit ">"] (u ++ String b t)
  = match_here [space_star; lit ">"] (u ++ String b t').
Proof.
  intros Hb. rewrite !match_spaces_gt.
  rewrite !run_length_stop by now apply angle_not_space.
  rewrite !advance_append_le by apply run_length_le.
  now rewrite (head_is_local ">" b _ t t').
Qed.

Lemma match_arg_local (b : ascii) (u t t' : string) :
  is_angle b = true ->
  match_here [template_arg; space_star; lit ">"] (u ++ String b t)
  = match_here [template_arg; space_star; lit ">"] (u ++ String b t').
Proof.
  intros Hb. rewrite !match_arg_spaces_gt. cbv zeta.
  rewrite !run_length_stop by now apply angle_not_arg.
  rewrite !advance_append_le, !take_append_le by apply run_length_le.
  now rewrite (match_spaces_gt_local b _ t t' Hb).
Qed.

Lemma match_template_local (b : ascii) (u t t' : string) :
  is_angle b = true ->
  match_here template_spaces_re (String "<" (u ++ String b t))
  = match_here template_spaces_re (String "<" (u ++ String b t')).
Proof.
  intros Hb. rewrite !match_template_spaces, !match_spaces_arg_spaces_gt.
  rewrite !run_length_stop by now apply angle_not_space.
  rewrite (try_counts_ext
             (fun k => match match_here [template_arg; space_star; lit ">"]
                               (advance k (u ++ String b t)) with
                       | Some (n, cap) => Some ((k + n)%nat, cap)
                       | None => None
                       end)
             (fun k => match match_here [template_arg; space_star; lit ">"]
                               (advance k (u ++ String b t')) with
                       | Some (n, cap) => Some ((k + n)%nat, cap)
                       | None => None
                       end)); [reflexivity|].
  intros j Hj. pose proof (run_length_le is_space u).
  rewrite !advance_append_le by lia.
  now rewrite (match_arg_local b _ t t' Hb).
Qed.

(** *** [regex_replace] *)

Lemma regex_replace_from_advance (re : regex) (fmt : string -> string) (n : nat)
    (s : string) :
  regex_replace_from re fmt n s = regex_replace_from re fmt 0 (advance n s).
Proof.
  revert n; induction s as [|c t IH]; intros n.
  - destruct n; reflexivity.
  - destruct n as [|n]; [reflexivity|]. cbn [regex_replace_from advance]. apply IH.
Qed.

(** Where the pattern matches nowhere, nothing is replaced. *)
Lemma regex_replace_no_match (re : regex) (fmt : string -> string) (s : string) :
  regex_search re s = false -> regex_replace re fmt s = s.
Proof.
  unfold regex_replace. induction s as [|c t IH]; intros H; [reflexivity|].
  cbn [regex_search] in H. cbn [regex_replace_from].
  destruct (match_here re (String c t)); [discriminate|].
  now rewrite IH.
Qed.

Lemma template_match_head (s : string) (n : nat) (g : string) :
  match_here template_spaces_re s = Some (n, g) ->
  exists r n', s = String "<" r /\ n = S n'
               /\ match_here [space_star; template_arg; space_star; lit ">"] r
                  = Some (n', g).
Proof.
  rewrite match_template_spaces. destruct s as [|c r]; [discriminate|].
  destruct (Ascii.eqb_spec "<" c) as [<-|]; [|discriminate].
  destruct (match_here _ r) as [[n' g']|] eqn:E; [|discriminate].
  intros H. injection H as <- <-. now exists r, n'.
Qed.

Lemma template_no_match_other (c : ascii) (t : string) :
  Ascii.eqb "<" c = false -> match_here template_spaces_re (String c t) = None.
Proof. intros H. rewrite match_template_spaces. now rewrite H. Qed.

Lemma template_replace_match (r : string) (n : nat) (g : string) :
  match_here template_spaces_re (String "<" r) = Some (S n, g) ->
  regex_replace template_spaces_re angle_group (String "<" r)
  = String "<" (g ++ String ">"
                       (regex_replace template_spaces_re angle_group (advance n r))).
Proof.
  intros H. unfold regex_replace. cbn [regex_replace_from]. rewrite H.
  rewrite regex_replace_from_advance. unfold angle_group.
  cbn [append]. now rewrite append_assoc.
Qed.

Lemma template_replace_no_match (c : ascii) (t : string) :
  match_here template_spaces_re (String c t) = None ->
  regex_replace template_spaces_re angle_group (String c t)
  = String c (regex_replace template_spaces_re angle_group t).
Proof. intros H. unfold regex_replace. cbn [regex_replace_from]. now rewrite H. Qed.

(** Text without ['<'] is copied. *)
Lemma template_replace_copy (u rest : string) :
  all_chars (fun c => negb (is_angle c)) u = true ->
  regex_replace template_spaces_re angle_group (u ++ rest)
  = u ++ regex_replace template_spaces_re angle_group rest.
Proof.
  induction u as [|c u IH]; intros H; [reflexivity|].
  cbn [all_chars] in H. apply andb_prop in H as [Hc Hu].
  cbn [append]. rewrite template_replace_no_match.
  - now rewrite IH.
  - apply template_no_match_other. unfold is_angle in Hc.
    apply negb_true_iff, orb_false_iff in Hc as [Hc _].
    now rewrite Ascii.eqb_sym.
Qed.

(** The replacement keeps an angle bracket at the head of the text. *)
Lemma template_replace_head (b : ascii) (t : string) :
  is_angle b = true ->
  exists t', regex_replace template_spaces_re angle_group (String b t) = String b t'.
Proof.
  intros Hb.
  destruct (match_here template_spaces_re (String b t)) as [[n g]|] eqn:H.
  - destruct (template_match_head _ _ _ H) as (r & n' & E & -> & _).
    injection E as -> ->. rewrite (template_replace_match _ _ _ H). eexists; reflexivity.
  - rewrite (template_replace_no_match _ _ H). eexists; reflexivity.
Qed.

(** A text holds no angle bracket, or splits at its first one. *)
Lemma first_angle (r : string) :
  all_chars (fun c => negb (is_angle c)) r = true
  \/ exists u b t, r = u ++ String b t
                   /\ all_chars (fun c => negb (is_angle c)) u = true
                   /\ is_angle b = true.
Proof.
  induction r as [|c r IH]; [now left|].
  destruct (is_angle c) eqn:Hc.
  - right. now exists "", c, r.
  - destruct IH as [H | (u & b & t & -> & Hu & Hb)].
    + left. cbn [all_chars]. now rewrite Hc, H.
    + right. exists (String c u), b, t. cbn [all_chars append]. now rewrite Hc, Hu.
Qed.

(** The replacement creates no match at a ['<'] that had none. *)
Lemma template_no_match_after_replace (r : string) :
  match_here template_spaces_re (String "<" r) = None ->
  match_here template_spaces_re
    (String "<" (regex_replace template_spaces_re angle_group r)) = None.
Proof.
  intros H. destruct (first_angle r) as [Hr | (u & b & t & -> & Hu & Hb)].
  - pose proof (template_replace_copy r "" Hr) as E.
    rewrite append_nil_r in E. unfold regex_replace at 2 in E.
    cbn [regex_replace_from] in E. rewrite append_nil_r in E. now rewrite E.
  - rewrite (template_replace_copy u _ Hu).
    destruct (template_replace_head b t Hb) as [t' ->].
    now rewrite (match_template_local b u t' t Hb).
Qed.

Lemma template_replace_idempotent_bounded (m : nat) (s : string) :
  (strlen s <= m)%nat ->
  regex_replace template_spaces_re angle_group
    (regex_replace template_spaces_re angle_group s)
  = regex_replace template_spaces_re angle_group s.
Proof.
  revert s; induction m as [|m IH]; intros s Hs.
  - destruct s; [reflexivity | simpl in Hs; lia].
  - destruct s as [|c t]; [reflexivity|].
    assert (Ht : (strlen t <= m)%nat) by (unfold strlen in *; simpl in Hs; lia).
    destruct (match_here template_spaces_re (String c t)) as [[n g]|] eqn:H.
    + destruct (template_match_head _ _ _ H) as (r & n' & E & -> & H1).
      injection E as -> ->.
      destruct (capture_shape _ _ _ H1) as (Hg & Hne & Hshape).
      rewrite (template_replace_match _ _ _ H).
      rewrite (template_replace_match _ (S (strlen g)) g)
        by now apply match_canonical.
      replace (S (strlen g)) with (strlen g + 1)%nat by lia.
      rewrite advance_add, advance_append. cbn [advance].
      rewrite IH; [reflexivity|].
      pose proof (strlen_advance_le n' r). lia.
    + rewrite (template_replace_no_match _ _ H).
      rewrite template_replace_no_match.
      * now rewrite IH.
      * destruct (Ascii.eqb_spec "<" c) as [<-|Hc].
        -- now apply template_no_match_after_replace.
        -- apply template_no_match_other. now apply Ascii.eqb_neq.
Qed.

(** The second pattern's replacement is idempotent. *)
Lemma template_replace_idempotent (s : string) :
  regex_replace template_spaces_re angle_group
    (regex_replace template_spaces_re angle_group s)
  = regex_replace template_spaces_re angle_group s.
Proof. apply (template_replace_idempotent_bounded (strlen s)). lia. Qed.

(** ** [prettify_stacktrace] *)

Lemma replace_loop_no_key (fuel : nat) (first second s : string) :
  find first s = None -> replace_loop fuel first second s = Some s.
Proof. intros H. destruct fuel; cbn [replace_loop]; now rewrite H. Qed.

Lemma replace_list_no_key (fuel : nat) (l : list (string * string)) (s : string) :
  forallb (fun p => match find (fst p) s with None => true | Some _ => false end) l = true ->
  replace_list fuel l s = Some s.
Proof.
  induction l as [|p l IH]; intros H; [reflexivity|].
  cbn [forallb] in H. apply andb_prop in H as [Hp Hl].
  cbn [replace_list]. rewrite replace_loop_no_key.
  - now apply IH.
  - destruct (find (fst p) s); [discriminate | reflexivity].
Qed.

(** C5 (counterexample). A first pass leaves an allocator argument that a
    second pass removes; likewise a first pass can leave a calling
    convention decoration that only a second pass strips. *)
Lemma prettify_second_pass_differs :
  prettify_stacktrace 8 libcxx "f(A<int, std::allocator<int, std::allocator<char> > >)"
  = Some "f(A<int, std::allocator<int> >)"
  /\ prettify_stacktrace 8 libcxx "f(A<int, std::allocator<int> >)" = Some "f(A<int>)"
  /\ prettify_stacktrace 8 libcxx "__thisc__cdecl all f()" = Some "__thiscall f()"
  /\ prettify_stacktrace 8 libcxx "__thiscall f()" = Some "f()".
Proof. repeat split; vm_compute; reflexivity. Qed.

(** C5 (amended). When the prettified text [y] of [x] holds no key of
    [REPLACE_LIST] and no match of the allocator pattern, a second pass
    returns [y] itself, whatever bound is put on its loops: the replacement
    of the template-space pattern is idempotent on its own. *)
Theorem prettify_idempotent_when_settled (fuel : nat) (pf : Platform) (x y : string) :
  prettify_stacktrace fuel pf x = Some y ->
  no_replace_key pf y = true ->
  regex_search std_allocator_re y = false ->
  forall fuel', prettify_stacktrace fuel' pf y = Some y.
Proof.
  unfold prettify_stacktrace. intros H Hkeys Halloc fuel'.
  destruct (replace_list fuel (REPLACE_LIST pf) x) as [z|]; [|discriminate].
  injection H as H.
  rewrite (replace_list_no_key fuel' (REPLACE_LIST pf) y Hkeys).
  rewrite (regex_replace_no_match std_allocator_re _ y Halloc).
  f_equal. rewrite <- H. apply template_replace_idempotent.
Qed.

Lemma prettify_idempotent_when_settled_witness :
  prettify_stacktrace 1 libcxx "foo(std::vector<std::string>)"
  = Some "foo(std::vector<std::string>)".
Proof.
  apply (prettify_idempotent_when_settled 8 libcxx
           "foo(std::__1::vector<std::__1::basic_string<char, std::__1::char_traits<char>, std::__1::allocator<char> >, std::__1::allocator<std::__1::basic_string<char, std::__1::char_traits<char>, std::__1::allocator<char> > > >)"
           "foo(std::vector<std::string>)");
    vm_compute; reflexivity.
Defined.

(** *** The loops over [REPLACE_LIST] end *)

Lemma starts_with_strlen (pat s : string) :
  starts_with pat s = true -> (strlen pat <= strlen s)%nat.
Proof.
  revert s; induction pat as [|a pat IH]; intros s H; [simpl; lia|].
  destruct s as [|b s]; [discriminate|]. cbn [starts_with] in H.
  apply andb_prop in H as [_ H]. specialize (IH s H). unfold strlen in *. simpl. lia.
Qed.

Lemma find_bound (pat s : string) (i : nat) :
  find pat s = Some i -> (i + strlen pat <= strlen s)%nat.
Proof.
  revert i; induction s as [|c s IH]; intros i H.
  - cbn [find] in H. destruct (starts_with pat "") eqn:E; [|discriminate].
    injection H as <-. apply starts_with_strlen in E. lia.
  - cbn [find] in H. destruct (starts_with pat (String c s)) eqn:E.
    + injection H as <-. apply starts_with_strlen in E. lia.
    + destruct (find pat s) as [j|]; [|discriminate]. injection H as <-.
      specialize (IH j eq_refl). unfold strlen in *. simpl. lia.
Qed.

Lemma strlen_take (n : nat) (s : string) : strlen (take n s) = Nat.min n (strlen s).
Proof.
  revert s; induction n as [|n IH]; intros s; [reflexivity|].
  destruct s as [|c s]; [reflexivity|]. unfold strlen in *. simpl. now rewrite IH.
Qed.

Lemma strlen_advance (n : nat) (s : string) : strlen (advance n s) = (strlen s - n)%nat.
Proof.
  revert s; induction n as [|n IH]; intros s; [simpl; lia|].
  destruct s as [|c s]; [reflexivity|]. unfold strlen in *. simpl. apply IH.
Qed.

Lemma strlen_replace (first second s : string) (i : nat) :
  find first s = Some i ->
  (strlen (replace i (strlen first) second s) + strlen first
   = strlen s + strlen second)%nat.
Proof.
  intros H. apply find_bound in H. unfold replace.
  rewrite !strlen_append, strlen_take, strlen_advance. lia.
Qed.

Lemma replace_loop_returns (first second : string) :
  (strlen second < strlen first)%nat ->
  forall fuel s, (strlen s <= fuel)%nat ->
  exists r, replace_loop fuel first second s = Some r
            /\ (strlen r <= strlen s)%nat /\ find first r = None.
Proof.
  intros Hlt. induction fuel as [|fuel IH]; intros s Hs.
  - cbn [replace_loop]. destruct (find first s) as [i|] eqn:E.
    + apply find_bound in E. lia.
    + exists s. auto.
  - cbn [replace_loop]. destruct (find first s) as [i|] eqn:E.
    + pose proof (strlen_replace first second s i E) as Hr.
      destruct (IH (replace i (strlen first) second s) ltac:(lia)) as (r & -> & Hl & Hn).
      exists r. repeat split; auto. lia.
    + exists s. auto.
Qed.

Lemma replace_list_returns (l : list (string * string)) :
  forallb (fun p => (strlen (snd p) <? strlen (fst p))%nat) l = true ->
  forall fuel s, (strlen s <= fuel)%nat ->
  exists r, replace_list fuel l s = Some r /\ (strlen r <= strlen s)%nat.
Proof.
  induction l as [|p l IH]; intros H fuel s Hs.
  - exists s. auto.
  - cbn [forallb] in H. apply andb_prop in H as [Hp Hl].
    apply Nat.ltb_lt in Hp.
    destruct (replace_loop_returns (fst p) (snd p) Hp fuel s Hs) as (r & E & Hr & _).
    destruct (IH Hl fuel r ltac:(lia)) as (r' & E' & Hr').
    exists r'. cbn [replace_list]. rewrite E. split; [exact E' | lia].
Qed.

(** X5. On a platform whose string names are longer than their aliases,
    [prettify_stacktrace] returns a text for every input: no loop over
    [REPLACE_LIST] needs more replacements than the input has characters. *)
Theorem prettify_stacktrace_returns (pf : Platform) (x : string) (fuel : nat) :
  shrinking pf = true -> (strlen x <= fuel)%nat ->
  exists y, prettify_stacktrace fuel pf x = Some y.
Proof.
  intros Hpf Hfuel. unfold prettify_stacktrace.
  destruct (replace_list_returns (REPLACE_LIST pf) Hpf fuel x Hfuel) as (r & -> & _).
  eexists. reflexivity.
Qed.

Lemma prettify_stacktrace_returns_witness :
  exists y, prettify_stacktrace 22 libcxx "3   0x1 foo<int > + 12" = Some y.
Proof.
  apply (prettify_stacktrace_returns libcxx "3   0x1 foo<int > + 12" 22).
  - vm_compute. reflexivity.
  - vm_compute. lia.
Defined.

(** Where the name of a string type already is its alias, the loop that
    replaces it never ends on a text that holds the name. *)
Lemma replace_loop_alias_never_ends (fuel : nat) :
  replace_loop fuel "std::string" "std::string" "f(std::string)" = None.
Proof.
  induction fuel as [|fuel IH]; [reflexivity|].
  change (replace_loop (S fuel) "std::string" "std::string" "f(std::string)")
    with (replace_loop fuel "std::string" "std::string" "f(std::string)").
  exact IH.
Qed.

(** ** The fatal path *)

Lemma starts_with_split (pat s : string) :
  starts_with pat s = true -> s = pat ++ advance (strlen pat) s.
Proof.
  revert s; induction pat as [|a pat IH]; intros s H; [reflexivity|].
  destruct s as [|b s]; [discriminate H|]. cbn [starts_with] in H.
  apply andb_prop in H as [Hab H]. apply Ascii.eqb_eq in Hab. subst b.
  cbn. f_equal. now apply IH.
Qed.

Lemma find_split (pat s : string) (i : nat) :
  find pat s = Some i -> s = take i s ++ pat ++ advance (i + strlen pat) s.
Proof.
  revert i; induction s as [|c s IH]; intros i H.
  - cbn [find] in H. destruct (starts_with pat "") eqn:E; [|discriminate H].
    injection H as <-. now apply starts_with_split.
  - cbn [find] in H. destruct (starts_with pat (String c s)) eqn:E.
    + injection H as <-. now apply starts_with_split.
    + destruct (find pat s) as [j|]; [|discriminate H]. injection H as <-.
      cbn [take advance Nat.add append]. f_equal. now apply IH.
Qed.

(** A loop that replaces a text by itself never ends on an input that holds
    the text. *)
Lemma replace_loop_same_never_ends (first output : string) (fuel : nat) :
  find first output <> None -> replace_loop fuel first first output = None.
Proof.
  intros H. induction fuel as [|fuel IH]; cbn [replace_loop];
    destruct (find first output) as [it|] eqn:E; try contradiction; [reflexivity|].
  unfold replace. now rewrite <- (find_split first output it E).
Qed.

(** [stacktrace] returns a text on a platform whose string names are longer
    than their aliases, when the bound covers the length of the rendered
    frames. *)
Lemma stacktrace_returns (st : State) (skip : Z) :
  shrinking (env_platform (env st)) = true ->
  (strlen (env_stacktrace (env st) (skip + 1)) <= env_fuel (env st))%nat ->
  exists trace, stacktrace st skip = Some trace.
Proof.
  intros Hpf Hfuel. unfold stacktrace, stacktrace_as_stdstring, prettify_stacktrace.
  destruct (replace_list_returns (REPLACE_LIST (env_platform (env st))) Hpf
              (env_fuel (env st)) (env_stacktrace (env st) (skip + 1)) Hfuel)
    as (r & -> & _).
  eexists. reflexivity.
Qed.

(** X3. [log_and_abort] with the threshold at [ERROR] or above. Once
    [stacktrace] has returned the text [trace], the process terminates and
    its trace is extended by the stack trace as one ERROR message (when
    [trace] is not empty), then one FATAL message with [expr] as prefix and
    the rendered text as body, then the call of the fatal handler when one
    is set, then [abort]. While [stacktrace] has not returned nothing is
    printed. [stacktrace] returns on a platform whose string names are
    longer than their aliases, when the bound on the replacements covers
    the length of the rendered frames. *)
Theorem log_and_abort_sequence (skip : Z) (expr file : string) (line : Z) (text : string)
    (st : State) :
  ERROR <= g_verbosity st ->
  let fatal_events :=
    message_events (make_message st FATAL file line expr text) (s_callbacks st) in
  let handler_events :=
    match s_fatal_handler st with
    | Some h => [EvFatalHandler h]
    | None => []
    end in
  (forall trace,
      stacktrace st (skip + 2) = Some trace ->
      let trace_events :=
        if (strlen trace =? 0)%nat then []
        else message_events
               (make_message st ERROR __FILE__ 1207 "" ("Stack trace:" ++ nl ++ trace))
               (s_callbacks st) in
      log_and_abort skip expr file line text st
      = Terminated
          (append_events
             (trace_events ++ fatal_events ++ handler_events ++ [EvAbort])%list st))
  /\ (stacktrace st (skip + 2) = None ->
      log_and_abort skip expr file line text st = Looping st)
  /\ (shrinking (env_platform (env st)) = true ->
      (strlen (env_stacktrace (env st) (skip + 3)) <= env_fuel (env st))%nat ->
      exists trace, stacktrace st (skip + 2) = Some trace).
Proof.
  intros Hv fatal_events handler_events. split; [|split].
  - intros trace Ht trace_events.
    rewrite (log_and_abort_trace skip expr file line text st trace Ht).
    unfold abort_events. fold fatal_events handler_events.
    replace (g_verbosity st <? ERROR) with false by (symmetry; apply Z.ltb_ge; exact Hv).
    rewrite orb_false_r. reflexivity.
  - intros Ht. unfold log_and_abort. now rewrite Ht.
  - intros Hpf Hfuel. apply stacktrace_returns; [exact Hpf|].
    replace (skip + 2 + 1) with (skip + 3) by lia. exact Hfuel.
Qed.

Lemma log_and_abort_sequence_witness :
  exists st',
    log_and_abort 0 "CHECK FAILED:  x != nullptr  " "main.cpp" 12 "x was null"
      (initial_state (sample_env "0   0x1 main + 12" (fun _ => None) 7) 0 [screen_sink])
    = Terminated st'
    /\ List.length (invocations (events st')) = 2%nat.
Proof.
  eexists. split.
  - apply (proj1 (log_and_abort_sequence 0 "CHECK FAILED:  x != nullptr  " "main.cpp" 12
                    "x was null"
                    (initial_state (sample_env "0   0x1 main + 12" (fun _ => None) 7) 0
                       [screen_sink])
                    ltac:(unfold ERROR; simpl; lia))
             "0   0x1 main + 12").
    vm_compute. reflexivity.
  - reflexivity.
Defined.

(** X29. Where the platform's name of [std::string] already is the alias
    ["std::string"] and the rendered frames hold that name, the first loop
    of [prettify_stacktrace] replaces the name by itself for ever: the
    prettifier does not return whatever the bound on its replacements, and
    [log_and_abort] prints nothing and does not reach [abort]. *)
Theorem log_and_abort_loops_on_alias (skip : Z) (expr file : string) (line : Z)
    (text : string) (st : State) :
  string_name (env_platform (env st)) = "std::string" ->
  find "std::string" (env_stacktrace (env st) (skip + 3)) <> None ->
  (forall fuel,
      prettify_stacktrace fuel (env_platform (env st)) (env_stacktrace (env st) (skip + 3))
      = None)
  /\ log_and_abort skip expr file line text st = Looping st.
Proof.
  intros Hn Hf.
  assert (P : forall fuel,
             prettify_stacktrace fuel (env_platform (env st))
               (env_stacktrace (env st) (skip + 3)) = None).
  { intros fuel. unfold prettify_stacktrace, REPLACE_LIST. cbn [replace_list fst snd].
    rewrite Hn. now rewrite replace_loop_same_never_ends. }
  split; [exact P|].
  unfold log_and_abort, stacktrace, stacktrace_as_stdstring.
  replace (skip + 2 + 1) with (skip + 3) by lia. now rewrite P.
Qed.

Lemma log_and_abort_loops_on_alias_witness :
  let st := initial_state
              (on_platform alias_platform 4096
                 (sample_env "0   0x1 f(std::string) + 4" (fun _ => None) 7))
              0 [screen_sink] in
  log_and_abort 0 "ABORT: " "main.cpp" 12 "stop" st = Looping st.
Proof.
  intros st.
  apply (proj2 (log_and_abort_loops_on_alias 0 "ABORT: " "main.cpp" 12 "stop" st
                  eq_refl ltac:(vm_compute; discriminate))).
Defined.

(** ** Check macros *)

Lemma last_app_one {A : Type} (l : list A) (x d : A) : last (l ++ [x]) d = x.
Proof.
  induction l as [|y l IH]; [reflexivity|].
  cbn [app]. destruct (l ++ [x])%list eqn:E; [now destruct l|].
  cbn [last]. exact IH.
Qed.

Lemma abort_events_fatal (st : State) (trace expr file : string) (line : Z)
    (text : string) :
  let fatal := make_message st FATAL file line expr text in
  exists before after,
    abort_events st trace expr file line text
    = (before ++ EvFprintf Stderr (message_line fatal) :: EvFflush Stderr
              :: dispatch_events fatal (s_callbacks st) ++ after ++ [EvAbort])%list.
Proof.
  intros fatal. unfold abort_events. fold fatal.
  match goal with |- exists before after, (?b ++ _ ++ ?a ++ _)%list = _ => exists b, a end.
  unfold message_events. change (message_stream fatal) with Stderr.
  cbn [app]. reflexivity.
Qed.

(** X6. [ABORT_F] and the check macros on [int] operands. A check that
    holds returns and leaves the state, trace included, untouched. [ABORT_F]
    and a check that fails never return: their outcome is that of the fatal
    path, with the prefix ["ABORT: "] or ["CHECK FAILED:  <info>  "] (for
    [CHECK_OP_F] the operands as written, then their values in
    parentheses); the body of the FATAL message is the message given,
    [" "] for [CHECK_F] without one and empty for [CHECK_OP_F] without one.
    On the fatal path the process terminates once [stacktrace] has returned
    a text: the FATAL line is then written to [stderr] and dispatched at
    every threshold, and [abort] is the last event; while [stacktrace] has
    not returned the state is untouched. *)
Theorem check_macros_outcome (st : State) (file : string) (line : Z) :
  (forall text,
      ABORT_F file line text st = fatal_outcome st 0 "ABORT: " file line text)
  /\ (forall test_str text, CHECK_F true test_str file line text st = Returns tt st)
  /\ (forall test_str text,
         CHECK_F false test_str file line text st
         = fatal_outcome st
             (match text with Some _ => 0 | None => 1 end)
             ("CHECK FAILED:  " ++ test_str ++ "  ") file line
             (match text with Some text => text | None => " " end))
  /\ (forall expr_left expr_right op a b text,
         CHECK_OP_F expr_left expr_right op a b file line text st
         = if op_holds op a b then Returns tt st
           else fatal_outcome st 0
                  ("CHECK FAILED:  " ++ expr_left ++ " " ++ op_str op ++ " "
                   ++ expr_right ++ "  (" ++ dec a ++ " " ++ op_str op ++ " "
                   ++ dec b ++ ")  ")
                  file line
                  (match text with Some text => text | None => "" end))
  /\ (forall a b,
         (op_holds OpEQ a b = true <-> a = b) /\ (op_holds OpNE a b = true <-> a <> b)
         /\ (op_holds OpLT a b = true <-> a < b) /\ (op_holds OpGT a b = true <-> a > b)
         /\ (op_holds OpLE a b = true <-> a <= b) /\ (op_holds OpGE a b = true <-> a >= b))
  /\ (forall skip expr text,
         match stacktrace st (skip + 2) with
         | Some trace =>
             let fatal := make_message st FATAL file line expr text in
             exists before after,
               @fatal_outcome unit st skip expr file line text
               = Terminated
                   (append_events
                      (before ++ EvFprintf Stderr (message_line fatal) :: EvFflush Stderr
                       :: dispatch_events fatal (s_callbacks st) ++ after ++ [EvAbort])%list
                      st)
         | None => @fatal_outcome unit st skip expr file line text = Looping st
         end).
Proof.
  split; [intros text; apply log_and_abort_outcome|].
  split; [reflexivity|]. split; [|split; [|split]].
  - intros test_str [text|]; unfold CHECK_F, CHECK_WITH_INFO_F, log_and_abort_no_message;
      rewrite log_and_abort_outcome; unfold fatal_outcome, noreturn.
    + now destruct (stacktrace st (0 + 2)).
    + change (0 + 1) with 1. now destruct (stacktrace st (1 + 2)).
  - intros expr_left expr_right op a b text. unfold CHECK_OP_F.
    destruct (op_holds op a b); [reflexivity|].
    rewrite log_and_abort_outcome. unfold fatal_outcome, noreturn, check_op_info.
    now destruct (stacktrace st (0 + 2)).
  - intros a b. unfold op_holds. repeat split; intros H.
    + now apply Z.eqb_eq.
    + now apply Z.eqb_eq.
    + apply negb_true_iff in H. now apply Z.eqb_neq.
    + apply negb_true_iff. now apply Z.eqb_neq.
    + now apply Z.ltb_lt.
    + now apply Z.ltb_lt.
    + apply Z.gtb_lt in H. lia.
    + apply Z.gtb_lt. lia.
    + now apply Z.leb_le.
    + now apply Z.leb_le.
    + apply Z.geb_le in H. lia.
    + apply Z.geb_le. lia.
  - intros skip expr text. unfold fatal_outcome.
    destruct (stacktrace st (skip + 2)) as [trace|]; [|reflexivity].
    cbv zeta.
    pose proof (abort_events_fatal st trace expr file line text) as E. cbv zeta in E.
    destruct E as (before & after & E).
    exists before, after. now rewrite E.
Qed.

(** ** The command line *)

Lemma with_verbosity_twice (v v' : Verbosity) (st : State) :
  with_verbosity v (with_verbosity v' st) = with_verbosity v st.
Proof. reflexivity. Qed.

Lemma with_verbosity_same (st : State) : with_verbosity (g_verbosity st) st = st.
Proof. now destruct st. Qed.

Lemma subsequence_refl {A : Type} (l : list A) : subsequence l l.
Proof. induction l; constructor; assumption. Qed.

Lemma subsequence_length {A : Type} (l l' : list A) :
  subsequence l l' -> (List.length l <= List.length l')%nat.
Proof. induction 1; simpl; lia. Qed.

Lemma noreturn_outcome {A : Type} (o : Outcome Empty_set) :
  (exists st, @noreturn A o = Terminated st) \/ (exists st, @noreturn A o = Looping st).
Proof. destruct o as [e|st|st]; [destruct e | left; now exists st | right; now exists st]. Qed.

(** One step of the loop of [parse_args] on an argument that is no
    verbosity option. *)
Lemma parse_args_loop_keep (argc arg_it : Z) (cmd : string) (rest kept : list string)
    (st : State) :
  is_verbosity_option cmd = false ->
  parse_args_loop argc arg_it (cmd :: rest) kept st
  = parse_args_loop argc (arg_it + 1) rest (cmd :: kept) st.
Proof.
  intros H. cbn [parse_args_loop]. unfold is_verbosity_option in H. now rewrite H.
Qed.

(** What the loop of [parse_args] keeps invariant. *)
Lemma parse_args_loop_frame (n : nat) :
  forall (args kept : list string) (argc arg_it : Z) (st st' : State) (out : list string),
    (List.length args <= n)%nat ->
    parse_args_loop argc arg_it args kept st = Returns out st' ->
    exists kept',
      out = (rev kept ++ kept')%list
      /\ subsequence kept' args
      /\ Forall (fun cmd => is_verbosity_option cmd = false) kept'
      /\ st' = with_verbosity (g_verbosity st') st.
Proof.
  induction n as [|n IH]; intros args kept argc arg_it st st' out Hn H.
  - destruct args; [|simpl in Hn; lia]. cbn in H. injection H as <- <-.
    exists []. rewrite app_nil_r. repeat split; try constructor.
    symmetry. apply with_verbosity_same.
  - destruct args as [|cmd rest].
    { cbn in H. injection H as <- <-.
      exists []. rewrite app_nil_r. repeat split; try constructor.
      symmetry. apply with_verbosity_same. }
    simpl in Hn.
    destruct (is_verbosity_option cmd) eqn:Hopt.
    + cbn [parse_args_loop] in H. unfold is_verbosity_option in Hopt. rewrite Hopt in H.
      destruct (strlen (advance 2 cmd) =? 0)%nat.
      * destruct rest as [|value rest'].
        { match type of H with
          | noreturn ?o = _ => destruct (@noreturn_outcome (list string) o) as [[s E]|[s E]]
          end.
          all: rewrite E in H; discriminate H. }
        apply IH in H; [|simpl in Hn; lia].
        destruct H as (kept' & E & S & F & V).
        exists kept'. repeat split; auto.
        now do 2 constructor.
      * apply IH in H; [|lia].
        destruct H as (kept' & E & S & F & V).
        exists kept'. repeat split; auto.
        now constructor.
    + rewrite parse_args_loop_keep in H by exact Hopt.
      apply IH in H; [|lia].
      destruct H as (kept' & E & S & F & V).
      exists (cmd :: kept'). repeat split; auto.
      * rewrite E. cbn [rev]. now rewrite <- app_assoc.
      * now constructor.
Qed.

(** [parse_args] that returns has changed the threshold only. *)
Lemma parse_args_keeps_other_arguments_frame (argv argv' : list string) (st st' : State) :
  parse_args argv st = Returns argv' st' -> st' = with_verbosity (g_verbosity st') st.
Proof.
  intros H. unfold parse_args in H. destruct argv as [|argv0 args].
  { match type of H with
    | noreturn ?o = _ => destruct (@noreturn_outcome (list string) o) as [[s E]|[s E]]
    end.
    all: rewrite E in H; discriminate H. }
  destruct (parse_args_loop _ 1 args [] st) as [out st1|st1|st1] eqn:E; [|discriminate H..].
  injection H as <- <-.
  apply (parse_args_loop_frame (List.length args)) in E; [|lia].
  now destruct E as (kept' & _ & _ & _ & V).
Qed.

(** X7. Whenever [parse_args] returns, [argv[0]] is kept, the arguments
    that follow it afterwards are arguments of the call in their order,
    none of them is a verbosity option, [argc] has not grown, and nothing
    of the state has changed but the threshold [g_verbosity]: nothing is
    printed. *)
Theorem parse_args_keeps_other_arguments (argv argv' : list string) (st st' : State) :
  parse_args argv st = Returns argv' st' ->
  exists argv0 args args',
    argv = argv0 :: args
    /\ argv' = argv0 :: args'
    /\ subsequence args' args
    /\ Forall (fun cmd => is_verbosity_option cmd = false) args'
    /\ (List.length argv' <= List.length argv)%nat
    /\ st' = with_verbosity (g_verbosity st') st
    /\ events st' = events st.
Proof.
  intros H. unfold parse_args in H. destruct argv as [|argv0 args].
  { match type of H with
    | noreturn ?o = _ => destruct (@noreturn_outcome (list string) o) as [[s E]|[s E]]
    end.
    all: rewrite E in H; discriminate H. }
  destruct (parse_args_loop _ 1 args [] st) as [out st1|st1|st1] eqn:E; [|discriminate H..].
  injection H as <- <-.
  apply (parse_args_loop_frame (List.length args)) in E; [|lia].
  destruct E as (kept' & -> & S & F & V).
  exists argv0, args, kept'. cbn [rev app].
  repeat split; auto.
  - apply subsequence_length in S. simpl. lia.
  - rewrite V. reflexivity.
Qed.

Lemma parse_args_keeps_other_arguments_witness :
  exists argv0 args args',
    ["./app"; "-v"; "-2"; "input.txt"; "-v=3"; "-verbose"] = argv0 :: args
    /\ ["./app"; "input.txt"; "-verbose"] = argv0 :: args'
    /\ subsequence args' args
    /\ Forall (fun cmd => is_verbosity_option cmd = false) args'
    /\ (3 <= 6)%nat
    /\ with_verbosity 3 (initial_state quiet_env 0 [])
       = with_verbosity 3 (initial_state quiet_env 0 [])
    /\ events (with_verbosity 3 (initial_state quiet_env 0 [])) = [].
Proof.
  exact (parse_args_keeps_other_arguments
           ["./app"; "-v"; "-2"; "input.txt"; "-v=3"; "-verbose"]
           ["./app"; "input.txt"; "-verbose"]
           (initial_state quiet_env 0 [])
           (with_verbosity 3 (initial_state quiet_env 0 []))
           eq_refl).
Defined.

(** The loop on arguments that hold no verbosity option keeps them all. *)
Lemma parse_args_loop_no_option (args : list string) :
  forall (kept : list string) (argc arg_it : Z) (st : State),
    forallb (fun cmd => negb (is_verbosity_option cmd)) args = true ->
    parse_args_loop argc arg_it args kept st = Returns (rev kept ++ args)%list st.
Proof.
  induction args as [|cmd rest IH]; intros kept argc arg_it st H.
  - cbn. now rewrite app_nil_r.
  - cbn [forallb] in H. apply andb_prop in H as [Hc Hr]. apply negb_true_iff in Hc.
    rewrite parse_args_loop_keep by exact Hc. rewrite IH by exact Hr.
    cbn [rev]. now rewrite <- app_assoc.
Qed.

(** The loop continues after arguments that hold no verbosity option. *)
Lemma parse_args_loop_skip (args : list string) :
  forall (more kept : list string) (argc arg_it : Z) (st : State),
    forallb (fun cmd => negb (is_verbosity_option cmd)) args = true ->
    parse_args_loop argc arg_it (args ++ more)%list kept st
    = parse_args_loop argc (arg_it + Z.of_nat (List.length args)) more
        (rev args ++ kept)%list st.
Proof.
  induction args as [|cmd rest IH]; intros more kept argc arg_it st H.
  - cbn. now rewrite Z.add_0_r.
  - cbn [forallb] in H. apply andb_prop in H as [Hc Hr]. apply negb_true_iff in Hc.
    cbn [app]. rewrite parse_args_loop_keep by exact Hc. rewrite IH by exact Hr.
    cbn [rev List.length]. rewrite <- app_assoc. f_equal. lia.
Qed.

(** X8. A command line without verbosity option is left as it is: [argv]
    and the whole state are unchanged. *)
Theorem parse_args_without_option (argv0 : string) (args : list string) (st : State) :
  forallb (fun cmd => negb (is_verbosity_option cmd)) args = true ->
  parse_args (argv0 :: args) st = Returns (argv0 :: args) st.
Proof.
  intros H. unfold parse_args. now rewrite parse_args_loop_no_option.
Qed.

Lemma parse_args_without_option_witness :
  parse_args ["./app"; "-verbose"; "--v"; "in.txt"; "v"] (initial_state quiet_env 0 [])
  = Returns ["./app"; "-verbose"; "--v"; "in.txt"; "v"] (initial_state quiet_env 0 []).
Proof.
  apply (parse_args_without_option "./app" ["-verbose"; "--v"; "in.txt"; "v"]).
  reflexivity.
Defined.

(** X9. A command line whose last argument is [-v] with no value after it
    (and no verbosity option before it): [parse_args] does not return. The
    [CHECK_LT_F] fails with the values of [arg_it] and [argc], both [argc],
    and the outcome is that of the fatal path in the state of the call:
    once [stacktrace] has returned, the process terminates after the FATAL
    message "Missing verbosiy level after -v". *)
Theorem parse_args_missing_value (argv0 : string) (args : list string) (st : State) :
  forallb (fun cmd => negb (is_verbosity_option cmd)) args = true ->
  let argc := Z.of_nat (List.length args) + 2 in
  parse_args (argv0 :: args ++ ["-v"]) st
  = fatal_outcome st 0
      ("CHECK FAILED:  arg_it < argc  (" ++ dec argc ++ " < " ++ dec argc ++ ")  ")
      __FILE__ 743 "Missing verbosiy level after -v".
Proof.
  intros H argc. unfold parse_args.
  rewrite parse_args_loop_skip by exact H.
  cbn [parse_args_loop starts_with String.get advance strlen String.length Nat.eqb
       Ascii.eqb Bool.eqb andb negb].
  rewrite log_and_abort_outcome. unfold check_op_info.
  replace (1 + Z.of_nat (List.length args) + 1) with argc by (unfold argc; lia).
  replace (Z.of_nat (List.length (argv0 :: args ++ ["-v"]))) with argc
    by (unfold argc; cbn [List.length]; rewrite length_app; cbn [List.length]; lia).
  unfold fatal_outcome, noreturn. now destruct (stacktrace st (0 + 2)).
Qed.

Lemma parse_args_missing_value_witness :
  exists st',
    parse_args ["./app"; "in.txt"; "-v"] (initial_state quiet_env 0 []) = Terminated st'
    /\ last (events st') EvAbort = EvAbort.
Proof.
  eexists. split.
  - change ["./app"; "in.txt"; "-v"] with ("./app" :: ["in.txt"] ++ ["-v"])%list.
    rewrite (parse_args_missing_value "./app" ["in.txt"] (initial_state quiet_env 0 [])
               eq_refl).
    unfold fatal_outcome.
    replace (stacktrace (initial_state quiet_env 0 []) (0 + 2)) with (Some "")
      by (vm_compute; reflexivity).
    reflexivity.
  - reflexivity.
Defined.

(** ** [atoi] reads what [%d] prints *)

Lemma atoi_digits_acc (d : Decimal.uint) (acc : positive) :
  atoi_digits (NilEmpty.string_of_uint d) (Z.pos acc) = Z.pos (Pos.of_uint_acc d acc).
Proof.
  revert acc; induction d; intros acc; cbn [NilEmpty.string_of_uint Pos.of_uint_acc];
    [reflexivity|..];
    match goal with
    | |- atoi_digits (String ?c ?s) ?a = _ =>
        change (atoi_digits (String c s) a)
          with (atoi_digits s (10 * a + Z.of_nat (nat_of_ascii c - 48)))
    end;
    match goal with
    | |- atoi_digits _ ?a = Z.pos (Pos.of_uint_acc _ ?b) =>
        replace a with (Z.pos b) by (simpl (Z.of_nat _); lia)
    end; apply IHd.
Qed.

Lemma atoi_digits_uint (d : Decimal.uint) :
  atoi_digits (NilEmpty.string_of_uint d) 0 = Z.of_N (Pos.of_uint d).
Proof.
  induction d; cbn [NilEmpty.string_of_uint Pos.of_uint]; [reflexivity|..];
    match goal with
    | |- atoi_digits (String ?c ?s) ?a = _ =>
        change (atoi_digits (String c s) a)
          with (atoi_digits s (10 * a + Z.of_nat (nat_of_ascii c - 48)))
    end;
    [exact IHd|..];
    match goal with
    | |- atoi_digits _ ?a = Z.of_N (N.pos (Pos.of_uint_acc _ ?b)) =>
        change a with (Z.pos b)
    end; apply atoi_digits_acc.
Qed.

Lemma atoi_digits_pos (p : positive) :
  atoi_digits (NilZero.string_of_uint (Pos.to_uint p)) 0 = Z.pos p.
Proof.
  pose proof (Unsigned.to_uint_nonnil p) as Hn.
  replace (NilZero.string_of_uint (Pos.to_uint p))
    with (NilEmpty.string_of_uint (Pos.to_uint p))
    by (destruct (Pos.to_uint p); [contradiction|reflexivity..]).
  rewrite atoi_digits_uint, Unsigned.of_to. reflexivity.
Qed.

(** A decimal digit. *)
Lemma uint_head (d : Decimal.uint) :
  d <> Decimal.Nil ->
  exists c t, NilZero.string_of_uint d = String c t
              /\ ((48 <=? nat_of_ascii c) && (nat_of_ascii c <=? 57))%nat = true.
Proof.
  intros H. destruct d; [contradiction|..]; eexists; eexists; split; reflexivity.
Qed.

(** The rendering of a number starts with a digit or with the sign. *)
Lemma dec_head (z : Z) :
  exists c t, dec z = String c t
              /\ (c = "-"%char
                  \/ ((48 <=? nat_of_ascii c) && (nat_of_ascii c <=? 57))%nat = true).
Proof.
  unfold dec. destruct z as [|p|p]; cbn [Z.to_int NilZero.string_of_int].
  - exists "0"%char, "". split; [reflexivity | now right].
  - destruct (uint_head (Pos.to_uint p) (Unsigned.to_uint_nonnil p)) as (c & t & E & D).
    exists c, t. split; [exact E | now right].
  - eexists; eexists. split; [reflexivity | now left].
Qed.

Lemma digit_facts (c : ascii) :
  ((48 <=? nat_of_ascii c) && (nat_of_ascii c <=? 57))%nat = true ->
  is_space c = false /\ is_alpha c = false /\ Ascii.eqb "=" c = false
  /\ c <> "-"%char /\ c <> "+"%char.
Proof.
  intros H. apply andb_prop in H as [H1 H2].
  apply Nat.leb_le in H1. apply Nat.leb_le in H2.
  unfold is_space, is_alpha.
  repeat split.
  - destruct (Nat.leb_spec 9 (nat_of_ascii c)), (Nat.leb_spec (nat_of_ascii c) 13),
      (Nat.eqb_spec (nat_of_ascii c) 32); cbn; try reflexivity; lia.
  - destruct (Nat.leb_spec 65 (nat_of_ascii c)), (Nat.leb_spec (nat_of_ascii c) 90),
      (Nat.leb_spec 97 (nat_of_ascii c)), (Nat.leb_spec (nat_of_ascii c) 122);
      cbn; try reflexivity; lia.
  - destruct (Ascii.eqb_spec "=" c) as [<-|]; [cbn in H2; lia | reflexivity].
  - intros ->. cbn in H1. lia.
  - intros ->. cbn in H1. lia.
Qed.

Lemma decimal_value_dec (z : Z) : decimal_value (dec z) = z.
Proof.
  unfold decimal_value, dec. destruct z as [|p|p]; cbn [Z.to_int NilZero.string_of_int].
  - reflexivity.
  - destruct (uint_head (Pos.to_uint p) (Unsigned.to_uint_nonnil p)) as (c & t & E & D).
    pose proof (atoi_digits_pos p) as A. rewrite E in *.
    destruct (digit_facts c D) as (Hs & _ & _ & Hm & Hp).
    cbn [run_length]. rewrite Hs. cbn [advance].
    destruct c as [[] [] [] [] [] [] [] []]; try exact A;
      try (exfalso; apply Hm; reflexivity); exfalso; apply Hp; reflexivity.
  - change (- atoi_digits (NilZero.string_of_uint (Pos.to_uint p)) 0 = Z.neg p).
    rewrite atoi_digits_pos. reflexivity.
Qed.

Lemma atoi_dec (z : Z) : int_range z -> atoi (dec z) = z.
Proof.
  intros H. unfold atoi, strtol. rewrite decimal_value_dec.
  assert (R : Z.max LONG_MIN (Z.min LONG_MAX z) = z).
  { unfold int_range in H. unfold LONG_MIN, LONG_MAX.
    change (2 ^ 31) with 2147483648 in H. change (2 ^ 63) with 9223372036854775808. lia. }
  rewrite R. now apply int_wrap_id.
Qed.

(** X10. [atoi] reads back what [%d] prints, so a threshold can be given
    on the command line as it is shown in the log: for every [int] [v] the
    three forms [-v <v>], [-v<v>] and [-v=<v>] (and [-v =<v>]) set
    [g_verbosity] to [v] and are removed from [argv]. *)
Theorem parse_args_reads_decimal (argv0 : string) (v : Z) (st : State) :
  int_range v ->
  atoi (dec v) = v
  /\ parse_args [argv0; "-v"; dec v] st = Returns [argv0] (with_verbosity v st)
  /\ parse_args [argv0; "-v" ++ dec v] st = Returns [argv0] (with_verbosity v st)
  /\ parse_args [argv0; "-v=" ++ dec v] st = Returns [argv0] (with_verbosity v st)
  /\ parse_args [argv0; "-v"; "=" ++ dec v] st = Returns [argv0] (with_verbosity v st).
Proof.
  intros Hv. pose proof (atoi_dec v Hv) as A.
  destruct (dec_head v) as (c & t & E & D).
  assert (F : is_alpha c = false /\ Ascii.eqb "=" c = false).
  { destruct D as [-> | D]; [split; reflexivity|].
    destruct (digit_facts c D) as (_ & H1 & H2 & _). now split. }
  destruct F as [Fa Fe].
  split; [exact A|].
  assert (He : head_is "=" (String c t) = false) by exact Fe.
  assert (He' : forall s, head_is "=" (String "=" s) = true) by reflexivity.
  unfold parse_args. rewrite E in *.
  cbn [parse_args_loop List.length append starts_with String.get advance strlen
       String.length Nat.eqb Ascii.eqb Bool.eqb andb is_alpha nat_of_ascii].
  rewrite Fa, !He, !He'. cbn [negb andb advance rev]. rewrite A.
  repeat split.
Qed.

Lemma parse_args_reads_decimal_witness :
  parse_args ["./app"; "-v-1"] (initial_state quiet_env 0 [])
  = Returns ["./app"] (with_verbosity (-1) (initial_state quiet_env 0 [])).
Proof.
  apply (parse_args_reads_decimal "./app" (-1) (initial_state quiet_env 0 [])).
  unfold int_range. lia.
Defined.

(** ** Start-up *)

Lemma init_arguments_concat (args : list string) :
  forall (i : Z) (acc : string),
    init_arguments (i + Z.of_nat (List.length args)) i args acc
    = acc ++ String.concat " " args.
Proof.
  induction args as [|arg rest IH]; intros i acc.
  - cbn. now rewrite append_nil_r.
  - cbn [init_arguments].
    replace (i + Z.of_nat (List.length (arg :: rest)))
      with (i + 1 + Z.of_nat (List.length rest)) by (cbn [List.length]; lia).
    rewrite IH. destruct rest as [|arg' rest'].
    + cbn [List.length String.concat]. rewrite Z.add_0_r, Z.ltb_irrefl.
      cbn [String.concat]. now rewrite !append_nil_r.
    + destruct (Z.ltb_spec (i + 1) (i + 1 + Z.of_nat (List.length (arg' :: rest'))))
        as [_|H]; [|cbn [List.length] in H; lia].
      cbn [String.concat]. now rewrite !append_assoc.
Qed.

(** X11. [init] on the command line [argv0 :: args]. [s_file_arguments]
    becomes all the arguments of the call separated by single blanks,
    verbosity options included, and [s_argv0_filename] the file name of
    [argv0]. When [parse_args] does not return neither does [init]. Otherwise
    [init] returns the arguments [parse_args] kept, with the threshold
    [parse_args] read; a thread without name is named "main thread"; the
    column header is printed on [stdout]; the arguments, the threshold and
    a rule are logged at INFO, which happens only when the threshold is
    not negative; and [on_atexit] is registered with [atexit]. *)
Theorem init_outcome (argv0 : string) (args : list string) (p : Process) :
  let argv := argv0 :: args in
  let st0 := with_file_arguments (String.concat " " argv) (globals p) in
  let p0 := with_argv0_filename (filename argv0) p in
  match parse_args argv st0 with
  | Terminated st => init argv0 args p = Exited (with_globals st p0)
  | Looping st => init argv0 args p = Stuck (with_globals st p0)
  | Returns argv' st1 =>
      let v := g_verbosity st1 in
      let st2 :=
        if (strlen (env_thread_name (env st0)) =? 0)%nat
        then with_env (with_thread_name "main thread" (env st0)) (with_verbosity v st0)
        else with_verbosity v st0 in
      let info (line : Z) (text : string) :=
        message_events (make_message st2 INFO __FILE__ line "" text) (s_callbacks st2) in
      init argv0 args p
      = Returned argv'
          (atexit OnAtexit
             (with_globals
                (append_events
                   ([EvFprintf Stdout (PREAMBLE_EXPLAIN ++ nl)%string; EvFflush Stdout]
                    ++ (if 0 <=? v
                        then info 809 ("arguments:       " ++ String.concat " " argv)%string
                             ++ info 810 ("Verbosity level: " ++ dec v)%string
                             ++ info 811 "-----------------------------------"
                        else []))%list st2) p0))
  end.
Proof.
  intros argv st0 p0. unfold init.
  change (Z.of_nat (List.length (argv0 :: args))) with (0 + Z.of_nat (List.length argv)).
  rewrite init_arguments_concat.
  change (EmptyString ++ String.concat " " (argv0 :: args)) with (String.concat " " argv).
  change (globals (with_argv0_filename (filename argv0) p)) with (globals p).
  fold argv. fold st0. fold p0.
  destruct (parse_args argv st0) as [argv' st1|st1|st1] eqn:E; [|reflexivity..].
  apply parse_args_keeps_other_arguments_frame in E.
  set (v := g_verbosity st1) in *. rewrite E.
  set (st2 := if (strlen (env_thread_name (env st0)) =? 0)%nat
              then with_env (with_thread_name "main thread" (env st0)) (with_verbosity v st0)
              else with_verbosity v st0).
  change (env (with_verbosity v st0)) with (env st0).
  assert (Est2 : (if (strlen (env_thread_name (env st0)) =? 0)%nat
                  then pthread_setname_np "main thread" (with_verbosity v st0)
                  else with_verbosity v st0) = st2) by reflexivity.
  rewrite Est2.
  assert (Hv : g_verbosity st2 = v) by (unfold st2; now destruct (_ =? _)%nat).
  assert (Ha : s_file_arguments st2 = String.concat " " argv)
    by (unfold st2; now destruct (_ =? _)%nat).
  unfold fflush, fprintf. rewrite !emit_append_events, append_events_app.
  cbn [app s_file_arguments append_events]. rewrite Ha.
  do 2 f_equal. f_equal.
  assert (G : forall l, g_verbosity (append_events l st2) = v) by (intros l; exact Hv).
  destruct (Z.leb_spec 0 v) as [H0|H0].
  - rewrite (LOG_F_accepted INFO __FILE__ 809) by (rewrite G; exact H0).
    rewrite append_events_app, G.
    rewrite (LOG_F_accepted INFO __FILE__ 810) by (rewrite G; exact H0).
    rewrite append_events_app.
    rewrite (LOG_F_accepted INFO __FILE__ 811) by (rewrite G; exact H0).
    rewrite append_events_app.
    f_equal. rewrite <- !app_assoc. reflexivity.
  - rewrite (LOG_F_rejected INFO __FILE__ 809) by (rewrite G; exact H0).
    rewrite G.
    rewrite (LOG_F_rejected INFO __FILE__ 810) by (rewrite G; exact H0).
    rewrite (LOG_F_rejected INFO __FILE__ 811) by (rewrite G; exact H0).
    reflexivity.
Qed.

(** ** Suggested log path *)

Lemma strlen_snprintf (size : nat) (s : string) :
  (strlen (snprintf size s) <= size - 1)%nat.
Proof. unfold snprintf. rewrite strlen_take. lia. Qed.

Lemma strlen_strncat (dest src : string) (n : nat) :
  (strlen (strncat dest src n) <= strlen dest + n)%nat.
Proof. unfold strncat. rewrite strlen_append, strlen_take. lia. Qed.

Lemma strncat_all (dest src : string) (n : nat) :
  (strlen src <= n)%nat -> strncat dest src n = dest ++ src.
Proof. intros H. unfold strncat. now rewrite take_all. Qed.

(** The part of [suggest_log_path] after the directory is in [buff]. *)
Lemma suggest_log_path_tail_fits (buff argv0 date : string) (buff_size : nat) :
  (strlen buff + 1 < buff_size)%nat ->
  let b1 := strncat buff argv0 (buff_size - strlen buff - 1) in
  let b2 := strncat b1 "/" (buff_size - strlen b1 - 1) in
  let b3 := b2 ++ snprintf (buff_size - strlen b2) date in
  let b4 := strncat b3 ".log" (buff_size - strlen b3 - 1) in
  (strlen b1 < buff_size)%nat /\ (strlen b2 < buff_size)%nat
  /\ (strlen b3 < buff_size)%nat /\ (strlen b4 < buff_size)%nat.
Proof.
  intros H b1 b2 b3 b4.
  pose proof (strlen_strncat buff argv0 (buff_size - strlen buff - 1)) as H1. fold b1 in H1.
  pose proof (strlen_strncat b1 "/" (buff_size - strlen b1 - 1)) as H2. fold b2 in H2.
  assert (H3 : (strlen b3 <= strlen b2 + (buff_size - strlen b2 - 1))%nat).
  { unfold b3. rewrite strlen_append.
    pose proof (strlen_snprintf (buff_size - strlen b2) date). lia. }
  pose proof (strlen_strncat b3 ".log" (buff_size - strlen b3 - 1)) as H4. fold b4 in H4.
  lia.
Qed.

(** X12. [suggest_log_path] never writes past the buffer: for
    [buff_size >= 2], whenever it returns the text in [buff] has fewer than
    [buff_size] characters (the terminating NUL fits), and nothing of the
    process has changed. *)
Theorem suggest_log_path_fits (prefix : string) (buff_size : nat) (p p' : Process)
    (buff : string) :
  (2 <= buff_size)%nat ->
  suggest_log_path prefix buff_size p = Returned buff p' ->
  (strlen buff < buff_size)%nat /\ p' = p.
Proof.
  intros Hs H. unfold suggest_log_path in H.
  set (expanded := if head_is "~" prefix then _ else _) in H.
  assert (E : match expanded with
              | Returned buff0 p0 => (strlen buff0 + 1 < buff_size)%nat /\ p0 = p
              | _ => True
              end).
  { unfold expanded. destruct (head_is "~" prefix).
    - unfold home_dir. destruct (environ p "HOME") as [home|].
      + split; [|reflexivity].
        pose proof (strlen_snprintf (buff_size - 1) (home ++ advance 1 prefix)). lia.
      + unfold exits. destruct (log_and_abort _ _ _ _ _ _) as [[]| |]; exact I.
    - split; [|reflexivity].
      pose proof (strlen_snprintf (buff_size - 1) prefix). lia. }
  destruct expanded as [buff0 p0| |]; [|discriminate H..].
  destruct E as [L0 ->].
  set (terminated := if negb (strlen buff0 =? 0)%nat && negb (ends_in_slash buff0)
                     then _ else _) in H.
  assert (T : match terminated with
              | Returned buff1 p1 => (strlen buff1 + 1 < buff_size)%nat /\ p1 = p
              | _ => True
              end).
  { unfold terminated.
    destruct (negb (strlen buff0 =? 0)%nat && negb (ends_in_slash buff0)).
    - destruct (Nat.ltb_spec (strlen buff0 + 2) buff_size) as [Hn|Hn].
      + split; [|reflexivity]. rewrite strlen_append. simpl (strlen "/"). lia.
      + unfold exits. destruct (log_and_abort _ _ _ _ _ _) as [[]| |]; exact I.
    - now split. }
  destruct terminated as [buff1 p1| |]; [|discriminate H..].
  destruct T as [L1 ->]. injection H as <- <-.
  split; [|reflexivity].
  apply (suggest_log_path_tail_fits buff1 (s_argv0_filename p) (date_time_text (globals p))
           buff_size L1).
Qed.

Lemma suggest_log_path_fits_witness :
  let p := {| globals := initial_state quiet_env 0 []; s_argv0_filename := "app";
              atexit_functions := []; environ := fun _ => None |} in
  (strlen "logs/app/20151024_" < 19)%nat /\ p = p.
Proof.
  intros p.
  apply (suggest_log_path_fits "logs" 19 p p "logs/app/20151024_");
    [lia | reflexivity].
Defined.

Lemma last_char_nonempty (s : string) : s <> "" -> exists c, last_char s = Some c.
Proof.
  induction s as [|c s IH]; intros H; [contradiction|].
  destruct s as [|d s]; [now exists c|].
  destruct IH as [x Hx]; [discriminate|]. exists x. exact Hx.
Qed.

(** X13. When the whole path fits the buffer, [suggest_log_path] writes
    exactly the directory ([prefix], a leading ['~'] replaced by [HOME]),
    a ['/'] unless the directory is empty or ends in one, the file name
    of [argv[0]] as [init] stored it, ['/'], the date and time, and
    [".log"]. *)
Theorem suggest_log_path_exact (prefix dir : string) (buff_size : nat) (p : Process) :
  expanded_prefix p prefix = Some dir ->
  let path := with_slash dir ++ s_argv0_filename p ++ "/"
              ++ date_time_text (globals p) ++ ".log" in
  (strlen path < buff_size)%nat ->
  suggest_log_path prefix buff_size p = Returned path p.
Proof.
  intros Hd path Hfit. subst path.
  set (path := with_slash dir ++ _) in *.
  assert (Hlen : (strlen path
                  = strlen (with_slash dir) + strlen (s_argv0_filename p) + 1
                    + strlen (date_time_text (globals p)) + 4)%nat).
  { unfold path. rewrite !strlen_append. simpl (strlen "/"). simpl (strlen ".log"). lia. }
  rewrite Hlen in Hfit. clear Hlen. subst path.
  assert (Hw : (strlen dir <= strlen (with_slash dir))%nat).
  { unfold with_slash. destruct (_ || _); [lia|]. rewrite strlen_append. lia. }
  unfold suggest_log_path.
  assert (E : (if head_is "~" prefix
               then match home_dir p with
                    | Returned home p0 =>
                        Returned (snprintf (buff_size - 1) (home ++ advance 1 prefix)) p0
                    | Exited p0 => Exited p0
                    | Stuck p0 => Stuck p0
                    end
               else Returned (snprintf (buff_size - 1) prefix) p)
              = Returned dir p).
  { unfold expanded_prefix in Hd. destruct (head_is "~" prefix).
    - unfold home_dir. destruct (environ p "HOME") as [home|]; [|discriminate Hd].
      replace (home ++ advance 1 prefix) with dir by congruence.
      unfold snprintf. rewrite take_all; [reflexivity | lia].
    - replace prefix with dir by congruence.
      unfold snprintf. rewrite take_all; [reflexivity | lia]. }
  rewrite E. clear E.
  assert (T : (if negb (strlen dir =? 0)%nat && negb (ends_in_slash dir)
               then if (strlen dir + 2 <? buff_size)%nat
                    then Returned (dir ++ "/") p
                    else exits p
                           (log_and_abort 0 "CHECK FAILED:  n + 2 < buff_size  " __FILE__ 853
                              "Filename buffer too small" (globals p))
               else Returned dir p)
              = Returned (with_slash dir) p).
  { unfold with_slash in *.
    destruct (strlen dir =? 0)%nat; cbn [negb andb orb] in *; [reflexivity|].
    destruct (ends_in_slash dir); cbn [negb] in *; [reflexivity|].
    rewrite strlen_append in Hfit. simpl (strlen "/") in *.
    destruct (Nat.ltb_spec (strlen dir + 2) buff_size); [reflexivity | lia]. }
  rewrite T. clear T.
  set (d := with_slash dir) in *.
  rewrite (strncat_all d) by lia.
  rewrite (strncat_all (d ++ s_argv0_filename p))
    by (rewrite strlen_append; simpl (strlen "/"); lia).
  assert (W : write_date_time
                (buff_size - strlen ((d ++ s_argv0_filename p) ++ "/")) (globals p)
              = date_time_text (globals p)).
  { unfold write_date_time, snprintf. apply take_all.
    rewrite !strlen_append. simpl (strlen "/"). lia. }
  rewrite W.
  rewrite strncat_all
    by (rewrite !strlen_append; simpl (strlen "/"); simpl (strlen ".log"); lia).
  now rewrite !append_assoc.
Qed.

Lemma suggest_log_path_exact_witness :
  let p := {| globals := initial_state quiet_env 0 []; s_argv0_filename := "app";
              atexit_functions := [];
              environ := fun name => if String.eqb name "HOME" then Some "/home/ada"
                                     else None |} in
  suggest_log_path "~/loguru/" 1024 p
  = Returned "/home/ada/loguru/app/20151024_123456.789.log" p.
Proof.
  intros p.
  apply (suggest_log_path_exact "~/loguru/" "/home/ada/loguru/" 1024 p);
    [reflexivity | vm_compute; lia].
Defined.

(** X14. The two ways [suggest_log_path] does not return: a prefix that
    starts with ['~'] while [HOME] is not set ("Missing HOME"), and a
    directory, cut to [buff_size - 2] characters, that is not empty, does
    not end in ['/'] and leaves no room for the ['/'] ("Filename buffer
    too small"). In both the outcome is that of the fatal path in the
    globals of the process: once [stacktrace] has returned, the process
    terminates after the FATAL message. *)
Theorem suggest_log_path_failures (prefix : string) (buff_size : nat) (p : Process) :
  (head_is "~" prefix = true -> environ p "HOME" = None ->
   suggest_log_path prefix buff_size p
   = exits p (fatal_outcome (globals p) 0 "CHECK FAILED:  home != nullptr  " __FILE__ 836
                "Missing HOME"))
  /\ (forall dir,
         expanded_prefix p prefix = Some dir ->
         let buff := take (buff_size - 1 - 1) dir in
         buff <> "" -> ends_in_slash buff = false ->
         (buff_size <= strlen buff + 2)%nat ->
         suggest_log_path prefix buff_size p
         = exits p (fatal_outcome (globals p) 0 "CHECK FAILED:  n + 2 < buff_size  "
                      __FILE__ 853 "Filename buffer too small")).
Proof.
  split.
  - intros Ht Hh. unfold suggest_log_path, home_dir. rewrite Ht, Hh.
    rewrite log_and_abort_outcome. unfold fatal_outcome, exits.
    now destruct (stacktrace (globals p) (0 + 2)).
  - intros dir Hd buff Hne Hs Hn. unfold suggest_log_path.
    assert (E : (if head_is "~" prefix
                 then match home_dir p with
                      | Returned home p0 =>
                          Returned (snprintf (buff_size - 1) (home ++ advance 1 prefix)) p0
                      | Exited p0 => Exited p0
                      | Stuck p0 => Stuck p0
                      end
                 else Returned (snprintf (buff_size - 1) prefix) p)
                = Returned buff p).
    { unfold expanded_prefix in Hd. destruct (head_is "~" prefix).
      - unfold home_dir. destruct (environ p "HOME") as [home|]; [|discriminate Hd].
        replace (home ++ advance 1 prefix) with dir by congruence. reflexivity.
      - replace prefix with dir by congruence. reflexivity. }
    rewrite E. clear E.
    assert (Z0 : (strlen buff =? 0)%nat = false).
    { destruct (strlen buff =? 0)%nat eqn:Z0; [|reflexivity].
      apply strlen_zero in Z0. contradiction. }
    rewrite Z0, Hs. cbn [negb andb].
    destruct (Nat.ltb_spec (strlen buff + 2) buff_size); [lia|].
    rewrite log_and_abort_outcome. unfold fatal_outcome, exits.
    now destruct (stacktrace (globals p) (0 + 2)).
Qed.

Lemma suggest_log_path_failures_witness :
  let p := {| globals := initial_state quiet_env 0 []; s_argv0_filename := "app";
              atexit_functions := []; environ := fun _ => None |} in
  exists p', suggest_log_path "~/logs" 64 p = Exited p'
             /\ last (events (globals p')) EvAbort = EvAbort.
Proof.
  intros p. eexists. split.
  - rewrite (proj1 (suggest_log_path_failures "~/logs" 64 p) eq_refl eq_refl).
    unfold fatal_outcome.
    replace (stacktrace (globals p) (0 + 2)) with (Some "") by (vm_compute; reflexivity).
    reflexivity.
  - reflexivity.
Defined.

(** ** Conditional and raw logging *)

Lemma VLOG_IF_F_test (s : Verbosity) (cond : bool) (file : string) (line : Z)
    (text : string) (st : State) :
  VLOG_IF_F s cond file line text st
  = if cond && (s <=? g_verbosity st) then log s file line text st else st.
Proof.
  unfold VLOG_IF_F.
  destruct cond, (Z.gtb_spec s (g_verbosity st)), (Z.leb_spec s (g_verbosity st));
    cbn; try reflexivity; lia.
Qed.

(** X15. The conditional macros. [VLOG_IF_F(s, cond, ...)] logs at
    severity [s] exactly when [cond] holds and [s <= g_verbosity].
    [LOG_IF_F(name, cond, ...)] hands the comparison
    [name > g_verbosity] itself to [VLOG_IF_F] as the severity, so what it
    logs has severity [0] or [1], never [name]: with a negative [name]
    ([WARNING], [ERROR], [FATAL]) the message is logged exactly when
    [cond] holds and [g_verbosity >= 0], at severity [0] (INFO, on
    [stdout]). *)
Theorem LOG_IF_F_severity (name : Verbosity) (cond : bool) (file : string) (line : Z)
    (text : string) (st : State) :
  (forall s,
      VLOG_IF_F s cond file line text st
      = if cond && (s <=? g_verbosity st) then log s file line text st else st)
  /\ LOG_IF_F name cond file line text st
     = (if cond && (name <=? g_verbosity st) && (0 <=? g_verbosity st)
        then log 0 file line text st
        else if cond && (g_verbosity st <? name) && (1 <=? g_verbosity st)
             then log 1 file line text st
             else st)
  /\ (name < 0 ->
      LOG_IF_F name cond file line text st
      = if cond && (0 <=? g_verbosity st)
        then append_events
               (message_events (make_message st INFO file line "" text) (s_callbacks st)) st
        else st)
  /\ (name < 0 -> message_stream (make_message st INFO file line "" text) = Stdout).
Proof.
  split; [intros s; apply VLOG_IF_F_test|].
  assert (E : LOG_IF_F name cond file line text st
              = (if cond && (name <=? g_verbosity st) && (0 <=? g_verbosity st)
                 then log 0 file line text st
                 else if cond && (g_verbosity st <? name) && (1 <=? g_verbosity st)
                      then log 1 file line text st
                      else st)).
  { unfold LOG_IF_F. rewrite VLOG_IF_F_test.
    destruct cond; cbn [andb]; [|now destruct (name >? g_verbosity st)].
    destruct (Z.gtb_spec name (g_verbosity st)), (Z.leb_spec name (g_verbosity st)),
      (Z.ltb_spec (g_verbosity st) name); try lia; cbn [andb];
      destruct (Z.leb_spec 0 (g_verbosity st)), (Z.leb_spec 1 (g_verbosity st));
      try reflexivity; lia. }
  split; [exact E|]. split; [|reflexivity].
  intros Hn. rewrite E. rewrite <- log_events.
  destruct cond; cbn [andb]; [|reflexivity].
  destruct (Z.leb_spec name (g_verbosity st)), (Z.ltb_spec (g_verbosity st) name),
    (Z.leb_spec 0 (g_verbosity st)), (Z.leb_spec 1 (g_verbosity st));
    try reflexivity; lia.
Qed.

(** X16. A raw log call passes the same test as [VLOG_F]; an accepted call
    writes the text and a line feed, with no preamble, indentation or
    prefix whatever the scope depth, to [stderr] when the severity is at
    most [WARNING] and to [stdout] otherwise, flushes, and dispatches the
    message with empty preamble, indentation and prefix to the registry. *)
Theorem RAW_VLOG_F_line (s : Verbosity) (file : string) (line : Z) (text : string)
    (st : State) :
  let m := Message.make s file line "" "" "" text in
  let out := if s <=? WARNING then Stderr else Stdout in
  RAW_VLOG_F s file line text st
  = if s <=? g_verbosity st
    then append_events
           (EvFprintf out (text ++ nl) :: EvFflush out :: dispatch_events m (s_callbacks st))
           st
    else st.
Proof.
  intros m out. unfold RAW_VLOG_F, raw_log. fold m. rewrite log_message_events.
  destruct (Z.gtb_spec s (g_verbosity st)), (Z.leb_spec s (g_verbosity st));
    try lia; reflexivity.
Qed.

(** ** The registry: registration followed by removal *)

Lemma with_callbacks_same (st : State) : with_callbacks (s_callbacks st) st = st.
Proof. now destruct st. Qed.

(** X17. [remove_callback(id)] right after [add_callback(id, ...)]. When
    no sink had the id, the registry is as before the two calls and the
    close hook just registered (if not null) has been called once with its
    [user_data]. When a sink had the id already, it is the older one that
    is closed and removed: the new sink stays, last in the registry. *)
Theorem add_then_remove_callback (id : string) (callback : log_handler_t)
    (user_data : ptr) (verbosity : Verbosity) (on_close : option close_handler_t)
    (st : State) :
  let added := Callback.make id callback user_data verbosity on_close in
  ((forall p, In p (s_callbacks st) -> Callback.id p <> id) ->
   remove_callback id (add_callback id callback user_data verbosity on_close st)
   = append_events
       match on_close with
       | Some h => close_events h user_data
       | None => []
       end st)
  /\ (forall before c after,
         s_callbacks st = (before ++ c :: after)%list ->
         Callback.id c = id ->
         (forall p, In p before -> Callback.id p <> id) ->
         remove_callback id (add_callback id callback user_data verbosity on_close st)
         = with_callbacks (before ++ after ++ [added])%list
             (append_events
                match Callback.close c with
                | Some h => close_events h (Callback.user_data c)
                | None => []
                end st)).
Proof.
  intros added. split.
  - intros Hn. unfold remove_callback, add_callback. cbn [s_callbacks with_callbacks].
    fold added.
    rewrite (find_if_first _ (s_callbacks st) [] added).
    + rewrite nth_error_app2, Nat.sub_diag by lia. cbn [nth_error Callback.close added].
      destruct on_close as [h|].
      * rewrite call_close_handler_events.
        cbn [Callback.user_data s_callbacks append_events with_callbacks].
        rewrite erase_middle, app_nil_r. now destruct st.
      * cbn [s_callbacks with_callbacks].
        rewrite erase_middle, app_nil_r, append_events_nil. now destruct st.
    + intros p Hp. apply String.eqb_neq. now apply Hn.
    + apply String.eqb_refl.
  - intros before c after E Hc Hb. unfold remove_callback, add_callback.
    cbn [s_callbacks with_callbacks]. fold added. rewrite E.
    rewrite <- app_assoc. cbn [app].
    rewrite (find_if_first _ before (after ++ [added])%list c).
    + rewrite nth_error_app2, Nat.sub_diag by lia. cbn [nth_error].
      destruct (Callback.close c) as [h|].
      * rewrite call_close_handler_events.
        cbn [s_callbacks append_events with_callbacks].
        rewrite erase_middle. reflexivity.
      * cbn [s_callbacks with_callbacks].
        rewrite erase_middle, append_events_nil. reflexivity.
    + intros p Hp. apply String.eqb_neq. now apply Hb.
    + now apply String.eqb_eq.
Qed.

(** ** File sinks at work *)

Lemma LOG_F_trace (s : Verbosity) (file : string) (line : Z) (text : string) (st : State) :
  exists new, LOG_F s file line text st = append_events new st.
Proof. apply VLOG_F_trace. Qed.

Lemma add_file_open_shape (created : bool) (path : string) (mode : FileMode)
    (verbosity : Verbosity) (st : State) :
  let file := env_fopen (env st) path (mode_str mode) in
  exists new,
    add_file_open created path mode verbosity st
    = (negb (file =? nullptr),
       append_events new
         (with_callbacks
            (if file =? nullptr then s_callbacks st
             else s_callbacks st
                  ++ [Callback.make path FileLog file verbosity (Some FileClose)])%list st)).
Proof.
  intros file. unfold add_file_open.
  assert (T : exists new, (if created then st
                           else LOG_F ERROR __FILE__ 900
                                  ("Failed to create directories to '" ++ path ++ "'") st)
                          = append_events new st).
  { destruct created; [exists []; now rewrite append_events_nil | apply LOG_F_trace]. }
  destruct T as [new T]. rewrite T. clear T.
  unfold fopen. change (env (append_events new st)) with (env st). fold file.
  rewrite emit_append_events, append_events_app.
  destruct (file =? nullptr).
  - destruct (LOG_F_trace ERROR __FILE__ 906 ("Failed to open '" ++ path ++ "'")
                (append_events (new ++ [EvFopen path (mode_str mode) file]) st)) as [l E].
    rewrite E, append_events_app. eexists. f_equal. f_equal. now destruct st.
  - unfold add_callback, fprintf, fflush. rewrite !emit_append_events.
    match goal with
    | |- context [LOG_F ?s ?f ?l ?t ?x] => destruct (LOG_F_trace s f l t x) as [l0 E]; rewrite E
    end.
    rewrite !append_events_app. eexists. f_equal.
    unfold append_events, with_callbacks. cbn [events s_callbacks g_verbosity s_file_arguments s_fatal_handler s_strip_file_path s_indentation errno fs_dirs env].
    f_equal. rewrite <- !app_assoc. reflexivity.
Qed.

(** What [add_file] leaves behind when it returns, at every threshold. *)
Lemma add_file_registry (path : string) (mode : FileMode) (verbosity : Verbosity)
    (st st' : State) (r : bool) :
  add_file path mode verbosity st = Returns r st' ->
  let file := env_fopen (env st) path (mode_str mode) in
  r = negb (file =? nullptr)
  /\ g_verbosity st' = g_verbosity st
  /\ s_fatal_handler st' = s_fatal_handler st
  /\ s_strip_file_path st' = s_strip_file_path st
  /\ s_indentation st' = s_indentation st
  /\ env st' = env st
  /\ s_callbacks st'
     = (if r then s_callbacks st ++ [Callback.make path FileLog file verbosity (Some FileClose)]
        else s_callbacks st)%list.
Proof.
  intros H file. unfold add_file, mkpath in H.
  destruct (strlen path =? 0)%nat.
  { match type of H with
    | match noreturn ?o with _ => _ end = _ =>
        destruct (@noreturn_outcome bool o) as [[s E]|[s E]]
    end.
    all: rewrite E in H; discriminate H. }
  pose proof (mkpath_loop_spec path (advance 1 path) 1 st) as (C & _).
  destruct (mkpath_loop path 1 (advance 1 path) st) as [created st1].
  cbn [fst snd] in C. destruct C as (Cg & Ca & Cc & Cf & Cs & Ci & Ce).
  destruct (add_file_open_shape created path mode verbosity st1) as [new E].
  rewrite E in H. injection H as <- <-. rewrite Ce. fold file.
  cbn [g_verbosity s_fatal_handler s_strip_file_path s_indentation env s_callbacks
       append_events with_callbacks].
  destruct (file =? nullptr); cbn [negb]; rewrite ?Cc; repeat split; assumption.
Qed.

Lemma dispatch_events_last (m : Message.t) (callbacks : CallbackVec) (p : Callback.t) :
  dispatch_events m (callbacks ++ [p])%list
  = (dispatch_events m callbacks
     ++ if eligible m p
        then invocation_events (Callback.callback p) (Callback.user_data p) m
        else [])%list.
Proof.
  unfold dispatch_events. rewrite filter_app, flat_map_app. f_equal.
  cbn [filter]. destruct (eligible m p); cbn; [now rewrite app_nil_r | reflexivity].
Qed.

(** X18. After [add_file] returned [true], every log call that passes the
    threshold and whose severity is at most the cutoff of the file writes
    to the file the very line it writes to the standard stream, and
    flushes the file; these are the last events of the call, the file
    being the newest sink. A call above the cutoff of the file leaves the
    file alone: its events are those of the registry without the file. *)
Theorem add_file_then_log (path : string) (mode : FileMode) (cutoff : Verbosity)
    (st st' : State) (s : Verbosity) (file : string) (line : Z) (text : string) :
  add_file path mode cutoff st = Returns true st' ->
  s <= g_verbosity st ->
  let stream := env_fopen (env st) path (mode_str mode) in
  let m := make_message st' s file line "" text in
  (s <= cutoff ->
   VLOG_F s file line text st'
   = append_events
       (message_events m (s_callbacks st)
        ++ [EvCallback FileLog stream m;
            EvFprintf (FileStream stream) (message_line m);
            EvFflush (FileStream stream)])%list st')
  /\ (cutoff < s ->
      VLOG_F s file line text st'
      = append_events (message_events m (s_callbacks st)) st')
  /\ In (EvFprintf (message_stream m) (message_line m))
        (message_events m (s_callbacks st)).
Proof.
  intros H Hs stream m.
  apply add_file_registry in H. destruct H as (_ & Hg & _ & _ & _ & _ & Hc).
  fold stream in Hc.
  assert (E : VLOG_F s file line text st'
              = append_events (message_events m (s_callbacks st')) st').
  { rewrite VLOG_F_accepted by (rewrite Hg; exact Hs). apply log_events. }
  rewrite E, Hc. unfold message_events. rewrite dispatch_events_last.
  unfold eligible. cbn [Callback.verbosity Callback.callback Callback.user_data].
  change (Message.verbosity m) with s.
  split; [|split].
  - intros Hle. destruct (Z.leb_spec s cutoff); [|lia]. reflexivity.
  - intros Hlt. destruct (Z.leb_spec s cutoff); [lia|]. now rewrite app_nil_r.
  - now left.
Qed.

Lemma add_file_then_log_witness :
  exists st',
    add_file "a/b/c.log" Append INFO (initial_state quiet_env 1 []) = Returns true st'
    /\ exists m,
        VLOG_F INFO "main.cpp" 7 "ready" st'
        = append_events
            [EvFprintf Stdout (message_line m); EvFflush Stdout;
             EvCallback FileLog 7 m; EvFprintf (FileStream 7) (message_line m);
             EvFflush (FileStream 7)] st'.
Proof.
  eexists. split; [reflexivity|]. eexists.
  apply (add_file_then_log "a/b/c.log" Append INFO (initial_state quiet_env 1 []) _
           INFO "main.cpp" 7 "ready" eq_refl).
  - vm_compute. discriminate.
  - unfold INFO. lia.
Defined.

(** X19. [remove_callback(path)] after [add_file(path, ...)] returned
    [true], when no sink had [path] as id before: the stream is closed
    ([file_close] calls [fclose] on it) and the registry is as it was
    before [add_file]. *)
Theorem add_file_then_remove (path : string) (mode : FileMode) (cutoff : Verbosity)
    (st st' : State) :
  add_file path mode cutoff st = Returns true st' ->
  (forall p, In p (s_callbacks st) -> Callback.id p <> path) ->
  let stream := env_fopen (env st) path (mode_str mode) in
  remove_callback path st'
  = with_callbacks (s_callbacks st)
      (append_events [EvClose FileClose stream; EvFclose stream] st').
Proof.
  intros H Hn stream.
  apply add_file_registry in H. destruct H as (_ & _ & _ & _ & _ & _ & Hc).
  fold stream in Hc.
  unfold remove_callback. rewrite Hc.
  rewrite (find_if_first _ (s_callbacks st) []).
  - rewrite nth_error_app2, Nat.sub_diag by lia. cbn [nth_error Callback.close].
    rewrite call_close_handler_events.
    cbn [Callback.user_data s_callbacks append_events]. rewrite Hc.
    rewrite erase_middle, app_nil_r. reflexivity.
  - intros p Hp. apply String.eqb_neq. now apply Hn.
  - apply String.eqb_refl.
Qed.

Lemma add_file_then_remove_witness :
  let st := initial_state quiet_env 1 [] in
  let st' := match add_file "a/b/c.log" Append INFO st with
             | Returns _ st' | Terminated st' | Looping st' => st'
             end in
  s_callbacks (remove_callback "a/b/c.log" st') = []
  /\ events (remove_callback "a/b/c.log" st')
     = (events st' ++ [EvClose FileClose 7; EvFclose 7])%list.
Proof.
  intros st st'.
  rewrite (add_file_then_remove "a/b/c.log" Append INFO st st' eq_refl);
    [split; reflexivity|].
  intros p [].
Defined.

(** ** [mkpath] again *)

Lemma mkdir_existing (d : string) (st : State) :
  In d (fs_dirs st) \/ env_mkdir_error (env st) d = Some EEXIST ->
  mkdir d st = (-1, append_events [EvMkdir d (-1)] (with_errno EEXIST st)).
Proof.
  intros H. unfold mkdir.
  destruct (existsb (String.eqb d) (fs_dirs st)) eqn:Hex; [reflexivity|].
  destruct H as [H|H].
  - assert (existsb (String.eqb d) (fs_dirs st) = true).
    { apply existsb_exists. exists d. split; [exact H | apply String.eqb_refl]. }
    congruence.
  - rewrite H. reflexivity.
Qed.

Lemma mkpath_loop_existing (file_path rest : string) :
  forall (off : nat) (st : State),
    (forall d, In d (intermediate_dirs_from file_path off rest) ->
               In d (fs_dirs st) \/ env_mkdir_error (env st) d = Some EEXIST) ->
    exists st',
      mkpath_loop file_path off rest st = (true, st')
      /\ fs_dirs st' = fs_dirs st
      /\ same_config st st'
      /\ events st'
         = (events st
            ++ map (fun d => EvMkdir d (-1)) (intermediate_dirs_from file_path off rest))%list.
Proof.
  induction rest as [|c rest IH]; intros off st H.
  - exists st. cbn. rewrite app_nil_r. auto using same_config_refl.
  - cbn [mkpath_loop intermediate_dirs_from] in *.
    destruct (Ascii.eqb c "/").
    + rewrite mkdir_existing by (apply H; now left).
      cbn [errno append_events with_errno errno_eqb Z.eqb andb negb].
      change (-1 =? -1) with true. cbn [andb].
      destruct (IH (S off) (append_events [EvMkdir (take off file_path) (-1)]
                              (with_errno EEXIST st))) as (st' & E & F & C & V).
      { intros d Hd. apply H. now right. }
      exists st'. rewrite E. repeat split; try apply C; auto.
      rewrite V. cbn [events append_events with_errno map]. now rewrite <- app_assoc.
    + apply IH. exact H.
Qed.

(** X20. [mkpath] can be called again: after a call that returned [true],
    another call on the same path returns [true], creates nothing (every
    [mkdir] it asks for fails with [EEXIST]) and logs nothing. *)
Theorem mkpath_again (path : string) (st st1 : State) :
  mkpath path st = Returns true st1 ->
  exists st2,
    mkpath path st1 = Returns true st2
    /\ fs_dirs st2 = fs_dirs st1
    /\ same_config st1 st2
    /\ events st2
       = (events st1 ++ map (fun d => EvMkdir d (-1)) (intermediate_dirs path))%list.
Proof.
  intros H. unfold mkpath in *.
  destruct (strlen path =? 0)%nat.
  { match type of H with
    | noreturn ?o = _ => destruct (@noreturn_outcome bool o) as [[s E]|[s E]]
    end.
    all: rewrite E in H; discriminate H. }
  pose proof (mkpath_loop_spec path (advance 1 path) 1 st) as (C & _ & _ & D & _).
  destruct (mkpath_loop path 1 (advance 1 path) st) as [created st1'].
  injection H as -> ->. cbn [fst snd] in *.
  destruct (mkpath_loop_existing path (advance 1 path) 1 st1) as (st2 & E & F & C2 & V).
  { intros d Hd. destruct (D eq_refl d Hd) as [Hin|He]; [now left|right].
    destruct C as (_ & _ & _ & _ & _ & _ & Ce). now rewrite Ce. }
  exists st2. rewrite E. auto.
Qed.

Lemma mkpath_again_witness :
  exists st1 st2,
    mkpath "a/b/c.log" (initial_state quiet_env 0 []) = Returns true st1
    /\ mkpath "a/b/c.log" st1 = Returns true st2
    /\ fs_dirs st2 = ["a"; "a/b"]
    /\ events st2 = (events st1 ++ [EvMkdir "a" (-1); EvMkdir "a/b" (-1)])%list.
Proof.
  eexists.
  destruct (mkpath_again "a/b/c.log" (initial_state quiet_env 0 []) _ eq_refl)
    as (st2 & E & F & _ & V).
  exists st2. split; [reflexivity|]. split; [exact E|]. split; [exact F | exact V].
Defined.

(** ** The number of characters [%d] prints *)








(** ** The width of the preamble *)

Lemma strlen_replicate_char (n : nat) (c : ascii) :
  strlen (replicate n (String c "")) = n.
Proof. induction n as [|n IH]; [reflexivity|]. unfold strlen in *. simpl. now rewrite IH. Qed.

Lemma strlen_pad_left (w : nat) (c : ascii) (s : string) :
  strlen (pad_left w c s) = Nat.max w (strlen s).
Proof. unfold pad_left. rewrite strlen_append, strlen_replicate_char. lia. Qed.








(** ** The prettifier never lengthens a trace *)

(** A match lies inside the text. *)
Lemma match_here_length (re : regex) :
  forall (s : string) (n : nat) (cap : string),
    match_here re s = Some (n, cap) -> (n <= strlen s)%nat.
Proof.
  induction re as [|a re' IH]; intros s n cap H.
  - cbn in H. injection H as <- _. lia.
  - cbn [match_here] in H.
    destruct (match atom_quant a with
              | One => (1%nat, Nat.min 1 (run_length (atom_class a) s))
              | Star => (0%nat, run_length (atom_class a) s)
              | Plus => (1%nat, run_length (atom_class a) s)
              end) as [lo hi] eqn:Q.
    assert (Hhi : (hi <= run_length (atom_class a) s)%nat).
    { destruct (atom_quant a); injection Q as <- <-; try lia.
      destruct (run_length (atom_class a) s); lia. }
    apply try_counts_some in H. destruct H as (j & Hj & A & _).
    destruct (match_here re' (advance j s)) as [[n' cap']|] eqn:M; [|discriminate A].
    injection A as <- _. apply IH in M.
    pose proof (run_length_le (atom_class a) s).
    rewrite strlen_advance in M. lia.
Qed.

(** A replacement by texts no longer than the matches does not lengthen
    the text. *)
Lemma strlen_regex_replace_from (re : regex) (fmt : string -> string) :
  (forall s n cap, match_here re s = Some (n, cap) -> (strlen (fmt cap) <= n)%nat) ->
  forall (s : string) (skip : nat),
    (strlen (regex_replace_from re fmt skip s) <= strlen s - skip)%nat.
Proof.
  intros Hfmt. induction s as [|c t IH]; intros skip; [cbn; lia|].
  cbn [regex_replace_from]. destruct skip as [|k].
  - destruct (match_here re (String c t)) as [[[|n] cap]|] eqn:M.
    + change (strlen (String c (regex_replace_from re fmt 0 t)) <= strlen (String c t) - 0)%nat.
      specialize (IH 0%nat). unfold strlen in *. simpl. lia.
    + pose proof (Hfmt _ _ _ M). pose proof (match_here_length _ _ _ _ M) as L.
      rewrite strlen_append. specialize (IH n). unfold strlen in *. simpl in *. lia.
    + specialize (IH 0%nat). unfold strlen in *. simpl. lia.
  - specialize (IH k). unfold strlen in *. simpl. lia.
Qed.

(** A match of the second pattern is at least two characters longer than
    its capture. *)
Lemma template_match_length (s : string) (n : nat) (g : string) :
  match_here template_spaces_re s = Some (n, g) -> (strlen g + 2 <= n)%nat.
Proof.
  intros H. apply template_match_head in H. destruct H as (r & n' & -> & -> & H).
  rewrite match_spaces_arg_spaces_gt in H.
  apply try_counts_some in H. destruct H as (k & _ & A & _).
  rewrite match_arg_spaces_gt in A. cbv zeta in A.
  destruct (run_length not_angle_or_blank (advance k r) =? 0)%nat; [discriminate A|].
  rewrite match_spaces_gt in A.
  destruct (head_is ">" _); [|discriminate A].
  injection A as <- <-. rewrite strlen_take. lia.
Qed.

Lemma replace_loop_shrinks (first second : string) :
  (strlen second < strlen first)%nat ->
  forall (fuel : nat) (s r : string),
    replace_loop fuel first second s = Some r -> (strlen r <= strlen s)%nat.
Proof.
  intros Hlt. induction fuel as [|fuel IH]; intros s r H; cbn [replace_loop] in H.
  - destruct (find first s); [discriminate H|]. injection H as <-. lia.
  - destruct (find first s) as [i|] eqn:F; [|injection H as <-; lia].
    apply IH in H. pose proof (strlen_replace first second s i F). lia.
Qed.

Lemma replace_list_shrinks (l : list (string * string)) :
  forallb (fun p => (strlen (snd p) <? strlen (fst p))%nat) l = true ->
  forall (fuel : nat) (s r : string),
    replace_list fuel l s = Some r -> (strlen r <= strlen s)%nat.
Proof.
  induction l as [|p l IH]; intros Hl fuel s r H; cbn [replace_list] in H.
  - injection H as <-. lia.
  - cbn [forallb] in Hl. apply andb_prop in Hl as [Hp Hl]. apply Nat.ltb_lt in Hp.
    destruct (replace_loop fuel (fst p) (snd p) s) as [s'|] eqn:E; [|discriminate H].
    apply (replace_loop_shrinks _ _ Hp) in E. apply (IH Hl) in H. lia.
Qed.

(** X23. On a platform whose demangled string type names are longer than
    their aliases, [prettify_stacktrace] never lengthens the text: every
    replacement of the list shortens it, the first pattern deletes its
    matches, and the second replaces a match by its capture between
    angle brackets, which is no longer than the match. *)
Theorem prettify_never_lengthens (fuel : nat) (pf : Platform) (x y : string) :
  shrinking pf = true ->
  prettify_stacktrace fuel pf x = Some y ->
  (strlen y <= strlen x)%nat.
Proof.
  intros Hpf H. unfold prettify_stacktrace in H.
  destruct (replace_list fuel (REPLACE_LIST pf) x) as [o|] eqn:R; [|discriminate H].
  injection H as <-.
  apply (replace_list_shrinks _ Hpf) in R.
  pose proof (strlen_regex_replace_from std_allocator_re (fun _ => EmptyString)
                ltac:(intros; cbn; lia) o 0) as A.
  pose proof (strlen_regex_replace_from template_spaces_re angle_group
                ltac:(intros s n cap M; apply template_match_length in M;
                      unfold angle_group; rewrite !strlen_append; cbn; lia)
                (regex_replace std_allocator_re (fun _ => EmptyString) o) 0) as T.
  unfold regex_replace in *. lia.
Qed.

Lemma prettify_never_lengthens_witness :
  (strlen "foo(std::vector<int>)" <= strlen "foo(std::__1::vector<int, std::__1::allocator<int> >)")%nat.
Proof.
  apply (prettify_never_lengthens 8 libcxx
           "foo(std::__1::vector<int, std::__1::allocator<int> >)"
           "foo(std::vector<int>)").
  - vm_compute. reflexivity.
  - vm_compute. reflexivity.
Defined.

(** ** The prettifier leaves plain text alone *)

Lemma all_chars_advance (p : ascii -> bool) (s : string) (n : nat) :
  all_chars p s = true -> all_chars p (advance n s) = true.
Proof.
  revert s; induction n as [|n IH]; intros s H; [exact H|].
  destruct s as [|c s]; [reflexivity|]. cbn [advance]. apply IH.
  cbn [all_chars] in H. now apply andb_prop in H.
Qed.

(** A pattern with an atom that must match the character [c] at least once
    matches nowhere in a text without [c]. *)
Lemma match_here_needs (c : ascii) (re : regex) :
  Exists (fun a => atom_quant a <> Star /\ forall x, atom_class a x = true -> x = c) re ->
  forall s, all_chars (fun x => negb (Ascii.eqb x c)) s = true -> match_here re s = None.
Proof.
  induction 1 as [a re' [Hq Hc]|a re' _ IH]; intros s Hs; cbn [match_here].
  - assert (R : run_length (atom_class a) s = 0%nat).
    { destruct s as [|x s]; [reflexivity|]. cbn [run_length].
      destruct (atom_class a x) eqn:Hx; [|reflexivity].
      apply Hc in Hx. subst x. cbn [all_chars] in Hs.
      rewrite Ascii.eqb_refl in Hs. discriminate Hs. }
    rewrite R. destruct (atom_quant a); [reflexivity | contradiction | reflexivity].
  - destruct (match atom_quant a with
              | One => (1%nat, Nat.min 1 (run_length (atom_class a) s))
              | Star => (0%nat, run_length (atom_class a) s)
              | Plus => (1%nat, run_length (atom_class a) s)
              end) as [lo hi].
    apply try_counts_none. intros j _.
    now rewrite (IH (advance j s) (all_chars_advance _ _ _ Hs)).
Qed.

Lemma regex_search_needs (c : ascii) (re : regex) :
  Exists (fun a => atom_quant a <> Star /\ forall x, atom_class a x = true -> x = c) re ->
  forall s, all_chars (fun x => negb (Ascii.eqb x c)) s = true -> regex_search re s = false.
Proof.
  intros Hre. induction s as [|x s IH]; intros Hs; cbn [regex_search];
    rewrite (match_here_needs c re Hre _ Hs); [reflexivity|].
  apply IH. cbn [all_chars] in Hs. now apply andb_prop in Hs.
Qed.

Lemma lit_needs (c : ascii) :
  atom_quant (lit c) <> Star /\ forall x, atom_class (lit c) x = true -> x = c.
Proof.
  split; [discriminate|]. intros x H. cbn in H. symmetry. now apply Ascii.eqb_eq.
Qed.

(** X24. A text that holds no ['<'] and no first component of
    [REPLACE_LIST] is returned as it is, at every bound on the
    replacements: both patterns need a ['<'] to match. *)
Theorem prettify_plain_text (fuel : nat) (pf : Platform) (x : string) :
  no_replace_key pf x = true ->
  all_chars (fun c => negb (Ascii.eqb c "<")) x = true ->
  prettify_stacktrace fuel pf x = Some x.
Proof.
  intros Hk Hx. unfold prettify_stacktrace.
  rewrite replace_list_no_key by exact Hk.
  rewrite (regex_replace_no_match std_allocator_re).
  - rewrite (regex_replace_no_match template_spaces_re); [reflexivity|].
    apply (regex_search_needs "<"); [|exact Hx].
    apply Exists_cons_hd. apply lit_needs.
  - apply (regex_search_needs "<"); [|exact Hx].
    unfold std_allocator_re. cbn [lits app].
    do 16 apply Exists_cons_tl. apply Exists_cons_hd. apply lit_needs.
Qed.

Lemma prettify_plain_text_witness :
  prettify_stacktrace 0 libcxx "3   0x00007fff5fbff6b0 main + 52"
  = Some "3   0x00007fff5fbff6b0 main + 52".
Proof.
  apply (prettify_plain_text 0 libcxx "3   0x00007fff5fbff6b0 main + 52");
    vm_compute; reflexivity.
Defined.

(** ** Scopes and indentation *)

Lemma indentation_markers (d : Z) :
  0 <= d -> indentation d = replicate (Z.to_nat (Z.min d 100)) ".   ".
Proof.
  intros Hd. unfold indentation. rewrite indentation_buff_markers.
  set (n := Z.to_nat (Z.min d 100)).
  assert (Hn : (n <= 100)%nat) by (unfold n; lia).
  replace (Z.to_nat (4 * (100 - Z.min d 100))) with (4 * (100 - n))%nat by (unfold n; lia).
  replace 100%nat with ((100 - n) + n)%nat at 2 by lia.
  apply advance_markers.
Qed.

Lemma to_unsigned_small (z : Z) : 0 <= z < 2 ^ 31 -> to_unsigned z = z.
Proof.
  intros H. unfold to_unsigned. change (2 ^ 31) with 2147483648 in H.
  change (2 ^ 32) with 4294967296. apply Z.mod_small. lia.
Qed.

(** X25. Scopes show as indentation. In a state of depth [d], with
    [0 <= d], the line of a message starts, after the preamble, with the
    marker [".   "] written [min d 100] times. An enabled scope logs its
    entry line at the depth it finds, every message logged while it is
    open (and no other scope is entered) is one marker deeper as long as
    the depth is below 100, and its exit line is back at the depth of the
    entry line. *)
Theorem scope_indents_messages (verbosity : Verbosity) (file : string) (line : Z)
    (text : string) (st : State) :
  0 <= s_indentation st < 2 ^ 31 - 1 ->
  verbosity <= g_verbosity st ->
  let d := s_indentation st in
  let scope := fst (LogScopeRAII.ctor verbosity file line text st) in
  let st1 := snd (LogScopeRAII.ctor verbosity file line text st) in
  (forall s f l prefix t,
      Message.indentation (make_message st s f l prefix t)
      = replicate (Z.to_nat (Z.min d 100)) ".   ")
  /\ (forall s f l prefix t,
         Message.indentation (make_message st1 s f l prefix t)
         = replicate (Z.to_nat (Z.min (d + 1) 100)) ".   ")
  /\ (d < 100 ->
      forall s f l prefix t,
        Message.indentation (make_message st1 s f l prefix t)
        = ".   " ++ Message.indentation (make_message st s f l prefix t))
  /\ (exists entry,
         events st1 = (events st ++ message_events entry (s_callbacks st))%list
         /\ Message.prefix entry = "{ "
         /\ Message.indentation entry = replicate (Z.to_nat (Z.min d 100)) ".   ")
  /\ (exists exit,
         events (LogScopeRAII.dtor scope st1)
         = (events st1 ++ message_events exit (s_callbacks st))%list
         /\ Message.indentation exit = replicate (Z.to_nat (Z.min d 100)) ".   ").
Proof.
  intros Hd Hv d scope st1.
  assert (I0 : forall s f l prefix t,
             Message.indentation (make_message st s f l prefix t)
             = replicate (Z.to_nat (Z.min d 100)) ".   ").
  { intros. unfold make_message. cbn [Message.indentation].
    rewrite to_unsigned_small by (fold d; lia). apply indentation_markers. fold d. lia. }
  assert (E1 : st1 = with_indentation (d + 1)
                       (append_events
                          (message_events
                             (make_message st verbosity file line "{ " (snprintf 128 text))
                             (s_callbacks st)) st)).
  { unfold st1, LogScopeRAII.ctor.
    destruct (Z.leb_spec verbosity (g_verbosity st)); [|lia]. cbn [snd].
    rewrite log_to_everywhere_events. cbn [s_indentation append_events].
    rewrite int_wrap_id; [reflexivity|]. unfold int_range. fold d. lia. }
  assert (I1 : forall s f l prefix t,
             Message.indentation (make_message st1 s f l prefix t)
             = replicate (Z.to_nat (Z.min (d + 1) 100)) ".   ").
  { intros. unfold make_message. cbn [Message.indentation]. rewrite E1.
    cbn [s_indentation with_indentation].
    rewrite to_unsigned_small by lia. apply indentation_markers. lia. }
  split; [exact I0|]. split; [exact I1|]. split; [|split].
  - intros Hlt s f l prefix t. rewrite I1, I0.
    replace (Z.to_nat (Z.min (d + 1) 100)) with (S (Z.to_nat (Z.min d 100))) by lia.
    reflexivity.
  - eexists. split; [rewrite E1; reflexivity|]. split; [reflexivity|]. apply I0.
  - unfold scope, LogScopeRAII.ctor.
    destruct (Z.leb_spec verbosity (g_verbosity st)); [|lia]. cbn [fst].
    unfold LogScopeRAII.dtor.
    cbn [LogScopeRAII._file LogScopeRAII._verbosity LogScopeRAII._line LogScopeRAII._name
         LogScopeRAII._start_time_ns].
    rewrite log_events. rewrite E1.
    cbn [s_indentation with_indentation append_events events s_callbacks].
    eexists. split; [reflexivity|].
    unfold make_message. cbn [Message.indentation s_indentation with_indentation].
    replace (d + 1 - 1) with d by lia.
    rewrite int_wrap_id by (unfold int_range; lia).
    rewrite to_unsigned_small by lia. apply indentation_markers. lia.
Qed.

Lemma scope_indents_messages_witness :
  let st := initial_state quiet_env 0 [] in
  let st1 := snd (LogScopeRAII.ctor INFO "main.cpp" 3 "load" st) in
  Message.indentation (make_message st1 INFO "main.cpp" 4 "" "reading")
  = ".   " ++ Message.indentation (make_message st INFO "main.cpp" 4 "" "reading").
Proof.
  intros st st1.
  apply (scope_indents_messages INFO "main.cpp" 3 "load" st).
  - cbn. lia.
  - cbn. unfold INFO. lia.
  - cbn. lia.
Defined.

(** ** The thread column *)

Lemma strlen_hex_digits (fuel : nat) :
  forall (z : Z) (acc : string),
    (strlen (hex_digits fuel z acc) <= fuel + strlen acc)%nat.
Proof.
  induction fuel as [|fuel IH]; intros z acc; cbn [hex_digits]; [lia|].
  destruct (z / 16 =? 0).
  - unfold strlen. cbn [String.length]. lia.
  - specialize (IH (z / 16) (String (hex_digit (z mod 16)) acc)).
    unfold strlen in *. cbn [String.length] in *. lia.
Qed.

(** X26. The thread column of the preamble. A thread without name shows
    as its id in upper-case hexadecimal, right-justified in 16 characters.
    [set_thread_name] with a name of 1 to 15 characters changes nothing
    but the name of the thread, and the column of every later preamble is
    that name, left-justified in 16 characters, between brackets. *)
Theorem thread_column (name : string) (st : State) (verbosity : Verbosity)
    (file : string) (line : Z) :
  (1 <= strlen name <= 15)%nat ->
  let st' := set_thread_name name st in
  st' = with_env (with_thread_name name (env st)) st
  /\ thread_name (env st') = name
  /\ (exists before after,
         preamble_text st' verbosity file line
         = before ++ "[" ++ name ++ replicate (16 - strlen name) " " ++ "]" ++ after)
  /\ (env_thread_name (env st) = "" ->
      thread_name (env st) = pad_left 16 " " (hex_digits 8 (env_thread_id (env st) mod 2 ^ 32) "")
      /\ strlen (thread_name (env st)) = 16%nat).
Proof.
  intros Hn st'.
  assert (E : st' = with_env (with_thread_name name (env st)) st).
  { unfold st', set_thread_name, pthread_setname_np.
    destruct (Nat.leb_spec (strlen name) 15); [reflexivity | lia]. }
  assert (T : thread_name (env st') = name).
  { rewrite E. unfold thread_name. cbn [env with_env env_thread_name with_thread_name].
    destruct (Nat.eqb_spec (strlen name) 0); [lia | reflexivity]. }
  split; [exact E|]. split; [exact T|]. split.
  - unfold preamble_text. cbv zeta. rewrite T.
    change (pad_right THREAD_NAME_WIDTH name) with (name ++ replicate (16 - strlen name) " ").
    set (time_info := env_time_info (env st')).
    exists (fmt_d0 4 (1900 + tm_year time_info) ++ "-" ++ fmt_d0 2 (1 + tm_mon time_info)
            ++ "-" ++ fmt_d0 2 (tm_mday time_info) ++ " "
            ++ fmt_d0 2 (tm_hour time_info) ++ ":" ++ fmt_d0 2 (tm_min time_info) ++ ":"
            ++ fmt_d0 2 (tm_sec time_info) ++ "."
            ++ fmt_d0 3 (Z.rem (env_ms_since_epoch (env st')) 1000)
            ++ " (" ++ env_uptime_text (env st') ++ "s) ").
    exists (pad_left 23 " " (preamble_file st' file) ++ ":" ++ pad_right 5 (dec line)
            ++ " " ++ pad_left 4 " " (level_buff verbosity) ++ "| ").
    change "s) [" with ("s) " ++ "["). rewrite !append_assoc. reflexivity.
  - intros H0. unfold thread_name. rewrite H0. cbn [strlen String.length Nat.eqb].
    unfold snprintf, THREAD_NAME_WIDTH, fmt_X.
    change (16 + 1 - 1)%nat with 16%nat.
    pose proof (strlen_hex_digits 8 (env_thread_id (env st) mod 2 ^ 32) "") as L.
    change (strlen "") with 0%nat in L.
    assert (W : strlen (pad_left 16 " "
                          (hex_digits 8 (env_thread_id (env st) mod 2 ^ 32) "")) = 16%nat).
    { rewrite strlen_pad_left. lia. }
    rewrite take_all by lia. split; [reflexivity | exact W].
Qed.

Lemma thread_column_witness :
  thread_name (env (set_thread_name "worker" (initial_state quiet_env 0 []))) = "worker".
Proof.
  apply (thread_column "worker" (initial_state quiet_env 0 []) INFO "main.cpp" 1).
  cbn. lia.
Defined.

(** ** Command lines are read from left to right *)

(** When the loop of [parse_args] returns on [args], it goes on with what
    follows [args] from the state and the arguments it has kept. *)
Lemma parse_args_loop_app (n : nat) :
  forall (args more kept out : list string) (argc argc' arg_it : Z) (st st1 : State),
    (List.length args <= n)%nat ->
    parse_args_loop argc arg_it args kept st = Returns out st1 ->
    parse_args_loop argc' arg_it (args ++ more)%list kept st
    = parse_args_loop argc' (arg_it + Z.of_nat (List.length args)) more (rev out) st1.
Proof.
  induction n as [|n IH]; intros args more kept out argc argc' arg_it st st1 Hn H.
  - destruct args; [|simpl in Hn; lia]. cbn in H. injection H as <- <-.
    cbn [app List.length]. now rewrite rev_involutive, Z.add_0_r.
  - destruct args as [|cmd rest].
    { cbn in H. injection H as <- <-.
      cbn [app List.length]. now rewrite rev_involutive, Z.add_0_r. }
    simpl in Hn. cbn [app parse_args_loop] in *.
    destruct (starts_with "-v" cmd
              && negb match String.get 2 cmd with
                      | Some c => is_alpha c
                      | None => false
                      end).
    + destruct (strlen (advance 2 cmd) =? 0)%nat.
      * destruct rest as [|value rest'].
        { match type of H with
          | noreturn ?o = _ => destruct (@noreturn_outcome (list string) o) as [[s E]|[s E]]
          end.
          all: rewrite E in H; discriminate H. }
        cbn [app List.length] in *.
        assert (Hl : (List.length rest' <= n)%nat) by lia.
        rewrite (IH rest' more _ _ _ argc' _ _ _ Hl H). f_equal. lia.
      * assert (Hl : (List.length rest <= n)%nat) by lia.
        rewrite (IH rest more _ _ _ argc' _ _ _ Hl H). f_equal. cbn [List.length]. lia.
    + assert (Hl : (List.length rest <= n)%nat) by lia.
      rewrite (IH rest more _ _ _ argc' _ _ _ Hl H). f_equal. cbn [List.length]. lia.
Qed.

(** X27. [parse_args] reads the command line from left to right. When it
    returns on a command line, it returns on that command line followed by
    an argument that is no verbosity option, which it keeps, last; and on
    that command line followed by [-v] and a value, which it removes, the
    threshold being the [int] that [atoi] reads from the value (for the
    decimal rendering of an [int], that [int]) whatever thresholds the
    options before it gave: the last option wins. *)
Theorem parse_args_left_to_right (argv argv' : list string) (st st1 : State) :
  parse_args argv st = Returns argv' st1 ->
  (forall cmd,
      is_verbosity_option cmd = false ->
      parse_args (argv ++ [cmd])%list st = Returns (argv' ++ [cmd])%list st1)
  /\ (forall value,
         parse_args (argv ++ ["-v"; value])%list st
         = Returns argv'
             (with_verbosity
                (atoi (if head_is "=" value then advance 1 value else value)) st))
  /\ (forall value,
         int_range value ->
         parse_args (argv ++ ["-v"; dec value])%list st
         = Returns argv' (with_verbosity value st)).
Proof.
  intros H.
  assert (F := parse_args_keeps_other_arguments_frame _ _ _ _ H).
  unfold parse_args in H. destruct argv as [|argv0 args].
  { match type of H with
    | noreturn ?o = _ => destruct (@noreturn_outcome (list string) o) as [[s E]|[s E]]
    end.
    all: rewrite E in H; discriminate H. }
  destruct (parse_args_loop _ 1 args [] st) as [out st1'| |] eqn:E; [|discriminate H..].
  injection H as <- <-.
  assert (V : forall value,
             parse_args ((argv0 :: args) ++ ["-v"; value])%list st
             = Returns (argv0 :: out)
                 (with_verbosity
                    (atoi (if head_is "=" value then advance 1 value else value)) st)).
  { intros value. unfold parse_args. cbn [app].
    rewrite (parse_args_loop_app (List.length args) args ["-v"; value] [] out _ _ 1 st st1'
               (Nat.le_refl _) E).
    cbn [parse_args_loop starts_with String.get advance strlen String.length Nat.eqb
         Ascii.eqb Bool.eqb andb negb].
    rewrite rev_involutive. rewrite F. reflexivity. }
  split; [|split].
  - intros cmd Hc. unfold parse_args. cbn [app].
    rewrite (parse_args_loop_app (List.length args) args [cmd] [] out _ _ 1 st st1'
               (Nat.le_refl _) E).
    rewrite parse_args_loop_keep by exact Hc. cbn [parse_args_loop rev].
    now rewrite rev_involutive.
  - exact V.
  - intros value Hv. rewrite V.
    destruct (dec_head value) as (c & t & Ed & D).
    assert (He : head_is "=" (dec value) = false).
    { rewrite Ed. destruct D as [-> | D]; [reflexivity|].
      now destruct (digit_facts c D) as (_ & _ & H2 & _). }
    rewrite He. now rewrite atoi_dec.
Qed.

Lemma parse_args_left_to_right_witness :
  parse_args (["./app"; "-v"; "3"; "in.txt"] ++ ["-v"; "-1"])%list
    (initial_state quiet_env 0 [])
  = Returns ["./app"; "in.txt"] (with_verbosity (-1) (initial_state quiet_env 0 [])).
Proof.
  apply (parse_args_left_to_right ["./app"; "-v"; "3"; "in.txt"] ["./app"; "in.txt"]
           (initial_state quiet_env 0 []) (with_verbosity 3 (initial_state quiet_env 0 []))
           eq_refl).
Defined.

(** ** What [mkpath] asks [mkdir] for *)

Lemma intermediate_dirs_from_prefix (file_path : string) :
  forall (rest : string) (off : nat) (d : string),
    (1 <= off)%nat -> rest = advance off file_path ->
    In d (intermediate_dirs_from file_path off rest) ->
    exists off', (1 <= off')%nat /\ d = take off' file_path
                 /\ exists tail, advance off' file_path = String "/" tail.
Proof.
  induction rest as [|c rest IH]; intros off d Hoff E H; [contradiction|].
  cbn [intermediate_dirs_from] in H.
  assert (E' : rest = advance (S off) file_path).
  { replace (S off) with (off + 1)%nat by lia. rewrite advance_add, <- E. reflexivity. }
  destruct (Ascii.eqb_spec c "/") as [->|Hc].
  - destruct H as [<-|H].
    + exists off. split; [exact Hoff|]. split; [reflexivity|]. now exists rest.
    + apply (IH (S off) d); [lia | exact E' | exact H].
  - apply (IH (S off) d); [lia | exact E' | exact H].
Qed.

Lemma strlen_take_advance (n : nat) (s : string) (c : ascii) (t : string) :
  advance n s = String c t -> strlen (take n s) = n.
Proof.
  intros H. rewrite strlen_take.
  pose proof (strlen_advance n s) as L. rewrite H in L.
  unfold strlen in *. cbn [String.length] in L. lia.
Qed.

Lemma mkpath_loop_mkdirs (file_path rest : string) :
  forall (off : nat) (st : State),
    exists new,
      events (snd (mkpath_loop file_path off rest st)) = (events st ++ new)%list
      /\ forall d result, In (EvMkdir d result) new ->
                          In d (intermediate_dirs_from file_path off rest).
Proof.
  induction rest as [|c rest IH]; intros off st.
  - exists []. cbn. rewrite app_nil_r. split; [reflexivity | intros d result []].
  - cbn [mkpath_loop intermediate_dirs_from].
    destruct (Ascii.eqb c "/"); [|apply IH].
    destruct (mkdir_events (take off file_path) st) as [result E].
    destruct (mkdir (take off file_path) st) as [r st1]. cbn [snd] in E.
    destruct ((r =? -1) && negb (errno_eqb (errno st1) EEXIST)).
    + cbn [snd]. destruct (mkpath_report_no_mkdir (take off file_path) st1) as (l & -> & N).
      exists ([EvMkdir (take off file_path) result] ++ l)%list.
      cbn [events append_events]. rewrite E, <- app_assoc. split; [reflexivity|].
      intros d res [H|H]; [injection H as <- _; now left | exfalso; exact (N _ _ H)].
    + destruct (IH (S off) st1) as (new & En & Hn).
      exists ([EvMkdir (take off file_path) result] ++ new)%list.
      rewrite En, E, <- app_assoc. split; [reflexivity|].
      intros d res [H|H]; [injection H as <- _; now left | right; exact (Hn _ _ H)].
Qed.

(** X28. The directories [mkpath] hands to [mkdir] are proper prefixes of
    the path: each is not empty and is followed in the path by a ['/'], so
    [mkpath] never asks for the path itself nor for the empty prefix of an
    absolute path; and every [mkdir] in its trace is for one of them. *)
Theorem mkpath_asks_for_prefixes (path : string) (st st' : State) (r : bool) :
  mkpath path st = Returns r st' ->
  (forall d, In d (intermediate_dirs path) ->
             d <> "" /\ exists tail, path = d ++ "/" ++ tail)
  /\ (exists new,
         events st' = (events st ++ new)%list
         /\ forall d result, In (EvMkdir d result) new -> In d (intermediate_dirs path)).
Proof.
  intros H. split.
  - intros d Hd. unfold intermediate_dirs in Hd.
    apply (intermediate_dirs_from_prefix path (advance 1 path) 1 d (Nat.le_refl _) eq_refl)
      in Hd.
    destruct Hd as (off & Hoff & -> & tail & T).
    split.
    + intros E. apply (f_equal strlen) in E.
      rewrite (strlen_take_advance _ _ _ _ T) in E. cbn in E. lia.
    + exists tail. rewrite <- (take_advance off path) at 1. now rewrite T.
  - unfold mkpath in H. destruct (strlen path =? 0)%nat.
    { match type of H with
      | noreturn ?o = _ => destruct (@noreturn_outcome bool o) as [[s E]|[s E]]
      end.
      all: rewrite E in H; discriminate H. }
    destruct (mkpath_loop_mkdirs path (advance 1 path) 1 st) as (new & E & N).
    destruct (mkpath_loop path 1 (advance 1 path) st) as [created st1].
    injection H as _ <-. exists new. split; [exact E | exact N].
Qed.

Lemma mkpath_asks_for_prefixes_witness :
  intermediate_dirs "/var/log/app.log" = ["/var"; "/var/log"]
  /\ "/var/log" <> "" /\ exists tail, "/var/log/app.log" = "/var/log" ++ "/" ++ tail.
Proof.
  split; [reflexivity|].
  apply (proj1 (mkpath_asks_for_prefixes "/var/log/app.log" (initial_state quiet_env 0 [])
                  _ true eq_refl)).
  right. now left.
Defined.
